(** * schwab-mcp: credential store, authorization exchange, session actor

    A shallow embedding of

    - [src/shared/kvTokenStore.ts]   (module [KvTokenStore]),
    - the OAuth endpoints of the Hono application (module [AuthHandler]),
    - [src/index.ts], the durable session actor (module [MyMCP]),

    and the properties the specification states about them.

    Asynchronous TypeScript is modelled in a state-and-exception monad over
    the key-value namespace and a trace of the calls that leave the program.
    Every collaborator that lives outside the repository (the KV binding, the
    Schwab SDK, the OAuth provider, configuration parsing) is a field of an
    environment record whose answer may depend on the whole history so far,
    so a collaborator may succeed on one call and fail on the next.

    Logger calls at level [info], [warn] and [error] are part of the
    history; calls at level [debug] are not, but whatever their arguments
    evaluate (a key derivation, for instance) is. *)

From stdpp Require Import gmap strings list fin_maps.

Set Default Proof Using "Type".
Open Scope string_scope.
Open Scope list_scope.

(* ===================================================================== *)
(** ** JavaScript values and truthiness *)
(* ===================================================================== *)

Module Js.

(** JSON values, as [kv.get(key, 'json')] yields them and
    [JSON.stringify] consumes them.  The namespace is modelled at the level
    of the value a stored text denotes. *)
#[warnings="-register-all"]
Inductive json : Type :=
| JNull
| JBool (b : bool)
| JNum (n : Z)
| JStr (s : string)
| JArr (items : list json)
| JObj (fields : list (string * json)).

(** ECMAScript [ToBoolean], the test behind [if (x)], [!x] and [!!x]. *)
Class ToBoolean (A : Type) := to_boolean : A → bool.
Global Hint Mode ToBoolean ! : typeclass_instances.

Global Instance string_to_boolean : ToBoolean string :=
  λ s, match s with EmptyString => false | String _ _ => true end.

Global Instance bool_to_boolean : ToBoolean bool := λ b, b.

Global Instance json_to_boolean : ToBoolean json :=
  λ v, match v with
       | JNull => false
       | JBool b => b
       | JNum n => negb (n =? 0)%Z
       | JStr s => to_boolean s
       | JArr _ | JObj _ => true
       end.

(** Arrays are objects: always truthy, even when empty. *)
Global Instance array_to_boolean {A} : ToBoolean (list A) := λ _, true.

(** A reference to an object created at run time (an instance of a class);
    two references are the same object when their numbers agree. *)
Inductive object_ref : Type := ObjectRef (id : nat).

Global Instance object_ref_to_boolean : ToBoolean object_ref := λ _, true.

(** [None] stands for [undefined] / [null]. *)
Global Instance option_to_boolean {A} `{ToBoolean A} : ToBoolean (option A) :=
  λ o, match o with Some a => to_boolean a | None => false end.

Lemma to_boolean_string_true (s : string) : to_boolean s = true ↔ s ≠ "".
Proof. destruct s; cbn; split; intros; congruence. Qed.

Lemma to_boolean_option_string (o : option string) :
  to_boolean o = true ↔ ∃ s, o = Some s ∧ s ≠ "".
Proof.
  destruct o as [s|]; cbn.
  - rewrite to_boolean_string_true. split; [eauto | by intros (? & [= ->] & ?)].
  - split; [done | by intros (? & ? & ?)].
Qed.

Lemma to_boolean_option_false (o : option string) :
  to_boolean o = false ↔ o = None ∨ o = Some "".
Proof.
  destruct o as [[|c s]|]; cbn; split; intros; try done; auto.
  - destruct H as [?|?]; congruence.
Qed.

End Js.
Import Js.

(* ===================================================================== *)
(** ** Errors, observable events, and the effect monad *)
(* ===================================================================== *)

(** The classes of [AuthErrors] the endpoints construct. *)
Inductive AuthError : Type :=
| MissingClientId
| AuthRequestFailed
| MissingState
| InvalidState
| AuthApproval
| MissingParameters
| TokenExchange
| AuthCallback
| NoUserId
| ApiResponse.

(** What a [throw] can carry. *)
Inductive exn : Type :=
| JsError (message : string)
| AuthErrorExn (e : AuthError)
| SchwabAuthError (code message : string) (status : nat)
| SchwabApiError (code message : string) (status : nat).

Inductive level : Type := LDebug | LInfo | LWarn | LError.

(** Types that come from the libraries the repository imports. *)
Module SchwabApi.
(** [TokenIdentifiers] of [@sudowealth/schwab-api]. *)
Record TokenIdentifiers : Type := {
  schwabUserId : option string;
  clientId : option string;
}.

(** The object literals [{ clientId: c }] and [{ schwabUserId: u }]. *)
Definition byClientId (c : string) : TokenIdentifiers :=
  {| schwabUserId := None; clientId := Some c |}.

Definition byUserId (u : string) : TokenIdentifiers :=
  {| schwabUserId := Some u; clientId := None |}.
End SchwabApi.

Module OAuthProvider.
(** The fields of [AuthRequest] ([@cloudflare/workers-oauth-provider])
    the endpoints read; each may be absent at run time. *)
Record AuthRequest : Type := {
  clientId : option string;
  redirectUri : option string;
  scope : option (list string);
}.
End OAuthProvider.

(** Calls that leave the program, in the order they are issued. *)
Inductive event : Type :=
| EvLog (lvl : level) (message : string)
| EvLogAuthError (lvl : level) (e : AuthError)
| EvKvGet (key : string)
| EvKvPut (key : string) (value : json)
| EvSdkMigrate (fromIds toIds : SchwabApi.TokenIdentifiers)
| EvGetConfig
| EvParseRedirectApproval
| EvRedirectToSchwab (req : OAuthProvider.AuthRequest)
| EvDecodeAndVerifyState (stateParam : string)
| EvInitializeSchwabAuthClient
| EvExchangeCode (code stateParam : string)
| EvCreateApiClient
| EvGetUserPreference
| EvCompleteAuthorization (userId clientId : string)
| EvServerTool (name : string)
| EvRegisterTools
| EvTmInitializeCalled (promise : nat)
| EvTmInitializeSettled (promise : nat)
| EvTmGetAccessToken
| EvSuperOnSSE.

Inductive result (A : Type) : Type :=
| Ok (a : A)
| Throw (e : exn).
Arguments Ok {A} a.
Arguments Throw {A} e.

(** A computation over a state [S]: it returns or throws, and in both cases
    leaves a state behind (what was written before a [throw] stays written). *)
Definition M (S A : Type) : Type := S → result A * S.

Definition ret {S A} (a : A) : M S A := λ s, (Ok a, s).
Definition throw {S A} (e : exn) : M S A := λ s, (Throw e, s).

Definition bind {S A B} (m : M S A) (k : A → M S B) : M S B :=
  λ s, match m s with
       | (Ok a, s') => k a s'
       | (Throw e, s') => (Throw e, s')
       end.

(** [try { m } catch (e) { h e }] *)
Definition try_catch {S A} (m : M S A) (h : exn → M S A) : M S A :=
  λ s, match m s with
       | (Ok a, s') => (Ok a, s')
       | (Throw e, s') => h e s'
       end.

(** A synchronous call whose outcome is already known. *)
Definition of_result {S A} (r : result A) : M S A := λ s, (r, s).

Declare Scope js_scope.
Delimit Scope js_scope with js.
Notation "'let*' x := m 'in' k" := (bind m (λ x, k))
  (at level 10, x name, m at level 100, k at level 200,
   format "'[v' 'let*'  x  :=  m  'in' '/' k ']'") : js_scope.
Notation "m >>> k" := (bind m (λ _, k))
  (at level 100, k at level 200, right associativity,
   format "'[v' m  >>> '/' k ']'") : js_scope.
Open Scope js_scope.

Lemma bind_ok {S A B} (m : M S A) (k : A → M S B) s a s' :
  m s = (Ok a, s') → bind m k s = k a s'.
Proof. unfold bind. by intros ->. Qed.

Lemma bind_throw {S A B} (m : M S A) (k : A → M S B) s e s' :
  m s = (Throw e, s') → bind m k s = (Throw e, s').
Proof. unfold bind. by intros ->. Qed.

Lemma try_catch_ok {S A} (m : M S A) h s a s' :
  m s = (Ok a, s') → try_catch m h s = (Ok a, s').
Proof. unfold try_catch. by intros ->. Qed.

Lemma try_catch_throw {S A} (m : M S A) h s e s' :
  m s = (Throw e, s') → try_catch m h s = h e s'.
Proof. unfold try_catch. by intros ->. Qed.

Lemma bind_assoc {S A B C} (m : M S A) (k : A → M S B) (h : B → M S C) s :
  bind (bind m k) h s = bind m (λ x, bind (k x) h) s.
Proof. unfold bind. by destruct (m s) as [[a|e] s1]. Qed.

Lemma bind_ext {S A B} (m : M S A) (k k' : A → M S B) s :
  (∀ x s1, k x s1 = k' x s1) → bind m k s = bind m k' s.
Proof. intros Hk. unfold bind. by destruct (m s) as [[a|e] s1]. Qed.

Lemma bind_ret_l {S A B} (x : A) (k : A → M S B) s : bind (ret x) k s = k x s.
Proof. done. Qed.

(** Reading a successful run backwards. *)
Lemma bind_inv_ok {S A B} (m : M S A) (k : A → M S B) s b s' :
  bind m k s = (Ok b, s') → ∃ a s1, m s = (Ok a, s1) ∧ k a s1 = (Ok b, s').
Proof.
  unfold bind. destruct (m s) as [[a|e] s1]; [eauto | discriminate].
Qed.

Lemma try_catch_rethrow_inv_ok {S A} (m : M S A) (h : exn → M S ()) s a s' :
  try_catch m (λ e, bind (h e) (λ _, throw e)) s = (Ok a, s') →
  m s = (Ok a, s').
Proof.
  unfold try_catch, bind, throw. destruct (m s) as [[a0|e] s1]; [done|].
  destruct (h e s1) as [[[]|?] ?]; discriminate.
Qed.

(** The part of the world both the endpoints and the actor act on: the
    [OAUTH_KV] namespace and the history of calls. *)
Record Sys : Type := {
  kv : gmap string json;
  trace : list event;
}.

Definition emit (e : event) (s : Sys) : Sys :=
  {| kv := kv s; trace := trace s ++ [e] |}.

Definition log (lvl : level) (message : string) : M Sys () :=
  λ s, (Ok (), emit (EvLog lvl message) s).

(** A call to a collaborator: it is recorded, and its outcome is the one the
    collaborator gives after the history so far. *)
Definition ext {A} (ev : event) (f : list event → result A) : M Sys A :=
  λ s, (f (trace s), emit ev s).

(** The fields of the validated environment ([ValidatedEnv], from
    [../types/env]) that the modelled code reads.  [OAUTH_KV] is the
    namespace [kv] of [Sys]. *)
Record ValidatedEnv : Type := {
  SCHWAB_CLIENT_ID : string;
  SCHWAB_REDIRECT_URI : string;
  LOG_LEVEL : string;
  ENVIRONMENT : string;
}.

(** A capability of the external token manager, seen from the repository:
    a finite conversation in which the manager may call the [load] and
    [save] closures it was constructed with, react to what they answer
    (a value or an exception), and finally return or throw. *)
Inductive tm_prog (A : Type) : Type :=
| TmRet (r : result A)
| TmLoad (k : result (option json) → tm_prog A)
| TmSave (tokenData : json) (k : result () → tm_prog A).
Arguments TmRet {A} r.
Arguments TmLoad {A} k.
Arguments TmSave {A} tokenData k.

Fixpoint run_tm {S A} (load : M S (option json)) (save : json → M S ())
    (p : tm_prog A) : M S A :=
  match p with
  | TmRet r => of_result r
  | TmLoad k => λ s, let '(r, s') := load s in run_tm load save (k r) s'
  | TmSave d k => λ s, let '(r, s') := save d s in run_tm load save (k r) s'
  end.

(** Unfold the plumbing of the monad, and write a history as the old one
    followed by one list of new events. *)
Ltac run_monad :=
  cbv [bind ret throw try_catch of_result log ext emit]; cbn [kv trace fst snd].
Ltac norm_trace := repeat rewrite <- app_assoc; cbn [app].

Lemma emit_trace e s : trace (emit e s) = trace s ++ [e].
Proof. done. Qed.

Lemma emit_kv e s : kv (emit e s) = kv s.
Proof. done. Qed.

(* ===================================================================== *)
(** ** src/shared/kvTokenStore.ts *)
(* ===================================================================== *)

Module KvTokenStore.
Import SchwabApi.

(** Modelled from the spec: [TOKEN_KEY_PREFIX] is imported from
    [./constants], which is not among the sources; the repository notes give
    the persisted key pattern as [token:{schwabUserId}]. *)
Definition TOKEN_KEY_PREFIX : string := "token:".

(** The collaborators of the store: the KV binding, which may fail on any
    call, and the SDK's own [KVTokenStore], to which [migrate] is delegated. *)
Record Env : Type := {
  (** the exception raised by the KV operation issued after this history,
      if it fails *)
  kv_fault : list event → option exn;
  (** [sdkStore.migrate(fromIds, toIds)]: its answer and the namespace it
      leaves behind *)
  sdk_migrate : list event → gmap string json →
                TokenIdentifiers → TokenIdentifiers →
                result bool * gmap string json;
  (** [sdkStore.generateKey(ids)] *)
  sdk_generateKey : TokenIdentifiers → result string;
}.

(** [new Error('No identifier provided for token key')] *)
Definition IdentityMissing : exn :=
  JsError "No identifier provided for token key".

(** [generateKey], lines 33-37. *)
Definition generateKey (ids : TokenIdentifiers) : result string :=
  match schwabUserId ids with
  | Some u =>
      if to_boolean u then Ok (TOKEN_KEY_PREFIX +:+ u)
      else match clientId ids with
           | Some c =>
               if to_boolean c then Ok (TOKEN_KEY_PREFIX +:+ c)
               else Throw IdentityMissing
           | None => Throw IdentityMissing
           end
  | None =>
      match clientId ids with
      | Some c =>
          if to_boolean c then Ok (TOKEN_KEY_PREFIX +:+ c)
          else Throw IdentityMissing
      | None => Throw IdentityMissing
      end
  end.

(** [await kv.get(key, 'json')]: [None] is JavaScript's [null]. *)
Definition kv_get (E : Env) (key : string) : M Sys (option json) :=
  λ s, match kv_fault E (trace s) with
       | Some e => (Throw e, emit (EvKvGet key) s)
       | None => (Ok (kv s !! key), emit (EvKvGet key) s)
       end.

(** [await kv.put(key, JSON.stringify(data), { expirationTtl })]; expiry is
    a matter of wall-clock time and is not represented. *)
Definition kv_put (E : Env) (key : string) (data : json) : M Sys () :=
  λ s, match kv_fault E (trace s) with
       | Some e => (Throw e, emit (EvKvPut key data) s)
       | None =>
           (Ok (), {| kv := <[key := data]> (kv s);
                      trace := trace s ++ [EvKvPut key data] |})
       end.

Definition load (E : Env) (ids : TokenIdentifiers) : M Sys (option json) :=
  let* key := of_result (generateKey ids) in
  kv_get E key.

Definition save (E : Env) (ids : TokenIdentifiers) (data : json) : M Sys () :=
  let* key := of_result (generateKey ids) in
  kv_put E key data.

Definition kvKey (ids : TokenIdentifiers) : result string := generateKey ids.

Definition migrate (E : Env) (fromIds toIds : TokenIdentifiers) : M Sys bool :=
  λ s, let '(r, kv') := sdk_migrate E (trace s) (kv s) fromIds toIds in
       (r, {| kv := kv'; trace := trace s ++ [EvSdkMigrate fromIds toIds] |}).

Definition migration_warning : string :=
  "Token migration was not needed or failed".

(** [migrateIfNeeded], lines 55-66.  The object literal passed to
    [logger.warn] is evaluated, field by field, before the call. *)
Definition migrateIfNeeded (E : Env) (fromIds toIds : TokenIdentifiers)
    : M Sys () :=
  let* success := migrate E fromIds toIds in
  if negb success then
    let* _from := of_result (sdk_generateKey E fromIds) in
    let* _to := of_result (sdk_generateKey E toIds) in
    log LWarn migration_warning
  else ret ().

(** *** Facts about key derivation and the namespace *)

Definition present (o : option string) : Prop := ∃ s, o = Some s ∧ s ≠ "".

Lemma present_to_boolean o : present o ↔ to_boolean o = true.
Proof. symmetry. apply to_boolean_option_string. Qed.

Lemma generateKey_user ids u :
  schwabUserId ids = Some u → u ≠ "" →
  generateKey ids = Ok (TOKEN_KEY_PREFIX +:+ u).
Proof.
  intros Hu Hne. unfold generateKey. rewrite Hu.
  by apply to_boolean_string_true in Hne as ->.
Qed.

Lemma generateKey_client ids c :
  to_boolean (schwabUserId ids) = false →
  clientId ids = Some c → c ≠ "" →
  generateKey ids = Ok (TOKEN_KEY_PREFIX +:+ c).
Proof.
  intros Hu Hc Hne. unfold generateKey. rewrite Hc.
  apply to_boolean_string_true in Hne as ->.
  destruct (schwabUserId ids) as [u|]; [|done].
  cbn in Hu. by rewrite Hu.
Qed.

Lemma generateKey_none ids :
  to_boolean (schwabUserId ids) = false →
  to_boolean (clientId ids) = false →
  generateKey ids = Throw IdentityMissing.
Proof.
  unfold generateKey.
  destruct (schwabUserId ids) as [u|], (clientId ids) as [c|];
    intros H1 H2; cbn in H1, H2; by rewrite ?H1, ?H2.
Qed.

Lemma generateKey_ok_iff ids :
  (∃ key, generateKey ids = Ok key) ↔
  to_boolean (schwabUserId ids) = true ∨ to_boolean (clientId ids) = true.
Proof.
  unfold generateKey.
  destruct (schwabUserId ids) as [[|? ?]|], (clientId ids) as [[|? ?]|]; cbn;
    split; try (intros [? ?]; discriminate); try (intros [?|?]; discriminate);
    eauto.
Qed.

Lemma generateKey_throws_only_IdentityMissing ids e :
  generateKey ids = Throw e → e = IdentityMissing.
Proof. unfold generateKey. repeat case_match; congruence. Qed.

(** Keys are injective in the identifier they are built from. *)
Lemma prefix_inj (a b : string) :
  TOKEN_KEY_PREFIX +:+ a = TOKEN_KEY_PREFIX +:+ b → a = b.
Proof. cbv [TOKEN_KEY_PREFIX String.append]. by intros [= ->]. Qed.

(** *** Loading and saving under a single identifier *)

Lemma generateKey_byClientId c :
  c ≠ "" → generateKey (SchwabApi.byClientId c) = Ok (TOKEN_KEY_PREFIX +:+ c).
Proof. intros. by apply generateKey_client. Qed.

Lemma generateKey_byUserId u :
  u ≠ "" → generateKey (SchwabApi.byUserId u) = Ok (TOKEN_KEY_PREFIX +:+ u).
Proof. intros. by apply generateKey_user. Qed.

Lemma load_reliable E ids key s :
  generateKey ids = Ok key → kv_fault E (trace s) = None →
  load E ids s = (Ok (kv s !! key), emit (EvKvGet key) s).
Proof.
  intros Hk Hf. unfold load, kv_get. run_monad. rewrite Hk. cbn.
  by rewrite Hf.
Qed.

Lemma save_reliable E ids key data s :
  generateKey ids = Ok key → kv_fault E (trace s) = None →
  save E ids data s
  = (Ok (), {| kv := <[key := data]> (kv s);
               trace := trace s ++ [EvKvPut key data] |}).
Proof.
  intros Hk Hf. unfold save, kv_put. run_monad. rewrite Hk. cbn.
  by rewrite Hf.
Qed.

(** Loading never writes. *)
Lemma load_kv E ids s : kv (load E ids s).2 = kv s.
Proof.
  unfold load, kv_get. run_monad.
  destruct (generateKey ids); [|done]. by destruct (kv_fault _ _).
Qed.

(** *** Concrete collaborators, for examples *)

Definition reliable_kv : list event → option exn := λ _, None.

(** Modelled from the spec: [sdkStore.migrate] belongs to the SDK, which is
    not among the sources; the specification describes it as a copy: if a
    record exists at the key of [fromIds] and none at the key of [toIds], it
    is copied and the answer is [true]; otherwise the answer is [false]. *)
Definition copying_migrate (_ : list event) (m : gmap string json)
    (fromIds toIds : TokenIdentifiers) : result bool * gmap string json :=
  match generateKey fromIds, generateKey toIds with
  | Ok fromKey, Ok toKey =>
      match m !! fromKey, m !! toKey with
      | Some data, None => (Ok true, <[toKey := data]> m)
      | _, _ => (Ok false, m)
      end
  | _, _ => (Ok false, m)
  end.

Definition copying_sdk : Env :=
  {| kv_fault := reliable_kv;
     sdk_migrate := copying_migrate;
     sdk_generateKey := generateKey |}.

Definition empty_sys : Sys := {| kv := ∅; trace := [] |}.

(** *** Key derivation *)

(** C6.  For every identity, the derived key is built from the canonical
    (Schwab user) id when that id is present, that is, defined and not the
    empty string; otherwise from the fallback (client) id when that one is
    present; when neither is present the derivation fails with the
    "No identifier provided" error.  In particular the empty identity has no
    key. *)
Theorem generateKey_precedence (ids : TokenIdentifiers) :
  (present (schwabUserId ids) →
     ∃ u, schwabUserId ids = Some u ∧
          generateKey ids = Ok (TOKEN_KEY_PREFIX +:+ u)) ∧
  (¬ present (schwabUserId ids) → present (clientId ids) →
     ∃ c, clientId ids = Some c ∧
          generateKey ids = Ok (TOKEN_KEY_PREFIX +:+ c)) ∧
  (¬ present (schwabUserId ids) → ¬ present (clientId ids) →
     generateKey ids = Throw IdentityMissing) ∧
  generateKey {| schwabUserId := None; clientId := None |}
    = Throw IdentityMissing.
Proof.
  repeat split.
  - intros (u & Hu & Hne). exists u. eauto using generateKey_user.
  - intros Hu (c & Hc & Hne). exists c. split; [done|].
    apply generateKey_client; [|done..].
    rewrite present_to_boolean in Hu. by apply not_true_is_false.
  - intros Hu Hc. rewrite present_to_boolean in Hu, Hc.
    apply generateKey_none; by apply not_true_is_false.
Qed.

Example generateKey_prefers_user :
  generateKey {| schwabUserId := Some "u1"; clientId := Some "c1" |}
    = Ok "token:u1".
Proof. reflexivity. Qed.

Example generateKey_falls_back :
  generateKey {| schwabUserId := Some ""; clientId := Some "c1" |}
    = Ok "token:c1".
Proof. reflexivity. Qed.

(** *** migrateIfNeeded *)

(** The statement of the specification, "for every pair of identities
    [migrateIfNeeded] returns normally", fails for an identity that carries
    no identifier.  The SDK's [migrate] finds nothing to copy and answers
    [false]; the warning is then built, and its [from] field asks the SDK
    for the key of that identity, which cannot be derived: the error leaves
    [migrateIfNeeded], and no warning is logged. *)
Lemma migrateIfNeeded_raises_counterexample :
  migrateIfNeeded copying_sdk
    {| schwabUserId := None; clientId := None |} (SchwabApi.byUserId "u1")
    empty_sys
  = (Throw IdentityMissing,
     {| kv := ∅;
        trace := [EvSdkMigrate {| schwabUserId := None; clientId := None |}
                               (SchwabApi.byUserId "u1")] |}).
Proof. reflexivity. Qed.

(** C2, as the code has it.  [migrateIfNeeded] has no [try]/[catch]; what
    it does is decided by the answer of the SDK's [migrate] and, when that
    answer is [false], by the two key derivations made for the warning.
    If [migrate] answers [true], it returns and logs nothing.  If [migrate]
    answers [false] and the SDK derives the keys of both identities, it
    logs exactly one warning and returns.  If [migrate] answers [false] and
    the key of [fromIds], or else the key of [toIds], cannot be derived, the
    derivation error is thrown to the caller and no warning is logged.  An
    exception of [migrate] itself would reach the caller as well.  In every
    case the namespace is left as [migrate] left it. *)
Theorem migrateIfNeeded_outcomes (E : Env) (fromIds toIds : TokenIdentifiers)
    (s : Sys) :
  (∀ kv',
     sdk_migrate E (trace s) (kv s) fromIds toIds = (Ok true, kv') →
     migrateIfNeeded E fromIds toIds s
     = (Ok (), {| kv := kv';
                  trace := trace s ++ [EvSdkMigrate fromIds toIds] |})) ∧
  (∀ kv' fromKey toKey,
     sdk_migrate E (trace s) (kv s) fromIds toIds = (Ok false, kv') →
     sdk_generateKey E fromIds = Ok fromKey →
     sdk_generateKey E toIds = Ok toKey →
     migrateIfNeeded E fromIds toIds s
     = (Ok (), {| kv := kv';
                  trace := trace s ++ [EvSdkMigrate fromIds toIds;
                                       EvLog LWarn migration_warning] |})) ∧
  (∀ kv' e,
     sdk_migrate E (trace s) (kv s) fromIds toIds = (Ok false, kv') →
     sdk_generateKey E fromIds = Throw e →
     migrateIfNeeded E fromIds toIds s
     = (Throw e, {| kv := kv';
                    trace := trace s ++ [EvSdkMigrate fromIds toIds] |})) ∧
  (∀ kv' fromKey e,
     sdk_migrate E (trace s) (kv s) fromIds toIds = (Ok false, kv') →
     sdk_generateKey E fromIds = Ok fromKey →
     sdk_generateKey E toIds = Throw e →
     migrateIfNeeded E fromIds toIds s
     = (Throw e, {| kv := kv';
                    trace := trace s ++ [EvSdkMigrate fromIds toIds] |})) ∧
  (∀ kv' e,
     sdk_migrate E (trace s) (kv s) fromIds toIds = (Throw e, kv') →
     migrateIfNeeded E fromIds toIds s
     = (Throw e, {| kv := kv';
                    trace := trace s ++ [EvSdkMigrate fromIds toIds] |})).
Proof.
  unfold migrateIfNeeded, migrate. run_monad. repeat split.
  - by intros kv' ->.
  - intros kv' fromKey toKey -> Hf Ht. cbn.
    rewrite Hf, Ht. run_monad. by norm_trace.
  - intros kv' e -> Hf. cbn. by rewrite Hf.
  - intros kv' fromKey e -> Hf Ht. cbn. by rewrite Hf, Ht.
  - by intros kv' e ->.
Qed.

(** With a store whose SDK derives keys as [generateKey] does, the wrapper
    returns for every pair of identities that both carry an identifier,
    whenever [migrate] answers. *)
Lemma migrateIfNeeded_returns_for_identified (E : Env)
    (fromIds toIds : TokenIdentifiers) (s : Sys) (b : bool)
    (kv' : gmap string json) (fromKey toKey : string) :
  sdk_generateKey E = generateKey →
  generateKey fromIds = Ok fromKey → generateKey toIds = Ok toKey →
  sdk_migrate E (trace s) (kv s) fromIds toIds = (Ok b, kv') →
  ∃ s', migrateIfNeeded E fromIds toIds s = (Ok (), s') ∧ kv s' = kv'.
Proof.
  intros HE Hf Ht Hm. unfold migrateIfNeeded, migrate. run_monad.
  rewrite Hm. destruct b; cbn; [by eexists|].
  rewrite HE, Hf, Ht. run_monad. by eexists.
Qed.

(** [migrate] copies, and the wrapper returns. *)
Example migrateIfNeeded_copies :
  let s := {| kv := {[ "token:c1" := JStr "T" ]}; trace := [] |} in
  ∃ s', migrateIfNeeded copying_sdk
          (SchwabApi.byClientId "c1") (SchwabApi.byUserId "u1") s = (Ok (), s')
        ∧ kv s' !! "token:u1" = Some (JStr "T")
        ∧ kv s' !! "token:c1" = Some (JStr "T").
Proof. eexists. split; [reflexivity|]. split; vm_compute; reflexivity. Qed.

(** The scenario of the specification: save under the client id, load it
    back, find nothing under the user id, migrate, find it under the user
    id. *)
Example save_load_migrate_scenario :
  let T := JObj [("accessToken", JStr "A1"); ("refreshToken", JStr "R1")] in
  let c1 := SchwabApi.byClientId "c1" in
  let u1 := SchwabApi.byUserId "u1" in
  let s1 := (save copying_sdk c1 T empty_sys).2 in
  let s2 := (migrateIfNeeded copying_sdk c1 u1 s1).2 in
  (load copying_sdk c1 s1).1 = Ok (Some T) ∧
  (load copying_sdk u1 s1).1 = Ok None ∧
  (migrateIfNeeded copying_sdk c1 u1 s1).1 = Ok () ∧
  (load copying_sdk u1 s2).1 = Ok (Some T) ∧
  (load copying_sdk c1 s2).1 = Ok (Some T).
Proof. repeat split; vm_compute; reflexivity. Qed.

Example migrateIfNeeded_warns_on_noop :
  migrateIfNeeded copying_sdk
    (SchwabApi.byClientId "c1") (SchwabApi.byUserId "u1") empty_sys
  = (Ok (), {| kv := ∅;
               trace := [EvSdkMigrate (SchwabApi.byClientId "c1")
                                      (SchwabApi.byUserId "u1");
                         EvLog LWarn migration_warning] |}).
Proof. reflexivity. Qed.


(** *** More about the store: round trips, aliasing, missing identifiers *)

(** The identifier [generateKey] builds the key from: the Schwab user id
    when it is defined and not empty, else the client id when that one is,
    else none. *)
Definition effective_id (ids : TokenIdentifiers) : option string :=
  if to_boolean (schwabUserId ids) then schwabUserId ids
  else if to_boolean (clientId ids) then clientId ids
  else None.

Lemma generateKey_effective_id ids :
  generateKey ids = match effective_id ids with
                    | Some i => Ok (TOKEN_KEY_PREFIX +:+ i)
                    | None => Throw IdentityMissing
                    end.
Proof.
  unfold generateKey, effective_id.
  destruct (schwabUserId ids) as [[|? ?]|], (clientId ids) as [[|? ?]|];
    reflexivity.
Qed.

Lemma effective_id_not_empty ids i : effective_id ids = Some i → i ≠ "".
Proof.
  unfold effective_id.
  destruct (schwabUserId ids) as [[|? ?]|], (clientId ids) as [[|? ?]|];
    cbn; intros [= <-]; discriminate.
Qed.

(** X1.  Two identities derive the same outcome of [generateKey] exactly
    when the identifier chosen by precedence is the same.  The key does not
    record which of the two fields the identifier came from: a Schwab user
    id and a client id with the same text address the same record, and a
    client id plays no part once a user id is present. *)
Theorem generateKey_same_key_iff (ids ids' : TokenIdentifiers) :
  generateKey ids = generateKey ids' ↔ effective_id ids = effective_id ids'.
Proof.
  rewrite !generateKey_effective_id.
  destruct (effective_id ids) as [i|], (effective_id ids') as [i'|];
    split; try done.
  - intros H. f_equal. apply prefix_inj. congruence.
  - by intros [= ->].
Qed.

Example user_and_client_id_collide (x : string) :
  generateKey (SchwabApi.byUserId x) = generateKey (SchwabApi.byClientId x).
Proof. unfold generateKey. cbn. by destruct x. Qed.

Example client_id_ignored_next_to_user_id :
  generateKey {| schwabUserId := Some "u1"; clientId := Some "c1" |}
  = generateKey {| schwabUserId := Some "u1"; clientId := Some "c2" |}.
Proof. reflexivity. Qed.

(** X2.  On a namespace that answers its calls, [save] followed by [load]
    is a round trip at the level of keys: after [save(ids, data)], a [load]
    with any identity that derives the same key returns [data], and a
    [load] with an identity that derives another key returns what was
    stored there before. *)
Theorem save_then_load (E : Env) (ids ids' : TokenIdentifiers) (data : json)
    (s : Sys) (key key' : string) :
  generateKey ids = Ok key →
  generateKey ids' = Ok key' →
  (∀ h, kv_fault E h = None) →
  ∃ s1,
    save E ids data s = (Ok (), s1) ∧
    (load E ids' s1).1
    = Ok (if decide (key = key') then Some data else kv s !! key') ∧
    trace s1 = trace s ++ [EvKvPut key data].
Proof.
  intros Hk Hk' Hrel. eexists. split; [by apply save_reliable|].
  split; [|done]. erewrite load_reliable by done. cbn.
  by rewrite lookup_insert.
Qed.

Lemma save_then_load_witness :
  generateKey {| schwabUserId := Some "u1"; clientId := Some "c1" |}
    = Ok "token:u1" ∧
  generateKey (SchwabApi.byClientId "c1") = Ok "token:c1" ∧
  (∀ h, kv_fault copying_sdk h = None) ∧
  ∃ s1,
    save copying_sdk {| schwabUserId := Some "u1"; clientId := Some "c1" |}
      (JStr "T") empty_sys = (Ok (), s1) ∧
    (load copying_sdk (SchwabApi.byClientId "c1") s1).1
    = Ok (if decide ("token:u1" = "token:c1") then Some (JStr "T")
          else kv empty_sys !! "token:c1") ∧
    trace s1 = trace empty_sys ++ [EvKvPut "token:u1" (JStr "T")].
Proof.
  assert (H1 : generateKey
                 {| schwabUserId := Some "u1"; clientId := Some "c1" |}
               = Ok "token:u1") by reflexivity.
  assert (H2 : generateKey (SchwabApi.byClientId "c1") = Ok "token:c1")
    by reflexivity.
  assert (H3 : ∀ h, kv_fault copying_sdk h = None) by reflexivity.
  split; [assumption|]. split; [assumption|]. split; [assumption|].
  exact (save_then_load copying_sdk _ _ (JStr "T") empty_sys _ _ H1 H2 H3).
Defined.

(** A token saved with both identifiers is stored under the user key only:
    a session that knows the client id alone does not find it. *)
Example saved_with_both_ids_not_found_by_client_id :
  let s1 := (save copying_sdk
               {| schwabUserId := Some "u1"; clientId := Some "c1" |}
               (JStr "T") empty_sys).2 in
  (load copying_sdk (SchwabApi.byUserId "u1") s1).1 = Ok (Some (JStr "T")) ∧
  (load copying_sdk (SchwabApi.byClientId "c1") s1).1 = Ok None.
Proof. split; vm_compute; reflexivity. Qed.

(** X3.  With no usable identifier (both fields undefined or empty),
    [load], [save] and [kvKey] fail with the "No identifier provided" error
    before the namespace is touched: no call is issued and nothing is
    written. *)
Theorem no_identifier_no_store_access (E : Env) (ids : TokenIdentifiers)
    (data : json) (s : Sys) :
  to_boolean (schwabUserId ids) = false →
  to_boolean (clientId ids) = false →
  load E ids s = (Throw IdentityMissing, s) ∧
  save E ids data s = (Throw IdentityMissing, s) ∧
  kvKey ids = Throw IdentityMissing.
Proof.
  intros Hu Hc. pose proof (generateKey_none ids Hu Hc) as Hk.
  unfold load, save, kvKey. run_monad. by rewrite Hk.
Qed.

Lemma no_identifier_no_store_access_witness :
  to_boolean (schwabUserId {| schwabUserId := Some ""; clientId := None |})
    = false ∧
  to_boolean (clientId {| schwabUserId := Some ""; clientId := None |})
    = false ∧
  load copying_sdk {| schwabUserId := Some ""; clientId := None |} empty_sys
    = (Throw IdentityMissing, empty_sys) ∧
  save copying_sdk {| schwabUserId := Some ""; clientId := None |}
    (JStr "T") empty_sys = (Throw IdentityMissing, empty_sys) ∧
  kvKey {| schwabUserId := Some ""; clientId := None |}
    = Throw IdentityMissing.
Proof.
  assert (H1 : to_boolean
                 (schwabUserId {| schwabUserId := Some ""; clientId := None |})
               = false) by reflexivity.
  assert (H2 : to_boolean
                 (clientId {| schwabUserId := Some ""; clientId := None |})
               = false) by reflexivity.
  split; [assumption|]. split; [assumption|].
  exact (no_identifier_no_store_access copying_sdk _ (JStr "T") empty_sys H1 H2).
Defined.

End KvTokenStore.

(* ===================================================================== *)
(** ** The OAuth endpoints (approval submission and provider callback) *)
(* ===================================================================== *)

Module AuthHandler.
Import OAuthProvider.

(** What an endpoint answers: [c.json(createJsonErrorResponse(error), status)],
    or a redirect. *)
Inductive Response : Type :=
| RespJsonError (error : AuthError)
| RespRedirect (location : string).

(** The [state] part of what [parseRedirectApproval] decodes from the form. *)
Record ApprovalState : Type := {
  oauthReqInfo : option AuthRequest;
}.

(** The query string of a callback request. *)
Record CallbackRequest : Type := {
  query_state : option string;
  query_code : option string;
}.

(** The collaborators of the endpoints.  The token manager built by
    [initializeSchwabAuthClient] is given the [loadToken] / [saveToken]
    closures, so whatever it does to the namespace it does through them. *)
Record Env : Type := {
  store : KvTokenStore.Env;
  getConfig : list event → result ValidatedEnv;
  parseRedirectApproval : list event → result ApprovalState;
  redirectToSchwab : list event → AuthRequest → result Response;
  decodeAndVerifyState : list event → string → result (option AuthRequest);
  extractClientIdFromState : AuthRequest → result string;
  initializeSchwabAuthClient : list event → result ();
  exchangeCode : list event → string → string → tm_prog ();
  createApiClient : list event → result ();
  (** [client.trader.userPreference.getUserPreference()], followed by the
      projection [?.streamerInfo?.[0]?.schwabClientCorrelId] *)
  getUserPreference : list event → tm_prog (option string);
  (** [OAUTH_PROVIDER.completeAuthorization(...)], yielding [redirectTo];
      the provider's own records are not part of [kv] *)
  completeAuthorization :
    list event → AuthRequest → string → string → result string;
  (** [mapSchwabError(code, message, status).mcpError] *)
  mapSchwabError : string → string → nat → AuthError;
}.

(** [oauthLogger.error(errorInfo.message)] then [return c.json(...)]. *)
Definition fail_with (error : AuthError) : M Sys Response :=
  λ s, (Ok (RespJsonError error), emit (EvLogAuthError LError error) s).

(** An early [return response] inside the [try] block. *)
Definition early {A} (m : M Sys Response) : M Sys (Response + A) :=
  let* response := m in ret (inl response).

(** [app.post('/authorize')], lines 97-139.  The last statement of the
    [try] block is [return redirectToSchwab(...)], without [await]: the call
    is made inside the [try], but the promise it returns is handed to the
    caller as it is, so that a rejection of that promise is not seen by the
    [catch] and becomes the rejection of the handler.  [redirectToSchwab]
    (from [./client], not among the sources) is taken to be an asynchronous
    function: its outcome, in [Env], is the settlement of its promise. *)
Definition post_authorize (E : Env) : M Sys Response :=
  let* checked :=
    try_catch
      (let* config := ext EvGetConfig (getConfig E) in
       let* parsed := ext EvParseRedirectApproval (parseRedirectApproval E) in
       match oauthReqInfo parsed with
       | None => early (fail_with MissingState)
       | Some authRequestForSchwab =>
           if negb (to_boolean (clientId authRequestForSchwab))
              || negb (to_boolean (scope authRequestForSchwab))
           then early (fail_with InvalidState)
           else ret (inr authRequestForSchwab)
       end)
      (λ error, early (fail_with AuthApproval)) in
  match checked with
  | inl response => ret response
  | inr authRequestForSchwab =>
      ext (EvRedirectToSchwab authRequestForSchwab)
          (λ h, redirectToSchwab E h authRequestForSchwab)
  end.

(** Lines 299-329: the write under both keys, inside its own [try]. *)
Definition persistDualKey (E : Env) (clientIdFromState userIdFromSchwab : string)
    : M Sys () :=
  try_catch
    (let* currentTokenData :=
       KvTokenStore.load (store E) (SchwabApi.byClientId clientIdFromState) in
     match currentTokenData with
     | Some data =>
         if to_boolean data then
           KvTokenStore.save (store E)
             (SchwabApi.byUserId userIdFromSchwab) data >>>
           KvTokenStore.save (store E)
             (SchwabApi.byClientId clientIdFromState) data >>>
           let* _clientIdKey :=
             of_result (KvTokenStore.kvKey
                          (SchwabApi.byClientId clientIdFromState)) in
           let* _schwabUserIdKey :=
             of_result (KvTokenStore.kvKey
                          (SchwabApi.byUserId userIdFromSchwab)) in
           log LInfo "Token saved under both keys"
         else ret ()
     | None => ret ()
     end)
    (λ migrationError,
       log LWarn "Token save failed, continuing with authorization").

(** Lines 331-344: hand over to the provider and redirect. *)
Definition completeFlow (E : Env) (decodedStateAsAuthRequest : AuthRequest)
    (clientIdFromState userIdFromSchwab : string) : M Sys Response :=
  let* redirectTo :=
    ext (EvCompleteAuthorization userIdFromSchwab clientIdFromState)
        (λ h, completeAuthorization E h decodedStateAsAuthRequest
                userIdFromSchwab clientIdFromState) in
  ret (RespRedirect redirectTo).

(** The token manager of the callback, run against the closures
    [loadToken] / [saveToken] bound to [{ clientId: clientIdFromState }]. *)
Definition with_initial_ids {A} (E : Env) (clientIdFromState : string)
    (ev : event) (call : list event → tm_prog A) : M Sys A :=
  λ s, run_tm
         (KvTokenStore.load (store E) (SchwabApi.byClientId clientIdFromState))
         (KvTokenStore.save (store E) (SchwabApi.byClientId clientIdFromState))
         (call (trace s)) (emit ev s).

(** Lines 212-297: everything between state validation and persistence.
    It yields the Schwab user id, or the response of an early [return]. *)
Definition exchangeAndIdentify (E : Env) (clientIdFromState code stateParam : string)
    : M Sys (Response + string) :=
  ext EvInitializeSchwabAuthClient (initializeSchwabAuthClient E) >>>
  log LInfo "Exchanging authorization code for tokens" >>>
  try_catch
    (with_initial_ids E clientIdFromState (EvExchangeCode code stateParam)
       (λ h, exchangeCode E h code stateParam))
    (λ exchangeError,
       log LError "Token exchange failed" >>>
       throw (AuthErrorExn TokenExchange)) >>>
  log LInfo "Token exchange successful" >>>
  log LInfo "Creating Schwab API client" >>>
  try_catch
    (ext EvCreateApiClient (createApiClient E))
    (λ clientError,
       log LError "Failed to create API client" >>>
       throw (AuthErrorExn AuthCallback)) >>>
  log LInfo "Fetching user preferences to get Schwab user ID" >>>
  let* userIdFromSchwab :=
    try_catch
      (with_initial_ids E clientIdFromState EvGetUserPreference
         (getUserPreference E))
      (λ preferencesError,
         log LError "Failed to fetch user preferences" >>>
         throw (AuthErrorExn NoUserId)) in
  if negb (to_boolean userIdFromSchwab) then
    let* r := fail_with NoUserId in ret (inl r)
  else ret (inr (default "" userIdFromSchwab)).

(** The handler of the outer [catch], lines 345-401. *)
Definition classify (E : Env) (error : exn) : AuthError :=
  match error with
  | SchwabAuthError code message status => mapSchwabError E code message status
  | SchwabApiError _ _ _ => ApiResponse
  | _ => AuthCallback
  end.

(** Lines 150-297 of [app.get('/callback')]: parameter and state checks,
    code exchange and identity lookup.  It yields the decoded request, the
    client id and the Schwab user id, or the response of an early [return]. *)
Definition validateAndIdentify (E : Env) (req : CallbackRequest)
    : M Sys (Response + AuthRequest * string * string) :=
  let* config := ext EvGetConfig (getConfig E) in
  if negb (to_boolean (query_state req)) || negb (to_boolean (query_code req))
  then early (fail_with MissingParameters)
  else
    let stateParam := default "" (query_state req) in
    let code := default "" (query_code req) in
    let* decoded :=
      ext (EvDecodeAndVerifyState stateParam)
          (λ h, decodeAndVerifyState E h stateParam) in
    match decoded with
    | None => early (fail_with InvalidState)
    | Some decodedStateAsAuthRequest =>
        let* clientIdFromState :=
          of_result (extractClientIdFromState E decodedStateAsAuthRequest) in
        if negb (to_boolean (clientId decodedStateAsAuthRequest))
           || negb (to_boolean (redirectUri decodedStateAsAuthRequest))
           || negb (to_boolean (scope decodedStateAsAuthRequest))
        then early (fail_with InvalidState)
        else
          let* identified :=
            exchangeAndIdentify E clientIdFromState code stateParam in
          match identified with
          | inl response => ret (inl response)
          | inr userIdFromSchwab =>
              ret (inr (decodedStateAsAuthRequest, clientIdFromState,
                        userIdFromSchwab))
          end
    end.

(** [app.get('/callback')], lines 148-402. *)
Definition callback (E : Env) (req : CallbackRequest) : M Sys Response :=
  try_catch
    (let* checked := validateAndIdentify E req in
     match checked with
     | inl response => ret response
     | inr (decodedStateAsAuthRequest, clientIdFromState, userIdFromSchwab) =>
         persistDualKey E clientIdFromState userIdFromSchwab >>>
         completeFlow E decodedStateAsAuthRequest
           clientIdFromState userIdFromSchwab
     end)
    (λ error, fail_with (classify E error)).

(** *** Concrete collaborators, for examples *)

Definition example_config : ValidatedEnv :=
  {| SCHWAB_CLIENT_ID := "app-key";
     SCHWAB_REDIRECT_URI := "https://worker.example/callback";
     LOG_LEVEL := "info";
     ENVIRONMENT := "production" |}.

Definition example_request : AuthRequest :=
  {| clientId := Some "c1";
     redirectUri := Some "https://client.example/cb";
     scope := Some ["api"] |}.

Definition example_token : json :=
  JObj [("accessToken", JStr "A1"); ("refreshToken", JStr "R1");
        ("expiresAt", JNum 1700000000)].

(** A world where every collaborator succeeds: the exchange saves one token
    through [saveToken], and the identity lookup answers ["u1"]. *)
Definition example_env : Env :=
  {| store := KvTokenStore.copying_sdk;
     getConfig := λ _, Ok example_config;
     parseRedirectApproval := λ _, Ok {| oauthReqInfo := Some example_request |};
     redirectToSchwab := λ _ _, Ok (RespRedirect "https://schwab.example/oauth");
     decodeAndVerifyState := λ _ _, Ok (Some example_request);
     extractClientIdFromState :=
       λ r, match clientId r with
            | Some c => Ok c
            | None => Throw (AuthErrorExn InvalidState)
            end;
     initializeSchwabAuthClient := λ _, Ok ();
     exchangeCode := λ _ _ _, TmSave example_token TmRet;
     createApiClient := λ _, Ok ();
     getUserPreference := λ _, TmRet (Ok (Some "u1"));
     completeAuthorization := λ _ _ _ _, Ok "https://client.example/cb?code=x";
     mapSchwabError := λ _ _ _, AuthCallback |}.

(** A world like [example_env], except that the code exchange stores
    nothing through [saveToken]. *)
Definition forgetful_env : Env :=
  {| store := store example_env; getConfig := getConfig example_env;
     parseRedirectApproval := parseRedirectApproval example_env;
     redirectToSchwab := redirectToSchwab example_env;
     decodeAndVerifyState := decodeAndVerifyState example_env;
     extractClientIdFromState := extractClientIdFromState example_env;
     initializeSchwabAuthClient := initializeSchwabAuthClient example_env;
     exchangeCode := λ _ _ _, TmRet (Ok ());
     createApiClient := createApiClient example_env;
     getUserPreference := getUserPreference example_env;
     completeAuthorization := completeAuthorization example_env;
     mapSchwabError := mapSchwabError example_env |}.

Definition example_callback : CallbackRequest :=
  {| query_state := Some "st"; query_code := Some "cd" |}.

Definition with_parseRedirectApproval (E : Env)
    (f : list event → result ApprovalState) : Env :=
  {| store := store E; getConfig := getConfig E;
     parseRedirectApproval := f;
     redirectToSchwab := redirectToSchwab E;
     decodeAndVerifyState := decodeAndVerifyState E;
     extractClientIdFromState := extractClientIdFromState E;
     initializeSchwabAuthClient := initializeSchwabAuthClient E;
     exchangeCode := exchangeCode E;
     createApiClient := createApiClient E;
     getUserPreference := getUserPreference E;
     completeAuthorization := completeAuthorization E;
     mapSchwabError := mapSchwabError E |}.

(** *** Dual-key persistence *)

(** The end-to-end callback in the example world: the exchange stores the
    token under the client key, and persistence copies it under the user
    key. *)
Example callback_happy_path :
  ∃ s', callback example_env example_callback KvTokenStore.empty_sys
        = (Ok (RespRedirect "https://client.example/cb?code=x"), s')
      ∧ kv s' !! "token:u1" = Some example_token
      ∧ kv s' !! "token:c1" = Some example_token.
Proof. eexists. split; [reflexivity|]. split; vm_compute; reflexivity. Qed.

(** A namespace that holds a record for the user (left by an earlier
    authorization through another client) and none for client ["c1"]. *)
Definition stale_sys : Sys :=
  {| kv := {[ "token:u1" := JStr "stale" ]}; trace := [] |}.

(** The statement of the specification, "after the step both loads return
    the identical payload", fails when the step finds no record under the
    client key: it writes nothing, and the two loads differ. *)
Lemma persistDualKey_loads_differ_counterexample :
  ∃ s', persistDualKey example_env "c1" "u1" stale_sys = (Ok (), s')
      ∧ (KvTokenStore.load (store example_env) (SchwabApi.byUserId "u1") s').1
        = Ok (Some (JStr "stale"))
      ∧ (KvTokenStore.load (store example_env) (SchwabApi.byClientId "c1") s').1
        = Ok None
      ∧ (KvTokenStore.load (store example_env) (SchwabApi.byUserId "u1") s').1
        ≠ (KvTokenStore.load (store example_env) (SchwabApi.byClientId "c1") s').1.
Proof.
  eexists. split; [reflexivity|].
  split; [vm_compute; reflexivity|].
  split; [vm_compute; reflexivity|].
  vm_compute. discriminate.
Qed.

(** The same in a whole callback: when the code exchange stores nothing
    through [saveToken], the handler still redirects, and the two loads
    differ afterwards. *)
Example callback_loads_differ :
  let done := callback forgetful_env example_callback stale_sys in
  done.1 = Ok (RespRedirect "https://client.example/cb?code=x") ∧
  kv done.2 !! "token:u1" = Some (JStr "stale") ∧
  kv done.2 !! "token:c1" = None.
Proof. repeat split; vm_compute; reflexivity. Qed.

(** C1, as the code has it.  When the step runs with client id [c] and
    Schwab user id [u], a credential record is present under the client key
    and the namespace answers its calls, then the step reads that record,
    writes it first under the user key and then under the client key, and
    afterwards loading by [{ schwabUserId: u }] and loading by
    [{ clientId: c }] return that same record. *)
Theorem persistDualKey_both_keys (E : Env) (c u : string) (s : Sys)
    (data : json) :
  c ≠ "" → u ≠ "" →
  (∀ h, KvTokenStore.kv_fault (store E) h = None) →
  kv s !! (KvTokenStore.TOKEN_KEY_PREFIX +:+ c) = Some data →
  to_boolean data = true →
  ∃ s',
    persistDualKey E c u s = (Ok (), s') ∧
    trace s' = trace s ++ [EvKvGet (KvTokenStore.TOKEN_KEY_PREFIX +:+ c);
                           EvKvPut (KvTokenStore.TOKEN_KEY_PREFIX +:+ u) data;
                           EvKvPut (KvTokenStore.TOKEN_KEY_PREFIX +:+ c) data;
                           EvLog LInfo "Token saved under both keys"] ∧
    kv s' = <[KvTokenStore.TOKEN_KEY_PREFIX +:+ c := data]>
              (<[KvTokenStore.TOKEN_KEY_PREFIX +:+ u := data]> (kv s)) ∧
    (KvTokenStore.load (store E) (SchwabApi.byUserId u) s').1 = Ok (Some data) ∧
    (KvTokenStore.load (store E) (SchwabApi.byClientId c) s').1 = Ok (Some data).
Proof.
  intros Hc Hu Hrel Hrec Hdata.
  pose proof (KvTokenStore.generateKey_byClientId c Hc) as Hkc.
  pose proof (KvTokenStore.generateKey_byUserId u Hu) as Hku.
  eexists. split.
  - unfold persistDualKey, KvTokenStore.kvKey.
    erewrite try_catch_ok; [reflexivity|].
    erewrite bind_ok by (by apply KvTokenStore.load_reliable).
    cbn [emit kv trace]. rewrite Hrec, Hdata.
    erewrite bind_ok by (by apply KvTokenStore.save_reliable).
    erewrite bind_ok by (by apply KvTokenStore.save_reliable).
    rewrite Hkc, Hku. run_monad. norm_trace. reflexivity.
  - cbn [kv trace]. split; [done|]. split; [done|].
    split.
    + erewrite KvTokenStore.load_reliable by done. cbn.
      destruct (decide (KvTokenStore.TOKEN_KEY_PREFIX +:+ c = KvTokenStore.TOKEN_KEY_PREFIX +:+ u))
        as [->|Hne].
      * by rewrite lookup_insert_eq.
      * by rewrite lookup_insert_ne, lookup_insert_eq.
    + erewrite KvTokenStore.load_reliable by done. cbn. by rewrite lookup_insert_eq.
Qed.

Definition pending_sys : Sys :=
  {| kv := {[ "token:c1" := example_token ]}; trace := [] |}.

Lemma persistDualKey_both_keys_witness :
  "c1" ≠ "" ∧ "u1" ≠ "" ∧
  (∀ h, KvTokenStore.kv_fault (store example_env) h = None) ∧
  kv pending_sys !! (KvTokenStore.TOKEN_KEY_PREFIX +:+ "c1") = Some example_token ∧
  to_boolean example_token = true ∧
  ∃ s',
    persistDualKey example_env "c1" "u1" pending_sys = (Ok (), s') ∧
    trace s' = trace pending_sys
               ++ [EvKvGet (KvTokenStore.TOKEN_KEY_PREFIX +:+ "c1");
                   EvKvPut (KvTokenStore.TOKEN_KEY_PREFIX +:+ "u1") example_token;
                   EvKvPut (KvTokenStore.TOKEN_KEY_PREFIX +:+ "c1") example_token;
                   EvLog LInfo "Token saved under both keys"] ∧
    kv s' = <[KvTokenStore.TOKEN_KEY_PREFIX +:+ "c1" := example_token]>
              (<[KvTokenStore.TOKEN_KEY_PREFIX +:+ "u1" := example_token]>
                 (kv pending_sys)) ∧
    (KvTokenStore.load (store example_env) (SchwabApi.byUserId "u1") s').1
      = Ok (Some example_token) ∧
    (KvTokenStore.load (store example_env) (SchwabApi.byClientId "c1") s').1
      = Ok (Some example_token).
Proof.
  assert (H1 : "c1" ≠ "") by discriminate.
  assert (H2 : "u1" ≠ "") by discriminate.
  assert (H3 : ∀ h, KvTokenStore.kv_fault (store example_env) h = None) by reflexivity.
  assert (H4 : kv pending_sys !! (KvTokenStore.TOKEN_KEY_PREFIX +:+ "c1")
               = Some example_token) by (vm_compute; reflexivity).
  assert (H5 : to_boolean example_token = true) by reflexivity.
  repeat (split; [assumption|]).
  exact (persistDualKey_both_keys example_env "c1" "u1" pending_sys
           example_token H1 H2 H3 H4 H5).
Defined.

(** *** Persistence when the client key holds no record *)

Definition is_put (e : event) : Prop := ∃ key value, e = EvKvPut key value.

(** The step alone: without a record under the client key it returns
    normally, leaves the namespace as it was, and issues no write. *)
Lemma persistDualKey_skips (E : Env) (c u : string) (s : Sys) :
  to_boolean (kv s !! (KvTokenStore.TOKEN_KEY_PREFIX +:+ c)) = false →
  ∃ evs,
    persistDualKey E c u s = (Ok (), {| kv := kv s; trace := trace s ++ evs |})
    ∧ Forall (λ e, ¬ is_put e) evs.
Proof.
  intros Hnone. unfold persistDualKey, KvTokenStore.load, KvTokenStore.kv_get.
  run_monad.
  destruct (KvTokenStore.generateKey (SchwabApi.byClientId c)) as [key|e] eqn:Hk.
  - assert (key = KvTokenStore.TOKEN_KEY_PREFIX +:+ c) as ->.
    { revert Hk. unfold KvTokenStore.generateKey. cbn.
      destruct (to_boolean c); congruence. }
    destruct (KvTokenStore.kv_fault (store E) (trace s)) as [e|].
    + cbn [kv trace]. norm_trace. eexists. split; [reflexivity|].
      repeat constructor; intros (? & ? & ?); discriminate.
    + destruct (kv s !! _) as [data|] eqn:Hrec.
      * cbn in Hnone. rewrite Hnone. cbn [kv trace].
        eexists. split; [reflexivity|].
        repeat constructor; intros (? & ? & ?); discriminate.
      * eexists. split; [reflexivity|].
        repeat constructor; intros (? & ? & ?); discriminate.
  - cbn [kv trace]. eexists. split; [reflexivity|].
    repeat constructor; intros (? & ? & ?); discriminate.
Qed.

(** C9.  When the callback reaches the persistence step and no credential
    record (no truthy value) is stored under the client key, the step
    returns normally without raising, the namespace is left exactly as it
    was, no write is issued, and the callback goes on to the provider's
    [completeAuthorization]: that call is made, and when it yields a target
    the response is the redirect to it. *)
Theorem callback_completes_without_record (E : Env) (req : CallbackRequest)
    (s s1 : Sys) (decoded : AuthRequest) (c u : string) :
  validateAndIdentify E req s = (Ok (inr (decoded, c, u)), s1) →
  to_boolean (kv s1 !! (KvTokenStore.TOKEN_KEY_PREFIX +:+ c)) = false →
  ∃ evs,
    let s2 := {| kv := kv s1; trace := trace s1 ++ evs |} in
    persistDualKey E c u s1 = (Ok (), s2) ∧
    Forall (λ e, ¬ is_put e) evs ∧
    callback E req s
      = try_catch (completeFlow E decoded c u)
          (λ error, fail_with (classify E error)) s2 ∧
    EvCompleteAuthorization u c ∈ trace (callback E req s).2 ∧
    kv (callback E req s).2 = kv s1 ∧
    ∀ target, completeAuthorization E (trace s2) decoded u c = Ok target →
              (callback E req s).1 = Ok (RespRedirect target).
Proof.
  intros Hpre Hnone.
  destruct (persistDualKey_skips E c u s1 Hnone) as (evs & Hstep & Hputs).
  exists evs. cbn zeta.
  assert (Hcb : callback E req s
                = try_catch (completeFlow E decoded c u)
                    (λ error, fail_with (classify E error))
                    {| kv := kv s1; trace := trace s1 ++ evs |}).
  { unfold callback, try_catch at 1. unfold bind at 1. rewrite Hpre.
    unfold bind at 1. rewrite Hstep. reflexivity. }
  split; [done|]. split; [done|]. split; [done|].
  rewrite Hcb. unfold completeFlow, fail_with. run_monad.
  destruct (completeAuthorization E _ decoded u c) as [target|e]; cbn.
  - split; [set_solver|]. split; [done|]. by intros ? [= ->].
  - split; [set_solver|]. split; [done|]. intros ? [=].
Qed.

Definition after_identify : Sys :=
  Eval vm_compute in (validateAndIdentify forgetful_env example_callback stale_sys).2.

Lemma callback_completes_without_record_witness :
  validateAndIdentify forgetful_env example_callback stale_sys
    = (Ok (inr (example_request, "c1", "u1")), after_identify) ∧
  to_boolean (kv after_identify !! (KvTokenStore.TOKEN_KEY_PREFIX +:+ "c1"))
    = false ∧
  ∃ evs,
    let s2 := {| kv := kv after_identify; trace := trace after_identify ++ evs |} in
    persistDualKey forgetful_env "c1" "u1" after_identify = (Ok (), s2) ∧
    Forall (λ e, ¬ is_put e) evs ∧
    callback forgetful_env example_callback stale_sys
      = try_catch (completeFlow forgetful_env example_request "c1" "u1")
          (λ error, fail_with (classify forgetful_env error)) s2 ∧
    EvCompleteAuthorization "u1" "c1"
      ∈ trace (callback forgetful_env example_callback stale_sys).2 ∧
    kv (callback forgetful_env example_callback stale_sys).2
      = kv after_identify ∧
    ∀ target,
      completeAuthorization forgetful_env (trace s2) example_request "u1" "c1"
        = Ok target →
      (callback forgetful_env example_callback stale_sys).1
        = Ok (RespRedirect target).
Proof.
  assert (H1 : validateAndIdentify forgetful_env example_callback stale_sys
               = (Ok (inr (example_request, "c1", "u1")), after_identify))
    by (vm_compute; reflexivity).
  assert (H2 : to_boolean
                 (kv after_identify !! (KvTokenStore.TOKEN_KEY_PREFIX +:+ "c1"))
               = false) by (vm_compute; reflexivity).
  split; [assumption|]. split; [assumption|].
  exact (callback_completes_without_record forgetful_env example_callback
           stale_sys after_identify example_request "c1" "u1" H1 H2).
Defined.

(** *** Missing callback parameters *)

(** C4.  For every callback request whose [state] or [code] query parameter
    is missing (or empty), once configuration has been read the endpoint
    answers with the [MissingParameters] error and does nothing else: the
    only calls recorded are reading the configuration and logging the error,
    so no state decoding, code exchange, identity lookup, store access or
    completion takes place, and the namespace is unchanged. *)
Theorem callback_missing_parameters (E : Env) (req : CallbackRequest)
    (s : Sys) (config : ValidatedEnv) :
  getConfig E (trace s) = Ok config →
  to_boolean (query_state req) = false ∨ to_boolean (query_code req) = false →
  callback E req s
  = (Ok (RespJsonError MissingParameters),
     {| kv := kv s;
        trace := trace s ++ [EvGetConfig;
                             EvLogAuthError LError MissingParameters] |}).
Proof.
  intros Hcfg Hmissing.
  unfold callback, validateAndIdentify, early, fail_with. run_monad.
  rewrite Hcfg.
  assert (negb (to_boolean (query_state req))
          || negb (to_boolean (query_code req)) = true) as ->.
  { destruct Hmissing as [-> | ->]; [done|]. by rewrite orb_true_r. }
  cbn. by norm_trace.
Qed.

Lemma callback_missing_parameters_witness :
  getConfig example_env (trace KvTokenStore.empty_sys) = Ok example_config ∧
  (to_boolean (query_state {| query_state := Some "st"; query_code := None |})
     = false
   ∨ to_boolean (query_code {| query_state := Some "st"; query_code := None |})
     = false) ∧
  callback example_env {| query_state := Some "st"; query_code := None |}
    KvTokenStore.empty_sys
  = (Ok (RespJsonError MissingParameters),
     {| kv := kv KvTokenStore.empty_sys;
        trace := trace KvTokenStore.empty_sys
                 ++ [EvGetConfig; EvLogAuthError LError MissingParameters] |}).
Proof.
  assert (H1 : getConfig example_env (trace KvTokenStore.empty_sys)
               = Ok example_config) by reflexivity.
  assert (H2 : to_boolean
                 (query_state {| query_state := Some "st"; query_code := None |})
               = false
             ∨ to_boolean
                 (query_code {| query_state := Some "st"; query_code := None |})
               = false) by (right; reflexivity).
  split; [assumption|]. split; [assumption|].
  exact (callback_missing_parameters example_env
           {| query_state := Some "st"; query_code := None |}
           KvTokenStore.empty_sys example_config H1 H2).
Defined.

(** *** Approval submission *)

(** A decoded approval whose request lacks [redirectUri]. *)
Definition request_without_redirectUri : AuthRequest :=
  {| clientId := Some "c1"; redirectUri := None; scope := Some ["api"] |}.

(** The statement of the specification, "a missing state or an incomplete
    client id, scope or redirect URI fails with [InvalidState]", fails twice:
    a submission without the embedded state is answered with the
    [MissingState] error, and a request without [redirectUri] is not
    rejected at all but passed on to the provider redirect. *)
Lemma post_authorize_invalid_state_counterexample :
  (post_authorize
     (with_parseRedirectApproval example_env
        (λ _, Ok {| oauthReqInfo := None |}))
     KvTokenStore.empty_sys).1
  = Ok (RespJsonError MissingState)
  ∧ RespJsonError MissingState ≠ RespJsonError InvalidState
  ∧ to_boolean (redirectUri request_without_redirectUri) = false
  ∧ (post_authorize
       (with_parseRedirectApproval example_env
          (λ _, Ok {| oauthReqInfo := Some request_without_redirectUri |}))
       KvTokenStore.empty_sys).1
    = Ok (RespRedirect "https://schwab.example/oauth").
Proof. repeat split; try reflexivity. discriminate. Qed.

(** C7, as the code has it.  On approval submission, once configuration is
    read and the form is decoded: if the embedded pending-authorization
    state is missing, the endpoint fails with [MissingState]; if its client
    id or its scope is missing (or the client id is empty), it fails with
    [InvalidState]; otherwise, whatever the redirect URI, the request is
    handed to the provider redirect, whose response is the endpoint's. *)
Theorem post_authorize_outcomes (E : Env) (s : Sys) (config : ValidatedEnv)
    (parsed : ApprovalState) :
  getConfig E (trace s) = Ok config →
  parseRedirectApproval E (trace s ++ [EvGetConfig]) = Ok parsed →
  let s1 := {| kv := kv s;
               trace := trace s ++ [EvGetConfig; EvParseRedirectApproval] |} in
  (oauthReqInfo parsed = None →
     post_authorize E s
     = (Ok (RespJsonError MissingState),
        emit (EvLogAuthError LError MissingState) s1)) ∧
  (∀ r, oauthReqInfo parsed = Some r →
        to_boolean (clientId r) = false ∨ to_boolean (scope r) = false →
        post_authorize E s
        = (Ok (RespJsonError InvalidState),
           emit (EvLogAuthError LError InvalidState) s1)) ∧
  (∀ r response,
        oauthReqInfo parsed = Some r →
        to_boolean (clientId r) = true → to_boolean (scope r) = true →
        redirectToSchwab E (trace s1) r = Ok response →
        post_authorize E s = (Ok response, emit (EvRedirectToSchwab r) s1)).
Proof.
  intros Hcfg Hparse s1.
  assert (Hs1 : ∀ B (k : ApprovalState → M Sys B),
            (let* config := ext EvGetConfig (getConfig E) in
             let* parsed := ext EvParseRedirectApproval
                              (parseRedirectApproval E) in
             k parsed) s = k parsed s1).
  { intros B k. run_monad. rewrite Hcfg. cbn. rewrite Hparse. cbn.
    subst s1. by norm_trace. }
  unfold post_authorize. repeat split.
  - intros Hnone. unfold bind at 1, try_catch. rewrite Hs1, Hnone.
    reflexivity.
  - intros r Hr Hbad. unfold bind at 1, try_catch. rewrite Hs1, Hr.
    assert (negb (to_boolean (clientId r)) || negb (to_boolean (scope r))
            = true) as ->.
    { destruct Hbad as [-> | ->]; [done|]. by rewrite orb_true_r. }
    reflexivity.
  - intros r response Hr Hc Hsc Hredir. unfold bind at 1, try_catch.
    rewrite Hs1, Hr, Hc, Hsc. cbn [negb orb]. unfold ret, ext.
    by rewrite Hredir.
Qed.

Lemma post_authorize_outcomes_witness :
  getConfig example_env (trace KvTokenStore.empty_sys) = Ok example_config ∧
  parseRedirectApproval example_env
    (trace KvTokenStore.empty_sys ++ [EvGetConfig])
    = Ok {| oauthReqInfo := Some example_request |} ∧
  post_authorize example_env KvTokenStore.empty_sys
  = (Ok (RespRedirect "https://schwab.example/oauth"),
     {| kv := ∅;
        trace := [EvGetConfig; EvParseRedirectApproval;
                  EvRedirectToSchwab example_request] |}).
Proof.
  assert (H1 : getConfig example_env (trace KvTokenStore.empty_sys)
               = Ok example_config) by reflexivity.
  assert (H2 : parseRedirectApproval example_env
                 (trace KvTokenStore.empty_sys ++ [EvGetConfig])
               = Ok {| oauthReqInfo := Some example_request |})
    by reflexivity.
  split; [assumption|]. split; [assumption|].
  exact (proj2 (proj2
           (post_authorize_outcomes example_env KvTokenStore.empty_sys
              example_config {| oauthReqInfo := Some example_request |} H1 H2))
           example_request (RespRedirect "https://schwab.example/oauth")
           eq_refl eq_refl eq_refl eq_refl).
Defined.


(** *** Persistence: what it can and cannot do to the namespace *)

Lemma generateKey_byClientId_inv c key :
  KvTokenStore.generateKey (SchwabApi.byClientId c) = Ok key →
  key = KvTokenStore.TOKEN_KEY_PREFIX +:+ c ∧ c ≠ "".
Proof.
  unfold KvTokenStore.generateKey. cbn. destruct c; cbn; [discriminate|].
  by intros [= <-].
Qed.

Lemma generateKey_byUserId_inv u key :
  KvTokenStore.generateKey (SchwabApi.byUserId u) = Ok key →
  key = KvTokenStore.TOKEN_KEY_PREFIX +:+ u ∧ u ≠ "".
Proof.
  unfold KvTokenStore.generateKey. cbn. destruct u; cbn; [discriminate|].
  by intros [= <-].
Qed.

(** The step has its own [try]/[catch], whose handler only logs. *)
Lemma persistDualKey_returns (E : Env) (c u : string) (s : Sys) :
  ∃ s', persistDualKey E c u s = (Ok (), s').
Proof.
  unfold persistDualKey, try_catch.
  destruct (bind _ _ s) as [[[]|e] s1]; by eexists.
Qed.

(** X4.  Whatever the namespace does (any of its calls may fail), the
    dual-key persistence step returns normally, and it either leaves the
    namespace exactly as it was or sets the user key to the record it read
    under the client key.  It never changes the record under the client key
    and never touches any other key: the second write is redundant. *)
Theorem persistDualKey_never_throws_frame (E : Env) (c u : string) (s : Sys) :
  ∃ s',
    persistDualKey E c u s = (Ok (), s') ∧
    (kv s' = kv s ∨
     ∃ data,
       kv s !! (KvTokenStore.TOKEN_KEY_PREFIX +:+ c) = Some data ∧
       to_boolean data = true ∧
       kv s' = <[KvTokenStore.TOKEN_KEY_PREFIX +:+ u := data]> (kv s)).
Proof.
  unfold persistDualKey, KvTokenStore.load, KvTokenStore.save,
    KvTokenStore.kvKey, KvTokenStore.kv_get, KvTokenStore.kv_put.
  run_monad.
  destruct (KvTokenStore.generateKey (SchwabApi.byClientId c)) as [kc|e] eqn:Hkc;
    cbn [kv trace]; [|eexists; split; [reflexivity | by left]].
  apply generateKey_byClientId_inv in Hkc as [-> Hc].
  destruct (KvTokenStore.kv_fault (store E) (trace s)) as [e|];
    cbn [kv trace]; [eexists; split; [reflexivity | by left]|].
  destruct (kv s !! _) as [data|] eqn:Hrec;
    [|eexists; split; [reflexivity | by left]].
  destruct (to_boolean data) eqn:Hdata;
    [|eexists; split; [reflexivity | by left]].
  destruct (KvTokenStore.generateKey (SchwabApi.byUserId u)) as [ku|e] eqn:Hku;
    cbn [kv trace]; [|eexists; split; [reflexivity | by left]].
  apply generateKey_byUserId_inv in Hku as [-> Hu].
  destruct (KvTokenStore.kv_fault (store E) (_ ++ [EvKvGet _])) as [e|];
    cbn [kv trace]; [eexists; split; [reflexivity | by left]|].
  destruct (KvTokenStore.kv_fault (store E) (_ ++ [EvKvPut _ _])) as [e|];
    cbn [kv trace].
  - eexists. split; [reflexivity|]. right. by exists data.
  - eexists. split; [reflexivity|]. right. exists data.
    split; [done|]. split; [done|]. cbn [kv].
    apply insert_id.
    destruct (decide (KvTokenStore.TOKEN_KEY_PREFIX +:+ u
                      = KvTokenStore.TOKEN_KEY_PREFIX +:+ c)) as [->|Hne].
    + by rewrite lookup_insert_eq.
    + by rewrite lookup_insert_ne.
Qed.

(** A namespace that fails on the second write of the step. *)
Example persistDualKey_second_write_fails :
  let E :=
    {| store :=
         {| KvTokenStore.kv_fault :=
              λ h, if decide (length h = 2)
                   then Some (JsError "KV PUT failed") else None;
            KvTokenStore.sdk_migrate := KvTokenStore.copying_migrate;
            KvTokenStore.sdk_generateKey := KvTokenStore.generateKey |};
       getConfig := getConfig example_env;
       parseRedirectApproval := parseRedirectApproval example_env;
       redirectToSchwab := redirectToSchwab example_env;
       decodeAndVerifyState := decodeAndVerifyState example_env;
       extractClientIdFromState := extractClientIdFromState example_env;
       initializeSchwabAuthClient := initializeSchwabAuthClient example_env;
       exchangeCode := exchangeCode example_env;
       createApiClient := createApiClient example_env;
       getUserPreference := getUserPreference example_env;
       completeAuthorization := completeAuthorization example_env;
       mapSchwabError := mapSchwabError example_env |} in
  let done := persistDualKey E "c1" "u1" pending_sys in
  done.1 = Ok () ∧
  kv done.2 !! "token:u1" = Some example_token ∧
  kv done.2 !! "token:c1" = Some example_token ∧
  trace done.2
  = [EvKvGet "token:c1"; EvKvPut "token:u1" example_token;
     EvKvPut "token:c1" example_token;
     EvLog LWarn "Token save failed, continuing with authorization"].
Proof. repeat split; vm_compute; reflexivity. Qed.


(** *** What the callback can answer *)

(** The outcomes of the exchange-and-identify block. *)
Lemma exchangeAndIdentify_outcomes E c code stateParam s r s' :
  exchangeAndIdentify E c code stateParam s = (r, s') →
  match r with
  | Ok (inl response) => response = RespJsonError NoUserId
  | Ok (inr userIdFromSchwab) => userIdFromSchwab ≠ ""
  | Throw e =>
      initializeSchwabAuthClient E (trace s) = Throw e ∨
      (initializeSchwabAuthClient E (trace s) = Ok () ∧
       (e = AuthErrorExn TokenExchange ∨ e = AuthErrorExn AuthCallback ∨
        e = AuthErrorExn NoUserId))
  end.
Proof.
  unfold exchangeAndIdentify.
  cbv [bind try_catch ext log throw ret fail_with].
  destruct (initializeSchwabAuthClient E (trace s)) as [[]|e0];
    [|intros [= <- <-]; by left].
  destruct (with_initial_ids E c (EvExchangeCode code stateParam) _ _)
    as [[[]|e1] s1]; [|intros [= <- <-]; right; eauto].
  destruct (createApiClient E _) as [[]|e2];
    [|intros [= <- <-]; right; eauto].
  destruct (with_initial_ids E c EvGetUserPreference _ _)
    as [[userId|e3] s2]; [|intros [= <- <-]; right; eauto 6].
  destruct userId as [[|ch u]|]; cbn; intros [= <- <-]; done.
Qed.

Lemma validateAndIdentify_outcomes E req s r s' :
  validateAndIdentify E req s = (r, s') →
  match r with
  | Ok (inl response) =>
      response = RespJsonError MissingParameters ∨
      response = RespJsonError InvalidState ∨
      response = RespJsonError NoUserId
  | Ok (inr (decoded, clientIdFromState, userIdFromSchwab)) =>
      userIdFromSchwab ≠ "" ∧
      to_boolean (query_state req) = true ∧
      to_boolean (query_code req) = true ∧
      to_boolean (clientId decoded) = true ∧
      to_boolean (redirectUri decoded) = true ∧
      to_boolean (scope decoded) = true ∧
      extractClientIdFromState E decoded = Ok clientIdFromState
  | Throw e => True
  end.
Proof.
  unfold validateAndIdentify, early.
  cbv [bind ext fail_with ret of_result].
  destruct (getConfig E (trace s)) as [config|e]; [|by intros [= <- <-]].
  destruct (to_boolean (query_state req)) eqn:Hst; cbn [negb orb];
    [|intros [= <- <-]; by left].
  destruct (to_boolean (query_code req)) eqn:Hcode; cbn [negb orb];
    [|intros [= <- <-]; by left].
  destruct (decodeAndVerifyState E _ _) as [[decoded|]|e];
    [|intros [= <- <-]; by right; left|by intros [= <- <-]].
  destruct (extractClientIdFromState E decoded) as [c|e] eqn:Hc;
    [|by intros [= <- <-]].
  destruct (to_boolean (clientId decoded)) eqn:H1; cbn [negb orb];
    [|intros [= <- <-]; by right; left].
  destruct (to_boolean (redirectUri decoded)) eqn:H2; cbn [negb orb];
    [|intros [= <- <-]; by right; left].
  destruct (to_boolean (scope decoded)) eqn:H3; cbn [negb orb];
    [|intros [= <- <-]; by right; left].
  destruct (exchangeAndIdentify E c _ _ _) as [r1 s1] eqn:Hex.
  apply exchangeAndIdentify_outcomes in Hex.
  destruct r1 as [[response|u]|e]; intros [= <- <-].
  - by right; right.
  - done.
  - done.
Qed.

(** X5.  When the callback gets as far as persistence and completion, the
    Schwab user id it carries is not empty, both query parameters were
    present, the decoded state has a client id, a redirect URI and a scope,
    and the client id in use is the one [extractClientIdFromState] gave. *)
Theorem validateAndIdentify_yields_checked_ids (E : Env)
    (req : CallbackRequest) (s s1 : Sys) (decoded : AuthRequest)
    (clientIdFromState userIdFromSchwab : string) :
  validateAndIdentify E req s
    = (Ok (inr (decoded, clientIdFromState, userIdFromSchwab)), s1) →
  userIdFromSchwab ≠ "" ∧
  to_boolean (query_state req) = true ∧
  to_boolean (query_code req) = true ∧
  to_boolean (clientId decoded) = true ∧
  to_boolean (redirectUri decoded) = true ∧
  to_boolean (scope decoded) = true ∧
  extractClientIdFromState E decoded = Ok clientIdFromState.
Proof. intros H. by apply validateAndIdentify_outcomes in H. Qed.

Lemma validateAndIdentify_yields_checked_ids_witness :
  validateAndIdentify forgetful_env example_callback stale_sys
    = (Ok (inr (example_request, "c1", "u1")), after_identify) ∧
  "u1" ≠ "" ∧
  to_boolean (query_state example_callback) = true ∧
  to_boolean (query_code example_callback) = true ∧
  to_boolean (clientId example_request) = true ∧
  to_boolean (redirectUri example_request) = true ∧
  to_boolean (scope example_request) = true ∧
  extractClientIdFromState forgetful_env example_request = Ok "c1".
Proof.
  assert (H1 : validateAndIdentify forgetful_env example_callback stale_sys
               = (Ok (inr (example_request, "c1", "u1")), after_identify))
    by (vm_compute; reflexivity).
  split; [assumption|].
  exact (validateAndIdentify_yields_checked_ids forgetful_env example_callback
           stale_sys after_identify example_request "c1" "u1" H1).
Defined.

Lemma classify_cases E e :
  classify E e = AuthCallback ∨ classify E e = ApiResponse ∨
  ∃ code message status, classify E e = mapSchwabError E code message status.
Proof. destruct e; cbn; eauto 6. Qed.

(** X6.  The callback endpoint never throws: it always answers.  The answer
    is the redirect obtained from [completeAuthorization], or a JSON error
    whose class is [MissingParameters], [InvalidState], [NoUserId],
    [AuthCallback], [ApiResponse], or whatever [mapSchwabError] maps an SDK
    authentication error to. *)
Theorem callback_answers (E : Env) (req : CallbackRequest) (s : Sys) :
  ∃ response s',
    callback E req s = (Ok response, s') ∧
    ((∃ target, response = RespRedirect target) ∨
     (∃ error,
        response = RespJsonError error ∧
        (error ∈ [MissingParameters; InvalidState; NoUserId;
                  AuthCallback; ApiResponse] ∨
         ∃ code message status,
           error = mapSchwabError E code message status))).
Proof.
  assert (Hcatch : ∀ e s1, ∃ response s',
            fail_with (classify E e) s1 = (Ok response, s') ∧
            ((∃ target, response = RespRedirect target) ∨
             (∃ error,
                response = RespJsonError error ∧
                (error ∈ [MissingParameters; InvalidState; NoUserId;
                          AuthCallback; ApiResponse] ∨
                 ∃ code message status,
                   error = mapSchwabError E code message status)))).
  { intros e s1. eexists _, _. split; [reflexivity|]. right.
    exists (classify E e). split; [done|].
    destruct (classify_cases E e) as [-> | [-> | ?]]; [left|left|by right];
      set_solver. }
  unfold callback, try_catch. unfold bind at 1.
  destruct (validateAndIdentify E req s) as [r s1] eqn:Hpre.
  apply validateAndIdentify_outcomes in Hpre.
  destruct r as [[response|[[decoded c] u]]|e]; [| |by apply Hcatch].
  - eexists _, _. split; [reflexivity|]. right.
    destruct Hpre as [-> | [-> | ->]]; eexists; (split; [reflexivity|]);
      left; set_solver.
  - destruct (persistDualKey_returns E c u s1) as (s2 & Hstep).
    unfold bind at 1. rewrite Hstep.
    unfold completeFlow. cbv [bind ext ret].
    destruct (completeAuthorization E _ decoded u c) as [target|e];
      [|by apply Hcatch].
    eexists _, _. split; [reflexivity|]. left. by eexists.
Qed.


(** An SDK whose code exchange is refused by Schwab. *)
Definition refusing_env : Env :=
  {| store := store example_env; getConfig := getConfig example_env;
     parseRedirectApproval := parseRedirectApproval example_env;
     redirectToSchwab := redirectToSchwab example_env;
     decodeAndVerifyState := decodeAndVerifyState example_env;
     extractClientIdFromState := extractClientIdFromState example_env;
     initializeSchwabAuthClient := initializeSchwabAuthClient example_env;
     exchangeCode :=
       λ _ _ _, TmRet (Throw (SchwabAuthError "INVALID_CODE"
                                "authorization code expired" 400));
     createApiClient := createApiClient example_env;
     getUserPreference := getUserPreference example_env;
     completeAuthorization := completeAuthorization example_env;
     mapSchwabError := λ _ _ _, TokenExchange |}.

(** X7.  Once the auth client is built, the exchange-and-identify block of
    the callback ends in one of three ways.  A failure of the code
    exchange, of the construction of the API client or of the
    user-preference lookup is caught where it happens and rethrown as an
    [AuthErrors] instance ([TokenExchange], [AuthCallback], [NoUserId]); the
    outer [catch] of the callback answers every one of them with the
    [AuthCallback] error, so what the SDK threw never reaches the SDK error
    mapping.  A lookup that returns without a user id is not thrown: it is
    answered on the spot with the [NoUserId] error.  Otherwise the block
    yields a user id that is not empty. *)
Theorem wrapped_failures_answer_AuthCallback (E : Env)
    (c code stateParam : string) (s s' : Sys)
    (r : result (Response + string)) :
  initializeSchwabAuthClient E (trace s) = Ok () →
  exchangeAndIdentify E c code stateParam s = (r, s') →
  match r with
  | Throw e =>
      (e = AuthErrorExn TokenExchange ∨ e = AuthErrorExn AuthCallback ∨
       e = AuthErrorExn NoUserId) ∧
      fail_with (classify E e) s'
      = (Ok (RespJsonError AuthCallback),
         emit (EvLogAuthError LError AuthCallback) s')
  | Ok (inl response) =>
      response = RespJsonError NoUserId ∧
      last (trace s') = Some (EvLogAuthError LError NoUserId)
  | Ok (inr userIdFromSchwab) => userIdFromSchwab ≠ ""
  end.
Proof.
  intros Hinit. unfold exchangeAndIdentify.
  cbv [bind try_catch ext log throw ret fail_with]. rewrite Hinit.
  destruct (with_initial_ids E c (EvExchangeCode code stateParam) _ _)
    as [[[]|e1] s1]; [|intros [= <- <-]; split; [by left | done]].
  destruct (createApiClient E _) as [[]|e2];
    [|intros [= <- <-]; split; [by right; left | done]].
  destruct (with_initial_ids E c EvGetUserPreference _ _)
    as [[userId|e3] s2]; [|intros [= <- <-]; split; [by right; right | done]].
  destruct userId as [[|ch u]|]; cbn; intros [= <- <-];
    first [done | split; [done|]; cbn; by rewrite last_snoc].
Qed.

Lemma wrapped_failures_answer_AuthCallback_witness :
  let s' := (exchangeAndIdentify refusing_env "c1" "cd" "st"
               KvTokenStore.empty_sys).2 in
  initializeSchwabAuthClient refusing_env (trace KvTokenStore.empty_sys)
    = Ok () ∧
  exchangeAndIdentify refusing_env "c1" "cd" "st" KvTokenStore.empty_sys
    = (Throw (AuthErrorExn TokenExchange), s') ∧
  (AuthErrorExn TokenExchange = AuthErrorExn TokenExchange ∨
   AuthErrorExn TokenExchange = AuthErrorExn AuthCallback ∨
   AuthErrorExn TokenExchange = AuthErrorExn NoUserId) ∧
  fail_with (classify refusing_env (AuthErrorExn TokenExchange)) s'
  = (Ok (RespJsonError AuthCallback),
     emit (EvLogAuthError LError AuthCallback) s').
Proof.
  intros s'.
  assert (H1 : initializeSchwabAuthClient refusing_env
                 (trace KvTokenStore.empty_sys) = Ok ()) by reflexivity.
  assert (H2 : exchangeAndIdentify refusing_env "c1" "cd" "st"
                 KvTokenStore.empty_sys
               = (Throw (AuthErrorExn TokenExchange), s'))
    by (vm_compute; reflexivity).
  split; [assumption|]. split; [assumption|].
  exact (wrapped_failures_answer_AuthCallback refusing_env "c1" "cd" "st"
           KvTokenStore.empty_sys s' (Throw (AuthErrorExn TokenExchange))
           H1 H2).
Defined.

(** A world like [example_env] whose user-preference lookup returns
    without a user id. *)
Definition anonymous_env : Env :=
  {| store := store example_env; getConfig := getConfig example_env;
     parseRedirectApproval := parseRedirectApproval example_env;
     redirectToSchwab := redirectToSchwab example_env;
     decodeAndVerifyState := decodeAndVerifyState example_env;
     extractClientIdFromState := extractClientIdFromState example_env;
     initializeSchwabAuthClient := initializeSchwabAuthClient example_env;
     exchangeCode := exchangeCode example_env;
     createApiClient := createApiClient example_env;
     getUserPreference := λ _, TmRet (Ok None);
     completeAuthorization := completeAuthorization example_env;
     mapSchwabError := mapSchwabError example_env |}.

(** The whole callback when the lookup returns without a user id: the
    answer is the [NoUserId] error, given inside the [try] block. *)
Example callback_without_user_id :
  (callback anonymous_env example_callback KvTokenStore.empty_sys).1
  = Ok (RespJsonError NoUserId).
Proof. vm_compute. reflexivity. Qed.

(** The whole callback when Schwab refuses the code: the answer is the
    [AuthCallback] error although the error mapping would say
    [TokenExchange]; no API client is built and nothing is completed. *)
Example callback_exchange_refused :
  let done := callback refusing_env example_callback KvTokenStore.empty_sys in
  done.1 = Ok (RespJsonError AuthCallback) ∧
  trace done.2
  = [EvGetConfig; EvDecodeAndVerifyState "st"; EvInitializeSchwabAuthClient;
     EvLog LInfo "Exchanging authorization code for tokens";
     EvExchangeCode "cd" "st"; EvLog LError "Token exchange failed";
     EvLogAuthError LError AuthCallback].
Proof. split; vm_compute; reflexivity. Qed.

(** X8.  A callback that carries both query parameters and whose [state]
    is not accepted is answered before anything else happens: the history
    grows by the reading of the configuration, the decoding of the state
    and one error log; the auth client is not built, no code is exchanged,
    the namespace is neither read nor written, and nothing is completed.
    The answer depends on where the state fails.  If it does not decode,
    the answer is [InvalidState].  If it decodes and
    [extractClientIdFromState] returns a client id, but the request has no
    client id, no redirect URI or no scope, the answer is [InvalidState].
    If [extractClientIdFromState] throws, which by the comment at lines
    186-187 is how the presence of a client id is validated, the exception
    goes to the outer [catch], and the answer is the class that [catch]
    gives it: [AuthCallback] for anything that is not an SDK error, and not
    [InvalidState]. *)
Theorem callback_invalid_state (E : Env) (req : CallbackRequest) (s : Sys)
    (config : ValidatedEnv) (decoded : option AuthRequest) :
  getConfig E (trace s) = Ok config →
  to_boolean (query_state req) = true →
  to_boolean (query_code req) = true →
  decodeAndVerifyState E (trace s ++ [EvGetConfig])
    (default "" (query_state req)) = Ok decoded →
  let answers (error : AuthError) :=
    callback E req s
    = (Ok (RespJsonError error),
       {| kv := kv s;
          trace := trace s
                   ++ [EvGetConfig;
                       EvDecodeAndVerifyState (default "" (query_state req));
                       EvLogAuthError LError error] |}) in
  match decoded with
  | None => answers InvalidState
  | Some request =>
      match extractClientIdFromState E request with
      | Throw e => answers (classify E e)
      | Ok clientIdFromState =>
          to_boolean (clientId request) = false ∨
          to_boolean (redirectUri request) = false ∨
          to_boolean (scope request) = false →
          answers InvalidState
      end
  end.
Proof.
  intros Hcfg Hst Hcode Hdec answers. subst answers.
  unfold callback, validateAndIdentify, early, fail_with. run_monad.
  rewrite Hcfg, Hst, Hcode. cbn [negb orb kv trace]. rewrite Hdec.
  destruct decoded as [request|]; [|cbn [kv trace]; by norm_trace].
  destruct (extractClientIdFromState E request) as [c|e];
    [|cbn [kv trace]; by norm_trace].
  intros Hfield.
  assert (negb (to_boolean (clientId request))
          || negb (to_boolean (redirectUri request))
          || negb (to_boolean (scope request)) = true) as ->.
  { destruct Hfield as [-> | [-> | ->]]; cbn;
      rewrite ?orb_true_r; reflexivity. }
  cbn [kv trace]. by norm_trace.
Qed.

(** A world like [example_env] in which the state decodes to [request]. *)
Definition decoding_to (request : AuthRequest) : Env :=
  {| store := store example_env; getConfig := getConfig example_env;
     parseRedirectApproval := parseRedirectApproval example_env;
     redirectToSchwab := redirectToSchwab example_env;
     decodeAndVerifyState := λ _ _, Ok (Some request);
     extractClientIdFromState := extractClientIdFromState example_env;
     initializeSchwabAuthClient := initializeSchwabAuthClient example_env;
     exchangeCode := exchangeCode example_env;
     createApiClient := createApiClient example_env;
     getUserPreference := getUserPreference example_env;
     completeAuthorization := completeAuthorization example_env;
     mapSchwabError := mapSchwabError example_env |}.

Lemma callback_invalid_state_witness :
  let E := decoding_to request_without_redirectUri in
  getConfig E (trace KvTokenStore.empty_sys) = Ok example_config ∧
  to_boolean (query_state example_callback) = true ∧
  to_boolean (query_code example_callback) = true ∧
  decodeAndVerifyState E (trace KvTokenStore.empty_sys ++ [EvGetConfig])
    (default "" (query_state example_callback))
    = Ok (Some request_without_redirectUri) ∧
  extractClientIdFromState E request_without_redirectUri = Ok "c1" ∧
  to_boolean (redirectUri request_without_redirectUri) = false ∧
  callback E example_callback KvTokenStore.empty_sys
  = (Ok (RespJsonError InvalidState),
     {| kv := kv KvTokenStore.empty_sys;
        trace := trace KvTokenStore.empty_sys
                 ++ [EvGetConfig;
                     EvDecodeAndVerifyState
                       (default "" (query_state example_callback));
                     EvLogAuthError LError InvalidState] |}).
Proof.
  intros E.
  assert (H1 : getConfig E (trace KvTokenStore.empty_sys) = Ok example_config)
    by reflexivity.
  assert (H2 : to_boolean (query_state example_callback) = true)
    by reflexivity.
  assert (H3 : to_boolean (query_code example_callback) = true)
    by reflexivity.
  assert (H4 : decodeAndVerifyState E
                 (trace KvTokenStore.empty_sys ++ [EvGetConfig])
                 (default "" (query_state example_callback))
               = Ok (Some request_without_redirectUri)) by reflexivity.
  assert (H5 : extractClientIdFromState E request_without_redirectUri
               = Ok "c1") by reflexivity.
  assert (H6 : to_boolean (redirectUri request_without_redirectUri) = false)
    by reflexivity.
  split; [assumption|]. split; [assumption|]. split; [assumption|].
  split; [assumption|]. split; [assumption|]. split; [assumption|].
  exact (callback_invalid_state E example_callback KvTokenStore.empty_sys
           example_config (Some request_without_redirectUri) H1 H2 H3 H4
           (or_intror (or_introl H6))).
Defined.

(** A state that decodes to a request without a client id: the client-id
    extraction throws, and the answer is [AuthCallback]. *)
Definition request_without_clientId : AuthRequest :=
  {| clientId := None;
     redirectUri := Some "https://client.example/cb";
     scope := Some ["api"] |}.

Example callback_state_without_client_id :
  callback (decoding_to request_without_clientId) example_callback
    KvTokenStore.empty_sys
  = (Ok (RespJsonError AuthCallback),
     {| kv := ∅;
        trace := [EvGetConfig; EvDecodeAndVerifyState "st";
                  EvLogAuthError LError AuthCallback] |}).
Proof. vm_compute. reflexivity. Qed.

(** X9.  Persistence is best effort for the whole callback: whenever the
    handler has identified the user, and whatever the namespace does during
    the write under both keys, [completeAuthorization] is called with the
    user id and the client id, and the answer is the redirect to its target
    when it returns one. *)
Theorem callback_always_completes (E : Env) (req : CallbackRequest)
    (s s1 : Sys) (decoded : AuthRequest) (c u : string) :
  validateAndIdentify E req s = (Ok (inr (decoded, c, u)), s1) →
  ∃ s2,
    persistDualKey E c u s1 = (Ok (), s2) ∧
    callback E req s
      = try_catch (completeFlow E decoded c u)
          (λ error, fail_with (classify E error)) s2 ∧
    EvCompleteAuthorization u c ∈ trace (callback E req s).2 ∧
    ∀ target, completeAuthorization E (trace s2) decoded u c = Ok target →
              (callback E req s).1 = Ok (RespRedirect target).
Proof.
  intros Hpre.
  destruct (persistDualKey_returns E c u s1) as (s2 & Hstep).
  exists s2. split; [done|].
  assert (Hcb : callback E req s
                = try_catch (completeFlow E decoded c u)
                    (λ error, fail_with (classify E error)) s2).
  { unfold callback, try_catch at 1. unfold bind at 1. rewrite Hpre.
    unfold bind at 1. rewrite Hstep. reflexivity. }
  split; [done|]. rewrite Hcb. unfold completeFlow, fail_with. run_monad.
  destruct (completeAuthorization E _ decoded u c) as [target|e]; cbn.
  - split; [set_solver|]. by intros ? [= ->].
  - split; [set_solver|]. intros ? [=].
Qed.

Lemma callback_always_completes_witness :
  validateAndIdentify example_env example_callback KvTokenStore.empty_sys
    = (Ok (inr (example_request, "c1", "u1")),
       (validateAndIdentify example_env example_callback
          KvTokenStore.empty_sys).2) ∧
  ∃ s2,
    persistDualKey example_env "c1" "u1"
      (validateAndIdentify example_env example_callback
         KvTokenStore.empty_sys).2 = (Ok (), s2) ∧
    callback example_env example_callback KvTokenStore.empty_sys
      = try_catch (completeFlow example_env example_request "c1" "u1")
          (λ error, fail_with (classify example_env error)) s2 ∧
    EvCompleteAuthorization "u1" "c1"
      ∈ trace (callback example_env example_callback
                 KvTokenStore.empty_sys).2 ∧
    ∀ target,
      completeAuthorization example_env (trace s2) example_request "u1" "c1"
        = Ok target →
      (callback example_env example_callback KvTokenStore.empty_sys).1
        = Ok (RespRedirect target).
Proof.
  assert (H1 : validateAndIdentify example_env example_callback
                 KvTokenStore.empty_sys
               = (Ok (inr (example_request, "c1", "u1")),
                  (validateAndIdentify example_env example_callback
                     KvTokenStore.empty_sys).2))
    by (vm_compute; reflexivity).
  split; [assumption|].
  exact (callback_always_completes example_env example_callback
           KvTokenStore.empty_sys _ example_request "c1" "u1" H1).
Defined.

(** *** What the approval endpoint can answer *)


(** A world like [example_env] in which Schwab's authorization URL cannot
    be built: the promise of [redirectToSchwab] rejects. *)
Definition unredirectable_env : Env :=
  {| store := store example_env; getConfig := getConfig example_env;
     parseRedirectApproval := parseRedirectApproval example_env;
     redirectToSchwab := λ _ _, Throw (JsError "cannot build the URL");
     decodeAndVerifyState := decodeAndVerifyState example_env;
     extractClientIdFromState := extractClientIdFromState example_env;
     initializeSchwabAuthClient := initializeSchwabAuthClient example_env;
     exchangeCode := exchangeCode example_env;
     createApiClient := createApiClient example_env;
     getUserPreference := getUserPreference example_env;
     completeAuthorization := completeAuthorization example_env;
     mapSchwabError := mapSchwabError example_env |}.

(** The rejection leaves the endpoint, and nothing is logged. *)
Example post_authorize_rejection_escapes :
  post_authorize unredirectable_env KvTokenStore.empty_sys
  = (Throw (JsError "cannot build the URL"),
     {| kv := ∅;
        trace := [EvGetConfig; EvParseRedirectApproval;
                  EvRedirectToSchwab example_request] |}).
Proof. reflexivity. Qed.

End AuthHandler.

(* ===================================================================== *)
(** ** The OAuth entry point: [app.get('/authorize')] *)
(* ===================================================================== *)

Module AuthorizeEntry.
Import OAuthProvider.

(** What leaves the handler, in order.  The entry point neither reads nor
    writes the token records, so its state is this history alone. *)
Inductive call : Type :=
| CallGetConfig
| CallParseAuthRequest
| CallClientIdAlreadyApproved (clientId : string)
| CallRedirectToSchwab (oauthReqInfo : AuthRequest)
| CallLookupClient (clientId : string)
| CallRenderApprovalDialog (client : option json) (oauthReqInfo : AuthRequest)
| CallLogError (error : AuthError).

(** What the entry point answers: a JSON error or a redirect, as the other
    endpoints do, or the approval page that [renderApprovalDialog] built
    for a client and a state. *)
Inductive Answer : Type :=
| Plain (response : AuthHandler.Response)
| ApprovalDialog (client : option json) (oauthReqInfo : AuthRequest).

(** The collaborators of the entry point.  The handler returns the results
    of [redirectToSchwab] and of [renderApprovalDialog] without [await].
    [redirectToSchwab] is taken to be asynchronous, as in [AuthHandler]:
    its outcome is the settlement of its promise.  [renderApprovalDialog] (from
    [./ui/approvalDialog], not among the sources) may throw before it
    returns, or return a page or the promise of one: its outcome is the
    outcome of the call and, inside it, the settlement of what it
    returned. *)
Record Env : Type := {
  getConfig : list call → result ValidatedEnv;
  (** [OAUTH_PROVIDER.parseAuthRequest(c.req.raw)] *)
  parseAuthRequest : list call → result AuthRequest;
  (** [clientIdAlreadyApproved(request, clientId, cookieKey)] *)
  clientIdAlreadyApproved : list call → string → result bool;
  redirectToSchwab : list call → AuthRequest → result AuthHandler.Response;
  (** [OAUTH_PROVIDER.lookupClient(clientId)]: the registration, or [null] *)
  lookupClient : list call → string → result (option json);
  (** [renderApprovalDialog(request, { client, server, state, config })] *)
  renderApprovalDialog :
    list call → option json → AuthRequest → result (result ());
}.

Definition invoke {A} (c : call) (f : list call → result A)
    : M (list call) A :=
  λ h, (f h, h ++ [c]).

(** [oauthLogger.error(errorInfo.message)] then [return c.json(...)]. *)
Definition fail_with (error : AuthError) : M (list call) Answer :=
  λ h, (Ok (Plain (AuthHandler.RespJsonError error)), h ++ [CallLogError error]).

(** [return value] inside the [try] block, [value] being a response. *)
Definition answer (m : M (list call) Answer) : M (list call) (result Answer) :=
  let* a := m in ret (Ok a).

(** [app.get('/authorize')], lines 44-89.  The [try] block, or its
    [catch], yields what the handler returns: a response, or a promise that
    was not awaited.  The outcome of the handler is the settlement of that:
    a rejection of the promise is not seen by the [catch]. *)
Definition get_authorize (E : Env) : M (list call) Answer :=
  let* returned :=
    try_catch
      (let* config := invoke CallGetConfig (getConfig E) in
       let* oauthReqInfo := invoke CallParseAuthRequest (parseAuthRequest E) in
       if negb (to_boolean (clientId oauthReqInfo)) then
         answer (fail_with MissingClientId)
       else
         let clientId := default "" (clientId oauthReqInfo) in
         let* approved :=
           invoke (CallClientIdAlreadyApproved clientId)
                  (λ h, clientIdAlreadyApproved E h clientId) in
         if approved then
           let* promise :=
             invoke (CallRedirectToSchwab oauthReqInfo)
                    (λ h, Ok (redirectToSchwab E h oauthReqInfo)) in
           ret (match promise with
                | Ok response => Ok (Plain response)
                | Throw e => Throw e
                end)
         else
           let* clientInfo :=
             invoke (CallLookupClient clientId)
                    (λ h, lookupClient E h clientId) in
           let* page :=
             invoke (CallRenderApprovalDialog clientInfo oauthReqInfo)
                    (λ h, renderApprovalDialog E h clientInfo oauthReqInfo) in
           ret (match page with
                | Ok () => Ok (ApprovalDialog clientInfo oauthReqInfo)
                | Throw e => Throw e
                end))
      (λ error, answer (fail_with AuthRequestFailed)) in
  of_result returned.

(** A world in which client ["c1"] asks for authorization and has not been
    approved before. *)
Definition first_visit : Env :=
  {| getConfig := λ _, Ok AuthHandler.example_config;
     parseAuthRequest := λ _, Ok AuthHandler.example_request;
     clientIdAlreadyApproved := λ _ _, Ok false;
     redirectToSchwab :=
       λ _ _, Ok (AuthHandler.RespRedirect "https://schwab.example/oauth");
     lookupClient := λ _ _, Ok (Some (JObj [("clientName", JStr "Claude")]));
     renderApprovalDialog := λ _ _ _, Ok (Ok ()) |}.

(** The same client on a later visit, its approval remembered. *)
Definition later_visit : Env :=
  {| getConfig := getConfig first_visit;
     parseAuthRequest := parseAuthRequest first_visit;
     clientIdAlreadyApproved := λ _ _, Ok true;
     redirectToSchwab := redirectToSchwab first_visit;
     lookupClient := lookupClient first_visit;
     renderApprovalDialog := renderApprovalDialog first_visit |}.

(** A request that carries no client id. *)
Definition anonymous_visit : Env :=
  {| getConfig := getConfig first_visit;
     parseAuthRequest :=
       λ _, Ok {| clientId := None;
                  redirectUri := Some "https://client.example/cb";
                  scope := Some ["api"] |};
     clientIdAlreadyApproved := clientIdAlreadyApproved first_visit;
     redirectToSchwab := redirectToSchwab first_visit;
     lookupClient := lookupClient first_visit;
     renderApprovalDialog := renderApprovalDialog first_visit |}.


(** X12.  A request without a client id (undefined or empty) is answered
    with the [MissingClientId] error straight after it is parsed: the
    approval cookie is not checked, the client is not looked up, and
    neither the approval page nor the redirect to Schwab is produced. *)
Theorem get_authorize_missing_client_id (E : Env) (h : list call)
    (config : ValidatedEnv) (request : AuthRequest) :
  getConfig E h = Ok config →
  parseAuthRequest E (h ++ [CallGetConfig]) = Ok request →
  to_boolean (clientId request) = false →
  get_authorize E h
  = (Ok (Plain (AuthHandler.RespJsonError MissingClientId)),
     h ++ [CallGetConfig; CallParseAuthRequest; CallLogError MissingClientId]).
Proof.
  intros Hcfg Hparse Hmissing.
  unfold get_authorize, answer, fail_with.
  cbv [bind try_catch invoke ret of_result].
  rewrite Hcfg, Hparse, Hmissing. cbn [negb]. by norm_trace.
Qed.

Lemma get_authorize_missing_client_id_witness :
  getConfig anonymous_visit [] = Ok AuthHandler.example_config ∧
  parseAuthRequest anonymous_visit ([] ++ [CallGetConfig])
    = Ok {| clientId := None;
            redirectUri := Some "https://client.example/cb";
            scope := Some ["api"] |} ∧
  to_boolean (clientId {| clientId := None;
                          redirectUri := Some "https://client.example/cb";
                          scope := Some ["api"] |}) = false ∧
  get_authorize anonymous_visit []
  = (Ok (Plain (AuthHandler.RespJsonError MissingClientId)),
     [] ++ [CallGetConfig; CallParseAuthRequest;
            CallLogError MissingClientId]).
Proof.
  assert (H1 : getConfig anonymous_visit [] = Ok AuthHandler.example_config)
    by reflexivity.
  assert (H2 : parseAuthRequest anonymous_visit ([] ++ [CallGetConfig])
               = Ok {| clientId := None;
                       redirectUri := Some "https://client.example/cb";
                       scope := Some ["api"] |}) by reflexivity.
  assert (H3 : to_boolean
                 (clientId {| clientId := None;
                              redirectUri := Some "https://client.example/cb";
                              scope := Some ["api"] |}) = false)
    by reflexivity.
  split; [assumption|]. split; [assumption|]. split; [assumption|].
  exact (get_authorize_missing_client_id anonymous_visit [] _ _ H1 H2 H3).
Defined.


Example get_authorize_first_visit :
  get_authorize first_visit []
  = (Ok (ApprovalDialog (Some (JObj [("clientName", JStr "Claude")]))
           AuthHandler.example_request),
     [CallGetConfig; CallParseAuthRequest; CallClientIdAlreadyApproved "c1";
      CallLookupClient "c1";
      CallRenderApprovalDialog (Some (JObj [("clientName", JStr "Claude")]))
        AuthHandler.example_request]).
Proof. reflexivity. Qed.

Example get_authorize_later_visit :
  get_authorize later_visit []
  = (Ok (Plain (AuthHandler.RespRedirect "https://schwab.example/oauth")),
     [CallGetConfig; CallParseAuthRequest; CallClientIdAlreadyApproved "c1";
      CallRedirectToSchwab AuthHandler.example_request]).
Proof. reflexivity. Qed.

(** The approved client when Schwab's authorization URL cannot be built:
    the promise of [redirectToSchwab] rejects, the rejection leaves the
    entry point, and nothing is logged. *)
Example get_authorize_rejection_escapes :
  let E :=
    {| getConfig := getConfig later_visit;
       parseAuthRequest := parseAuthRequest later_visit;
       clientIdAlreadyApproved := clientIdAlreadyApproved later_visit;
       redirectToSchwab := λ _ _, Throw (JsError "cannot build the URL");
       lookupClient := lookupClient later_visit;
       renderApprovalDialog := renderApprovalDialog later_visit |} in
  get_authorize E []
  = (Throw (JsError "cannot build the URL"),
     [CallGetConfig; CallParseAuthRequest; CallClientIdAlreadyApproved "c1";
      CallRedirectToSchwab AuthHandler.example_request]).
Proof. reflexivity. Qed.

(** A [renderApprovalDialog] that throws before it returns is caught. *)
Example get_authorize_render_throws :
  let E :=
    {| getConfig := getConfig first_visit;
       parseAuthRequest := parseAuthRequest first_visit;
       clientIdAlreadyApproved := clientIdAlreadyApproved first_visit;
       redirectToSchwab := redirectToSchwab first_visit;
       lookupClient := lookupClient first_visit;
       renderApprovalDialog := λ _ _ _, Throw (JsError "no template") |} in
  (get_authorize E []).1
  = Ok (Plain (AuthHandler.RespJsonError AuthRequestFailed)).
Proof. reflexivity. Qed.

End AuthorizeEntry.

(* ===================================================================== *)
(** ** src/index.ts: the session actor *)
(* ===================================================================== *)

Module MyMCP.

(** [MyMCPProps] *)
Record MyMCPProps : Type := {
  schwabUserId : option string;
  clientId : option string;
}.

(** The fields of a [MyMCP] instance, the world it acts on, and the
    promises of [tokenManager.initialize()] that were started without being
    awaited and have not settled yet (each with the number of the call that
    started it and what the manager will do when it runs).  Instances of the
    token manager and of the API client are told apart by the length of the
    history at their creation. *)
Record Actor : Type := {
  sys : Sys;
  props : MyMCPProps;
  tokenManager : option object_ref;
  client : option object_ref;
  validatedConfig : option ValidatedEnv;
  pending : list (nat * tm_prog bool);
}.

(** Modelled from the spec: [TOOL_NAMES.STATUS] comes from
    [./shared/constants], which is not among the sources; the repository
    notes call the always-available tool "status". *)
Definition TOOL_NAMES_STATUS : string := "status".

(** The collaborators of the actor. *)
Record Env : Type := {
  store : KvTokenStore.Env;
  getConfig : list event → result ValidatedEnv;
  (** [this.server.tool(name, ...)] *)
  server_tool : list event → string → result ();
  initializeSchwabAuthClient : list event → result ();
  (** [tokenManager.initialize()] and [tokenManager.getAccessToken()] *)
  tm_initialize : list event → tm_prog bool;
  tm_getAccessToken : list event → tm_prog (option string);
  createApiClient : list event → result ();
  (** [allToolSpecs.forEach(spec => createTool(...))] *)
  registerTools : list event → result ();
  super_onSSE : list event → result ();
  (** the scheduler: how many of the pending promises, oldest first, settle
      while the actor is suspended at the [await] reached after this history *)
  settles : list event → nat;
}.

Definition with_sys (s : Sys) (a : Actor) : Actor :=
  {| sys := s; props := props a; tokenManager := tokenManager a;
     client := client a; validatedConfig := validatedConfig a;
     pending := pending a |}.

Definition with_props (p : MyMCPProps) (a : Actor) : Actor :=
  {| sys := sys a; props := p; tokenManager := tokenManager a;
     client := client a; validatedConfig := validatedConfig a;
     pending := pending a |}.

Definition with_tokenManager (t : option object_ref) (a : Actor) : Actor :=
  {| sys := sys a; props := props a; tokenManager := t;
     client := client a; validatedConfig := validatedConfig a;
     pending := pending a |}.

Definition with_client (c : option object_ref) (a : Actor) : Actor :=
  {| sys := sys a; props := props a; tokenManager := tokenManager a;
     client := c; validatedConfig := validatedConfig a;
     pending := pending a |}.

Definition with_validatedConfig (c : option ValidatedEnv) (a : Actor) : Actor :=
  {| sys := sys a; props := props a; tokenManager := tokenManager a;
     client := client a; validatedConfig := c; pending := pending a |}.

Definition with_pending (q : list (nat * tm_prog bool)) (a : Actor) : Actor :=
  {| sys := sys a; props := props a; tokenManager := tokenManager a;
     client := client a; validatedConfig := validatedConfig a;
     pending := q |}.

(** Run a computation on the world the actor lives in. *)
Definition lift {A} (m : M Sys A) : M Actor A :=
  λ a, let '(r, s') := m (sys a) in (r, with_sys s' a).

Definition get : M Actor Actor := λ a, (Ok a, a).
Definition modify (f : Actor → Actor) : M Actor () := λ a, (Ok (), f a).

(** [getTokenIds], lines 88-91: reads [this.props] when it is called. *)
Definition getTokenIds : M Actor SchwabApi.TokenIdentifiers :=
  λ a, (Ok {| SchwabApi.schwabUserId := schwabUserId (props a);
              SchwabApi.clientId := clientId (props a) |}, a).

(** [saveTokenForETM], lines 106-111.  Calls of the logger at level [debug]
    are not recorded; what their arguments evaluate is. *)
Definition saveTokenForETM (E : Env) (tokenSet : json) : M Actor () :=
  let* ids := getTokenIds in
  lift (KvTokenStore.save (store E) ids tokenSet) >>>
  let* ids' := getTokenIds in
  let* _keyPrefix := of_result (KvTokenStore.kvKey ids') in
  ret ().

(** [loadTokenForETM], lines 114-127. *)
Definition loadTokenForETM (E : Env) : M Actor (option json) :=
  let* tokenIds := getTokenIds in
  let* _expectedKeyPrefix := of_result (KvTokenStore.kvKey tokenIds) in
  let* tokenData := lift (KvTokenStore.load (store E) tokenIds) in
  let* _keyPrefix := of_result (KvTokenStore.kvKey tokenIds) in
  ret tokenData.

(** The promises that settle while the actor is suspended: each runs what
    the manager does on [initialize()], through the closures; nobody looks
    at its outcome, not even at a rejection.  The store accesses of a
    promise are recorded where it settles. *)
Fixpoint settle_each (E : Env) (q : list (nat * tm_prog bool)) : M Actor () :=
  match q with
  | [] => ret ()
  | (promise, prog) :: q' =>
      λ a, let '(_, a') :=
             run_tm (loadTokenForETM E) (saveTokenForETM E) prog a in
           settle_each E q'
             (with_sys (emit (EvTmInitializeSettled promise) (sys a')) a')
  end.

Definition settle (E : Env) : M Actor () :=
  λ a, let n := settles E (trace (sys a)) in
       settle_each E (take n (pending a)) (with_pending (drop n (pending a)) a).

(** [await m]: [m] runs to its outcome; before the caller resumes, promises
    started earlier may settle. *)
Definition await {A} (E : Env) (m : M Actor A) : M Actor A :=
  λ a, let '(r, a1) := m a in
       let '(_, a2) := settle E a1 in
       (r, a2).

(** [this.tokenManager.initialize()] without [await], line 166: the call is
    issued and its promise is kept; [init] goes on. *)
Definition initialize_detached (E : Env) : M Actor () :=
  λ a, let promise := length (trace (sys a)) in
       (Ok (),
        with_pending (pending a ++ [(promise, tm_initialize E (trace (sys a)))])
          (with_sys (emit (EvTmInitializeCalled promise) (sys a)) a)).

(** [await this.tokenManager.initialize()], line 266. *)
Definition initialize_awaited (E : Env) : M Actor bool :=
  await E
    (λ a, let promise := length (trace (sys a)) in
          let '(r, a') :=
            run_tm (loadTokenForETM E) (saveTokenForETM E)
              (tm_initialize E (trace (sys a)))
              (with_sys (emit (EvTmInitializeCalled promise) (sys a)) a) in
          (r, with_sys (emit (EvTmInitializeSettled promise) (sys a')) a')).

(** [await this.tokenManager.getAccessToken()], line 246. *)
Definition getAccessToken (E : Env) : M Actor (option string) :=
  await E
    (λ a, run_tm (loadTokenForETM E) (saveTokenForETM E)
            (tm_getAccessToken E (trace (sys a)))
            (with_sys (emit EvTmGetAccessToken (sys a)) a)).

(** Lines 83-86. *)
Definition backfillClientId (config : ValidatedEnv) : M Actor () :=
  modify (λ a,
    if negb (to_boolean (clientId (props a))) then
      with_props {| schwabUserId := schwabUserId (props a);
                    clientId := Some (SCHWAB_CLIENT_ID config) |} a
    else a).

(** Lines 139-144: the token manager is built and handed the two closures. *)
Definition createTokenManager (E : Env) : M Actor () :=
  lift (ext EvInitializeSchwabAuthClient (initializeSchwabAuthClient E)) >>>
  modify (λ a, with_tokenManager (Some (ObjectRef (length (trace (sys a))))) a).

(** The [try] block of [init], lines 54-219. *)
Definition init_body (E : Env) : M Actor () :=
  lift (ext (EvServerTool TOOL_NAMES_STATUS)
            (λ h, server_tool E h TOOL_NAMES_STATUS)) >>>
  let* config := lift (ext EvGetConfig (getConfig E)) in
  modify (with_validatedConfig (Some config)) >>>
  backfillClientId config >>>
  let* ids := getTokenIds in
  let* _expectedKeyPrefix := of_result (KvTokenStore.kvKey ids) in
  let* a := get in
  (if negb (to_boolean (tokenManager a)) then createTokenManager E
   else ret ()) >>>
  initialize_detached E >>>
  let* a := get in
  (if to_boolean (schwabUserId (props a)) && to_boolean (clientId (props a))
   then
     await E
       (lift (KvTokenStore.migrateIfNeeded (store E)
                (SchwabApi.byClientId (default "" (clientId (props a))))
                (SchwabApi.byUserId (default "" (schwabUserId (props a))))))
   else ret ()) >>>
  lift (ext EvCreateApiClient (createApiClient E)) >>>
  modify (λ a, with_client (Some (ObjectRef (length (trace (sys a))))) a) >>>
  lift (ext EvRegisterTools (registerTools E)).

(** [init], lines 52-230: whatever the block throws is logged and thrown
    again. *)
Definition init (E : Env) : M Actor () :=
  try_catch (init_body E)
    (λ error,
       lift (log LError "[MyMCP.init] FINAL CATCH: UNHANDLED EXCEPTION in init()")
       >>> throw error).

(** Tier 1, lines 244-260. *)
Definition probe (E : Env) : M Actor bool :=
  try_catch
    (lift (log LInfo "Attempting to fetch access token as recovery test") >>>
     let* token := getAccessToken E in
     if to_boolean token then
       lift (log LInfo "Successfully retrieved access token during reconnection")
       >>> ret true
     else ret false)
    (λ tokenError,
       lift (log LWarn "Failed to get access token during reconnection") >>>
       ret false).

(** Tier 2, lines 262-278. *)
Definition reload (E : Env) : M Actor bool :=
  try_catch
    (lift (log LInfo "Attempting proactive reinitialization of token manager")
     >>>
     let* initResult := initialize_awaited E in
     lift (log LInfo (if initResult
                      then "Token manager reinitialization succeeded"
                      else "Token manager reinitialization failed")) >>>
     ret initResult)
    (λ initError,
       lift (log LWarn "Token manager reinitialization failed") >>>
       ret false).

(** The [try] block of [onReconnect], lines 235-300. *)
Definition recover (E : Env) : M Actor bool :=
  let* a := get in
  if negb (to_boolean (tokenManager a)) then
    lift (log LWarn
            "Token manager not initialized, attempting full initialization") >>>
    await E (init E) >>>
    ret true
  else
    lift (log LInfo "Attempting reconnection via token manager") >>>
    let* alive := probe E in
    if alive then ret true
    else
      let* reloaded := reload E in
      if reloaded then ret true
      else
        lift (log LInfo "Token manager state during reconnection") >>>
        lift (log LWarn
                "Reconnection recovery attempts failed, performing full reinitialization")
        >>>
        await E (init E) >>>
        ret true.

(** The [catch] block of [onReconnect], lines 301-322. *)
Definition emergency (E : Env) (error : exn) : M Actor bool :=
  lift (log LError "Critical error during reconnection handling") >>>
  try_catch
    (lift (log LWarn
             "Attempting emergency reinitialization after reconnection failure")
     >>>
     await E (init E) >>>
     ret true)
    (λ initError,
       lift (log LError "Emergency reinitialization also failed") >>>
       ret false).

(** [onReconnect], lines 232-323. *)
Definition onReconnect (E : Env) : M Actor bool :=
  lift (log LInfo "Handling reconnection in MyMCP instance") >>>
  try_catch (recover E) (emergency E).

(** [onSSE], lines 325-329. *)
Definition onSSE (E : Env) : M Actor () :=
  lift (log LInfo "SSE connection established or reconnected") >>>
  await E (onReconnect E) >>>
  await E (lift (ext EvSuperOnSSE (super_onSSE E))).

(** *** Which fields and which events a computation can touch *)

(** The references the actor holds are the same in [a] and [a']. *)
Definition same_refs (a a' : Actor) : Prop :=
  props a' = props a ∧ tokenManager a' = tokenManager a ∧
  client a' = client a ∧ validatedConfig a' = validatedConfig a.

(** The history of [a'] is that of [a] followed by events that satisfy [P]. *)
Definition extends_by (P : event → Prop) (s s' : Sys) : Prop :=
  ∃ evs, trace s' = trace s ++ evs ∧ Forall P evs.

(** [m] touches none of the actor's references and issues only [P]-events. *)
Definition quiet (P : event → Prop) {A} (m : M Actor A) : Prop :=
  ∀ a r a', m a = (r, a') → same_refs a a' ∧ extends_by P (sys a) (sys a').

Definition sys_quiet (P : event → Prop) {A} (m : M Sys A) : Prop :=
  ∀ s r s', m s = (r, s') → extends_by P s s'.

Lemma same_refs_refl a : same_refs a a.
Proof. by repeat split. Qed.

Lemma same_refs_trans a b c : same_refs a b → same_refs b c → same_refs a c.
Proof.
  intros (?&?&?&?) (?&?&?&?). repeat split; congruence.
Qed.

Lemma extends_by_refl P s : extends_by P s s.
Proof. exists []. split; [by rewrite app_nil_r | constructor]. Qed.

Lemma extends_by_trans P s1 s2 s3 :
  extends_by P s1 s2 → extends_by P s2 s3 → extends_by P s1 s3.
Proof.
  intros (e1 & H1 & F1) (e2 & H2 & F2). exists (e1 ++ e2). split.
  - by rewrite H2, H1, app_assoc.
  - by apply Forall_app.
Qed.

Lemma extends_by_emit P e s : P e → extends_by P s (emit e s).
Proof. intros. exists [e]. split; [done | by constructor]. Qed.

Lemma with_sys_idem s s' a : with_sys s' (with_sys s a) = with_sys s' a.
Proof. done. Qed.

Lemma sys_with_sys s a : sys (with_sys s a) = s.
Proof. done. Qed.

Lemma same_refs_with_sys s a : same_refs a (with_sys s a).
Proof. by repeat split. Qed.

Lemma same_refs_with_pending q a : same_refs a (with_pending q a).
Proof. by repeat split. Qed.

Lemma quiet_ret P {A} (x : A) : quiet P (ret x).
Proof.
  intros a r a' [= <- <-]. split; [apply same_refs_refl | apply extends_by_refl].
Qed.

Lemma quiet_throw P {A} e : quiet P (throw (A := A) e).
Proof.
  intros a r a' [= <- <-]. split; [apply same_refs_refl | apply extends_by_refl].
Qed.

Lemma quiet_of_result P {A} (x : result A) : quiet P (of_result x).
Proof.
  intros a r a' [= <- <-]. split; [apply same_refs_refl | apply extends_by_refl].
Qed.

Lemma quiet_bind P {A B} (m : M Actor A) (k : A → M Actor B) :
  quiet P m → (∀ x, quiet P (k x)) → quiet P (bind m k).
Proof.
  intros Hm Hk a r a'. unfold bind.
  destruct (m a) as [[x|e] a1] eqn:Hrun.
  - intros Hrun'. destruct (Hm _ _ _ Hrun), (Hk _ _ _ _ Hrun').
    eauto using same_refs_trans, extends_by_trans.
  - intros [= <- <-]. by apply Hm in Hrun.
Qed.

Lemma quiet_try_catch P {A} (m : M Actor A) (h : exn → M Actor A) :
  quiet P m → (∀ e, quiet P (h e)) → quiet P (try_catch m h).
Proof.
  intros Hm Hh a r a'. unfold try_catch.
  destruct (m a) as [[x|e] a1] eqn:Hrun.
  - intros [= <- <-]. by apply Hm in Hrun.
  - intros Hrun'. destruct (Hm _ _ _ Hrun), (Hh _ _ _ _ Hrun').
    eauto using same_refs_trans, extends_by_trans.
Qed.

Lemma quiet_lift P {A} (m : M Sys A) : sys_quiet P m → quiet P (lift m).
Proof.
  intros Hm a r a'. unfold lift.
  destruct (m (sys a)) as [r1 s1] eqn:Hrun. intros [= <- <-].
  split; [apply same_refs_with_sys | by apply Hm in Hrun].
Qed.

Lemma quiet_getTokenIds P : quiet P getTokenIds.
Proof.
  intros a r a' [= <- <-]. split; [apply same_refs_refl | apply extends_by_refl].
Qed.

Lemma sys_quiet_log P lvl msg : P (EvLog lvl msg) → sys_quiet P (log lvl msg).
Proof. intros HP s r s' [= <- <-]. by apply extends_by_emit. Qed.

Lemma sys_quiet_load (P : event → Prop) E ids :
  (∀ key, P (EvKvGet key)) → sys_quiet P (KvTokenStore.load E ids).
Proof.
  intros HP s r s'. unfold KvTokenStore.load, KvTokenStore.kv_get. run_monad.
  destruct (KvTokenStore.generateKey ids) as [key|e].
  - destruct (KvTokenStore.kv_fault E (trace s));
      intros [= <- <-]; by apply extends_by_emit.
  - intros [= <- <-]. apply extends_by_refl.
Qed.

Lemma sys_quiet_save (P : event → Prop) E ids data :
  (∀ key value, P (EvKvPut key value)) →
  sys_quiet P (KvTokenStore.save E ids data).
Proof.
  intros HP s r s'. unfold KvTokenStore.save, KvTokenStore.kv_put. run_monad.
  destruct (KvTokenStore.generateKey ids) as [key|e].
  - destruct (KvTokenStore.kv_fault E (trace s)); intros [= <- <-].
    + by apply extends_by_emit.
    + exists [EvKvPut key data]. split; [done | by constructor].
  - intros [= <- <-]. apply extends_by_refl.
Qed.

Lemma quiet_loadTokenForETM (P : event → Prop) E :
  (∀ key, P (EvKvGet key)) → quiet P (loadTokenForETM E).
Proof.
  intros HP. unfold loadTokenForETM.
  repeat first
    [ apply quiet_bind; [|intros ?]
    | apply quiet_getTokenIds | apply quiet_of_result | apply quiet_ret
    | apply quiet_lift, sys_quiet_load, HP ].
Qed.

Lemma quiet_saveTokenForETM (P : event → Prop) E tokenSet :
  (∀ key value, P (EvKvPut key value)) → quiet P (saveTokenForETM E tokenSet).
Proof.
  intros HP. unfold saveTokenForETM.
  repeat first
    [ apply quiet_bind; [|intros ?]
    | apply quiet_getTokenIds | apply quiet_of_result | apply quiet_ret
    | apply quiet_lift, sys_quiet_save, HP ].
Qed.

(** Whatever the token manager does, it does through the closures. *)
Lemma quiet_run_tm P {A} (load : M Actor (option json))
    (save : json → M Actor ()) (p : tm_prog A) :
  quiet P load → (∀ d, quiet P (save d)) → quiet P (run_tm load save p).
Proof.
  intros Hload Hsave. induction p as [r|k IH|d k IH]; cbn [run_tm].
  - apply quiet_of_result.
  - intros a r a'. destruct (load a) as [r1 a1] eqn:Hrun. intros Hrest.
    destruct (Hload _ _ _ Hrun), (IH _ _ _ _ Hrest).
    eauto using same_refs_trans, extends_by_trans.
  - intros a r a'. destruct (save d a) as [r1 a1] eqn:Hrun. intros Hrest.
    destruct (Hsave _ _ _ _ Hrun), (IH _ _ _ _ Hrest).
    eauto using same_refs_trans, extends_by_trans.
Qed.

Lemma quiet_settle_each (P : event → Prop) E q :
  (∀ key, P (EvKvGet key)) → (∀ key value, P (EvKvPut key value)) →
  (∀ promise, P (EvTmInitializeSettled promise)) →
  quiet P (settle_each E q).
Proof.
  intros Hget Hput Hset. induction q as [|[promise prog] q IH]; cbn [settle_each].
  - apply quiet_ret.
  - intros a r a'.
    destruct (run_tm _ _ prog a) as [r1 a1] eqn:Hrun. intros Hrest.
    apply (quiet_run_tm P) in Hrun as [Hr1 He1];
      [|by apply quiet_loadTokenForETM
       |by intros; apply quiet_saveTokenForETM].
    apply IH in Hrest as [Hr2 He2]. split.
    + eapply same_refs_trans; [|exact Hr2].
      eapply same_refs_trans; [exact Hr1 | apply same_refs_with_sys].
    + eapply extends_by_trans; [|exact He2].
      eapply extends_by_trans; [exact He1 | by apply extends_by_emit].
Qed.

Lemma quiet_settle (P : event → Prop) E :
  (∀ key, P (EvKvGet key)) → (∀ key value, P (EvKvPut key value)) →
  (∀ promise, P (EvTmInitializeSettled promise)) →
  quiet P (settle E).
Proof.
  intros Hget Hput Hset a r a'. unfold settle. intros Hrun.
  apply (quiet_settle_each P) in Hrun as [Hr He]; [|done..]. split; [|done].
  eapply same_refs_trans; [apply same_refs_with_pending | exact Hr].
Qed.

Lemma quiet_await (P : event → Prop) {A} E (m : M Actor A) :
  (∀ key, P (EvKvGet key)) → (∀ key value, P (EvKvPut key value)) →
  (∀ promise, P (EvTmInitializeSettled promise)) →
  quiet P m → quiet P (await E m).
Proof.
  intros Hget Hput Hset Hm a r a'. unfold await.
  destruct (m a) as [r1 a1] eqn:Hrun.
  destruct (settle E a1) as [r2 a2] eqn:Hsettle. intros [= <- <-].
  apply Hm in Hrun as [? ?].
  apply (quiet_settle P) in Hsettle as [? ?]; [|done..].
  eauto using same_refs_trans, extends_by_trans.
Qed.


(** *** Recovery, tier 1 *)

(** What a successful liveness probe may leave in the history: log lines,
    the probe itself, the reads and writes the token manager makes through
    its closures, and the settling of promises that an earlier [init]
    started. *)
Definition is_probe_event (e : event) : Prop :=
  match e with
  | EvLog _ _ | EvKvGet _ | EvKvPut _ _ | EvTmGetAccessToken
  | EvTmInitializeSettled _ => True
  | _ => False
  end.

Lemma quiet_getAccessToken E : quiet is_probe_event (getAccessToken E).
Proof.
  unfold getAccessToken. apply quiet_await; try done.
  intros a r a' Hrun.
  apply (quiet_run_tm is_probe_event) in Hrun as [Hr He];
    [|by apply quiet_loadTokenForETM
     |by intros; apply quiet_saveTokenForETM].
  split.
  - eapply same_refs_trans; [apply same_refs_with_sys | exact Hr].
  - eapply extends_by_trans; [|exact He]. by apply extends_by_emit.
Qed.

(** The actor as it stands when [getAccessToken] is called in tier 1. *)
Definition at_probe (a : Actor) : Actor :=
  with_sys
    (emit (EvLog LInfo "Attempting to fetch access token as recovery test")
       (emit (EvLog LInfo "Attempting reconnection via token manager")
          (emit (EvLog LInfo "Handling reconnection in MyMCP instance")
             (sys a))))
    a.

(** C8.  If a token manager exists and its liveness probe yields a token,
    [onReconnect] returns [true]; the token manager and the API client are
    the same instances as before (and so are the props and the
    configuration); the token manager's [initialize()] is not called and
    none of the steps of [init] runs: the history grows only by log lines,
    the probe, and the store accesses made through the closures. *)
Theorem onReconnect_probe_success (E : Env) (a a1 : Actor)
    (token : option string) :
  to_boolean (tokenManager a) = true →
  getAccessToken E (at_probe a) = (Ok token, a1) →
  to_boolean token = true →
  ∃ a',
    onReconnect E a = (Ok true, a') ∧
    same_refs a a' ∧
    extends_by is_probe_event (sys a) (sys a').
Proof.
  intros Htm Hprobe Htoken.
  pose proof (quiet_getAccessToken E _ _ _ Hprobe) as [Hrefs Hext].
  eexists. split.
  - unfold onReconnect, recover, probe.
    cbv [bind try_catch lift log get ret]. cbn [sys tokenManager with_sys].
    rewrite Htm. cbn [negb].
    rewrite !sys_with_sys, !with_sys_idem.
    unfold at_probe in Hprobe. rewrite Hprobe, Htoken. reflexivity.
  - split.
    + eapply same_refs_trans; [|apply same_refs_with_sys].
      eapply same_refs_trans; [|exact Hrefs].
      unfold at_probe. apply same_refs_with_sys.
    + cbn [sys with_sys].
      eapply extends_by_trans; [|by apply extends_by_emit].
      eapply extends_by_trans; [|exact Hext].
      unfold at_probe. cbn [sys with_sys].
      repeat (eapply extends_by_trans; [|by apply extends_by_emit]).
      apply extends_by_refl.
Qed.


(** *** Concrete collaborators, for examples *)

Definition fresh (s : Sys) (p : MyMCPProps) : Actor :=
  {| sys := s; props := p; tokenManager := None; client := None;
     validatedConfig := None; pending := [] |}.

(** A world in which every collaborator succeeds and no promise settles
    while the actor is suspended. *)
Definition steady_env : Env :=
  {| store := KvTokenStore.copying_sdk;
     getConfig := λ _, Ok AuthHandler.example_config;
     server_tool := λ _ _, Ok ();
     initializeSchwabAuthClient := λ _, Ok ();
     tm_initialize :=
       λ _, TmLoad (λ r, TmRet (Ok match r with
                                   | Ok (Some _) => true
                                   | _ => false
                                   end));
     tm_getAccessToken := λ _, TmRet (Ok (Some "A1"));
     createApiClient := λ _, Ok ();
     registerTools := λ _, Ok ();
     super_onSSE := λ _, Ok ();
     settles := λ _, 0 |}.

(** A world whose token manager is beyond recovery (the probe rejects and
    [initialize()] answers [false]) and in which the API client can be
    constructed, or not, as [createApiClient] says. *)
Definition broken_env (createApiClient : list event → result ()) : Env :=
  {| store := store steady_env;
     getConfig := getConfig steady_env;
     server_tool := server_tool steady_env;
     initializeSchwabAuthClient := initializeSchwabAuthClient steady_env;
     tm_initialize := λ _, TmRet (Ok false);
     tm_getAccessToken :=
       λ _, TmRet (Throw (SchwabAuthError "TOKEN_EXPIRED"
                            "refresh token expired" 401));
     createApiClient := createApiClient;
     registerTools := registerTools steady_env;
     super_onSSE := super_onSSE steady_env;
     settles := settles steady_env |}.

(** The API client can never be constructed. *)
Definition dead_env : Env :=
  broken_env (λ _, Throw (JsError "client construction failed")).

Definition both_ids : MyMCPProps :=
  {| schwabUserId := Some "u1"; clientId := Some "c1" |}.

Definition client_only : MyMCPProps :=
  {| schwabUserId := None; clientId := Some "c1" |}.

(** An actor that has been initialized before, for a session that carries
    the client id only. *)
Definition running : Actor :=
  {| sys := KvTokenStore.empty_sys; props := client_only;
     tokenManager := Some (ObjectRef 3); client := Some (ObjectRef 5);
     validatedConfig := Some AuthHandler.example_config; pending := [] |}.

Lemma onReconnect_probe_success_witness :
  to_boolean (tokenManager running) = true ∧
  getAccessToken steady_env (at_probe running)
    = (Ok (Some "A1"),
       with_sys (emit EvTmGetAccessToken (sys (at_probe running))) running) ∧
  to_boolean (Some "A1") = true ∧
  ∃ a',
    onReconnect steady_env running = (Ok true, a') ∧
    same_refs running a' ∧
    extends_by is_probe_event (sys running) (sys a').
Proof.
  assert (H1 : to_boolean (tokenManager running) = true) by reflexivity.
  assert (H2 : getAccessToken steady_env (at_probe running)
               = (Ok (Some "A1"),
                  with_sys (emit EvTmGetAccessToken (sys (at_probe running)))
                    running)) by reflexivity.
  assert (H3 : to_boolean (Some "A1") = true) by reflexivity.
  split; [assumption|]. split; [assumption|]. split; [assumption|].
  exact (onReconnect_probe_success steady_env running _ (Some "A1") H1 H2 H3).
Defined.

(** *** Recovery when every tier fails *)

(** The actor as it stands when tier 1 starts, when tier 3 starts, and when
    the [catch] block starts its own [init]. *)
Definition at_tier1 (a : Actor) : Actor :=
  with_sys
    (emit (EvLog LInfo "Attempting reconnection via token manager")
       (emit (EvLog LInfo "Handling reconnection in MyMCP instance") (sys a)))
    a.

Definition at_tier3 (a : Actor) : Actor :=
  with_sys
    (emit (EvLog LWarn
             "Reconnection recovery attempts failed, performing full reinitialization")
       (emit (EvLog LInfo "Token manager state during reconnection") (sys a)))
    a.

Definition at_emergency (a : Actor) : Actor :=
  with_sys
    (emit (EvLog LWarn
             "Attempting emergency reinitialization after reconnection failure")
       (emit (EvLog LError "Critical error during reconnection handling")
          (sys a)))
    a.

Lemma emergency_returns E e a : ∃ b a', emergency E e a = (Ok b, a').
Proof.
  unfold emergency. cbv [bind try_catch lift log ret].
  rewrite !sys_with_sys, !with_sys_idem.
  destruct (await E (init E) _) as [[[]|e'] a1]; eauto.
Qed.

Lemma probe_returns E a : ∃ b a', probe E a = (Ok b, a').
Proof.
  unfold probe. cbv [bind try_catch lift log ret].
  destruct (getAccessToken E _) as [[token|e'] a1]; [|eauto].
  destruct (to_boolean token); eauto.
Qed.

Lemma reload_returns E a : ∃ b a', reload E a = (Ok b, a').
Proof.
  unfold reload. cbv [bind try_catch lift log ret].
  destruct (initialize_awaited E _) as [[b|e'] a1]; eauto.
Qed.

(** The course of [onReconnect] when every tier fails and the [init] of the
    [catch] block fails as well. *)
Lemma onReconnect_exhausts (E : Env) (a a1 a2 a3 a4 : Actor) (e e' : exn) :
  to_boolean (tokenManager a) = true →
  probe E (at_tier1 a) = (Ok false, a1) →
  reload E a1 = (Ok false, a2) →
  await E (init E) (at_tier3 a2) = (Throw e, a3) →
  await E (init E) (at_emergency a3) = (Throw e', a4) →
  onReconnect E a
  = (Ok false,
     with_sys (emit (EvLog LError "Emergency reinitialization also failed")
                 (sys a4)) a4).
Proof.
  intros Htm Hprobe Hreload Hinit Hagain.
  unfold onReconnect, recover.
  cbv [bind try_catch lift log get ret]. cbn [sys tokenManager with_sys].
  rewrite Htm. cbn [negb].
  rewrite !sys_with_sys, !with_sys_idem.
  unfold at_tier1 in Hprobe. rewrite Hprobe.
  rewrite Hreload.
  rewrite ?sys_with_sys, ?with_sys_idem.
  unfold at_tier3 in Hinit. rewrite Hinit.
  unfold emergency. cbv [bind try_catch lift log ret].
  rewrite ?sys_with_sys, ?with_sys_idem.
  unfold at_emergency in Hagain. rewrite Hagain. reflexivity.
Qed.


(** All tiers and the emergency reinitialization fail, and the answer is
    [false]. *)
Example onReconnect_exhausted :
  let tier1 := probe dead_env (at_tier1 running) in
  let tier2 := reload dead_env tier1.2 in
  let tier3 := await dead_env (init dead_env) (at_tier3 tier2.2) in
  let again := await dead_env (init dead_env) (at_emergency tier3.2) in
  tier1.1 = Ok false ∧
  tier2.1 = Ok false ∧
  tier3.1 = Throw (JsError "client construction failed") ∧
  again.1 = Throw (JsError "client construction failed") ∧
  (onReconnect dead_env running).1 = Ok false.
Proof. repeat split; vm_compute; reflexivity. Qed.

(** *** Initialization order *)

Lemma lift_ext_inv_ok {A} ev (f : list event → result A) a x a1 :
  lift (ext ev f) a = (Ok x, a1) →
  f (trace (sys a)) = Ok x ∧ a1 = with_sys (emit ev (sys a)) a.
Proof. unfold lift, ext. by intros [= -> <-]. Qed.

Lemma modify_inv f a x a1 : modify f a = (Ok x, a1) → a1 = f a.
Proof. destruct x. by intros [= <-]. Qed.

Lemma get_inv a x a1 : get a = (Ok x, a1) → x = a ∧ a1 = a.
Proof. by intros [= <- <-]. Qed.

Lemma getTokenIds_inv a ids a1 : getTokenIds a = (Ok ids, a1) → a1 = a.
Proof. by intros [= _ <-]. Qed.

Lemma of_result_inv {S A} (r : result A) (s : S) x s1 :
  of_result r s = (Ok x, s1) → r = Ok x ∧ s1 = s.
Proof. by intros [= -> <-]. Qed.

Lemma backfillClientId_inv config a x a1 :
  backfillClientId config a = (Ok x, a1) →
  sys a1 = sys a ∧ schwabUserId (props a1) = schwabUserId (props a) ∧
  tokenManager a1 = tokenManager a ∧ pending a1 = pending a ∧
  client a1 = client a.
Proof.
  unfold backfillClientId, modify. destruct x. intros [= <-].
  by destruct (negb (to_boolean (clientId (props a)))).
Qed.

(** The steps of [init] up to and including the un-awaited call of
    [initialize()]: what they leave in the history and in the actor. *)
Lemma init_prefix_inv (E : Env) (a a1 : Actor) (k : M Actor ()) :
  (lift (ext (EvServerTool TOOL_NAMES_STATUS)
          (λ h, server_tool E h TOOL_NAMES_STATUS)) >>>
   let* config := lift (ext EvGetConfig (getConfig E)) in
   modify (with_validatedConfig (Some config)) >>>
   backfillClientId config >>>
   let* ids := getTokenIds in
   let* _expectedKeyPrefix := of_result (KvTokenStore.kvKey ids) in
   let* a := get in
   (if negb (to_boolean (tokenManager a)) then createTokenManager E
    else ret ()) >>>
   initialize_detached E >>> k) a = (Ok (), a1) →
  ∃ a0 pre promise,
    k a0 = (Ok (), a1) ∧
    trace (sys a0) = trace (sys a) ++ pre ++ [EvTmInitializeCalled promise] ∧
    (pre = [EvServerTool TOOL_NAMES_STATUS; EvGetConfig] ∨
     pre = [EvServerTool TOOL_NAMES_STATUS; EvGetConfig;
            EvInitializeSchwabAuthClient]) ∧
    schwabUserId (props a0) = schwabUserId (props a) ∧
    promise ∈ (pending a0).*1 ∧
    (∃ key, KvTokenStore.generateKey
              {| SchwabApi.schwabUserId := schwabUserId (props a0);
                 SchwabApi.clientId := clientId (props a0) |} = Ok key) ∧
    to_boolean (tokenManager a0) = true.
Proof.
  intros H.
  apply bind_inv_ok in H as ([] & s1 & H1 & H).
  apply lift_ext_inv_ok in H1 as [_ ->].
  apply bind_inv_ok in H as (config & s2 & H2 & H).
  apply lift_ext_inv_ok in H2 as [_ ->].
  apply bind_inv_ok in H as ([] & s3 & H3 & H). apply modify_inv in H3 as ->.
  apply bind_inv_ok in H as ([] & b & H4 & H).
  apply backfillClientId_inv in H4 as (Hsys & Hu & Htm & Hp & _).
  cbn in Hsys, Hu, Htm, Hp.
  assert (Htr : trace (sys b)
                = trace (sys a) ++ [EvServerTool TOOL_NAMES_STATUS; EvGetConfig]).
  { rewrite Hsys. cbn. by norm_trace. }
  clear Hsys.
  apply bind_inv_ok in H as (ids & s5 & H5 & H).
  injection H5 as <- <-.
  apply bind_inv_ok in H as (key & s6 & H6 & H).
  apply of_result_inv in H6 as [Hkey ->].
  apply bind_inv_ok in H as (a5 & s7 & H7 & H).
  apply get_inv in H7 as [-> ->].
  apply bind_inv_ok in H as ([] & s8 & H8 & H).
  apply bind_inv_ok in H as ([] & s9 & H9 & H).
  injection H9 as <-.
  destruct (negb (to_boolean (tokenManager b))) eqn:Hnone.
  - unfold createTokenManager in H8.
    apply bind_inv_ok in H8 as ([] & s10 & H10 & H8).
    apply lift_ext_inv_ok in H10 as [_ ->]. apply modify_inv in H8 as ->.
    eexists _, [EvServerTool TOOL_NAMES_STATUS; EvGetConfig;
                EvInitializeSchwabAuthClient], _.
    split; [exact H|].
    cbn [sys props tokenManager pending with_sys with_tokenManager
         with_pending emit trace kv].
    rewrite !Htr. norm_trace. split; [reflexivity|].
    split; [by right|]. split; [done|].
    split; [rewrite fmap_app, elem_of_app; right; cbn [fmap list_fmap fst]; by left|]. split; [|done]. by exists key.
  - injection H8 as <-.
    eexists _, [EvServerTool TOOL_NAMES_STATUS; EvGetConfig], _.
    split; [exact H|].
    cbn [sys props tokenManager pending with_sys with_tokenManager
         with_pending emit trace kv].
    rewrite !Htr. norm_trace. split; [reflexivity|].
    split; [by left|]. split; [done|].
    split; [rewrite fmap_app, elem_of_app; right; cbn [fmap list_fmap fst]; by left|]. split; [by exists key|].
    by destruct (to_boolean (tokenManager b)).
Qed.

(** C3 is not what the code does.  [init] calls the token manager's
    [initialize()] without awaiting it.  For an actor whose props carry no
    Schwab user id, nothing is awaited between that call and the
    construction of the API client: in every successful [init] the call is
    immediately followed by [createApiClient], and when [init] returns the
    promise of [initialize()] is still pending, so the persisted credential
    has not been loaded when the client is built. *)
Theorem init_builds_client_while_initialize_pending (E : Env) (a a' : Actor) :
  to_boolean (schwabUserId (props a)) = false →
  init E a = (Ok (), a') →
  ∃ promise pre,
    trace (sys a')
    = trace (sys a)
      ++ pre ++ [EvTmInitializeCalled promise; EvCreateApiClient;
                 EvRegisterTools] ∧
    (pre = [EvServerTool TOOL_NAMES_STATUS; EvGetConfig] ∨
     pre = [EvServerTool TOOL_NAMES_STATUS; EvGetConfig;
            EvInitializeSchwabAuthClient]) ∧
    promise ∈ (pending a').*1.
Proof.
  intros Huser Hinit. unfold init in Hinit.
  apply (try_catch_rethrow_inv_ok _ (λ _, lift (log LError _))) in Hinit.
  unfold init_body in Hinit.
  apply init_prefix_inv in Hinit
    as (a0 & pre & promise & Hk & Htr & Hpre & Hu & Hin & _ & _).
  apply bind_inv_ok in Hk as (a5 & s1 & Hget & Hk).
  apply get_inv in Hget as [-> ->].
  rewrite Hu, Huser in Hk. cbn [andb] in Hk.
  apply bind_inv_ok in Hk as ([] & s2 & Hret & Hk). injection Hret as <-.
  apply bind_inv_ok in Hk as ([] & s3 & Hcreate & Hk).
  apply lift_ext_inv_ok in Hcreate as [_ ->].
  apply bind_inv_ok in Hk as ([] & s4 & Hmod & Hk).
  apply modify_inv in Hmod as ->.
  apply lift_ext_inv_ok in Hk as [_ ->].
  exists promise, pre. split; [|split; [done|done]].
  cbn [sys with_sys with_client emit trace]. rewrite Htr. by norm_trace.
Qed.

Lemma init_builds_client_while_initialize_pending_witness :
  let a' := (init steady_env (fresh KvTokenStore.empty_sys client_only)).2 in
  to_boolean (schwabUserId (props (fresh KvTokenStore.empty_sys client_only)))
    = false ∧
  init steady_env (fresh KvTokenStore.empty_sys client_only) = (Ok (), a') ∧
  ∃ promise pre,
    trace (sys a')
    = trace (sys (fresh KvTokenStore.empty_sys client_only))
      ++ pre ++ [EvTmInitializeCalled promise; EvCreateApiClient;
                 EvRegisterTools] ∧
    (pre = [EvServerTool TOOL_NAMES_STATUS; EvGetConfig] ∨
     pre = [EvServerTool TOOL_NAMES_STATUS; EvGetConfig;
            EvInitializeSchwabAuthClient]) ∧
    promise ∈ (pending a').*1.
Proof.
  intros a'.
  assert (H1 : to_boolean
                 (schwabUserId
                    (props (fresh KvTokenStore.empty_sys client_only)))
               = false) by reflexivity.
  assert (H2 : init steady_env (fresh KvTokenStore.empty_sys client_only)
               = (Ok (), a')) by (vm_compute; reflexivity).
  split; [assumption|]. split; [assumption|].
  exact (init_builds_client_while_initialize_pending steady_env
           (fresh KvTokenStore.empty_sys client_only) a' H1 H2).
Defined.

(** By contrast, the awaited call in tier 2 of [onReconnect] settles before
    anything else happens. *)
Example reload_awaits_initialize :
  trace (sys (reload steady_env running).2)
  = [EvLog LInfo "Attempting proactive reinitialization of token manager";
     EvTmInitializeCalled 1; EvKvGet "token:c1"; EvTmInitializeSettled 1;
     EvLog LInfo "Token manager reinitialization failed"].
Proof. vm_compute. reflexivity. Qed.

(** With both identifiers in the props, [init] is suspended once between
    the call and the construction of the client, at the [await] of
    [migrateIfNeeded]; whether the promise settles there is up to the
    scheduler, and here it does not. *)
Example init_both_ids_trace :
  trace (sys (init steady_env (fresh KvTokenStore.empty_sys both_ids)).2)
  = [EvServerTool "status"; EvGetConfig; EvInitializeSchwabAuthClient;
     EvTmInitializeCalled 3;
     EvSdkMigrate (SchwabApi.byClientId "c1") (SchwabApi.byUserId "u1");
     EvLog LWarn KvTokenStore.migration_warning;
     EvCreateApiClient; EvRegisterTools].
Proof. vm_compute. reflexivity. Qed.

(** The history of that run: the client is built right after the call, and
    no settling of the promise is recorded. *)
Example init_client_only_trace :
  trace (sys (init steady_env (fresh KvTokenStore.empty_sys client_only)).2)
  = [EvServerTool "status"; EvGetConfig; EvInitializeSchwabAuthClient;
     EvTmInitializeCalled 3; EvCreateApiClient; EvRegisterTools].
Proof. vm_compute. reflexivity. Qed.


(** *** The identity of an initialized actor *)

(** At least one identifier is present in the props. *)
Definition has_id (p : MyMCPProps) : Prop :=
  to_boolean (schwabUserId p) = true ∨ to_boolean (clientId p) = true.

(** [getTokenIds()] evaluated on [a]. *)
Definition token_ids (a : Actor) : SchwabApi.TokenIdentifiers :=
  {| SchwabApi.schwabUserId := schwabUserId (props a);
     SchwabApi.clientId := clientId (props a) |}.

(** An actor that holds a token manager can name its credential. *)
Definition identified (a : Actor) : Prop :=
  to_boolean (tokenManager a) = true → has_id (props a).

Lemma has_id_generateKey a :
  has_id (props a) ↔ ∃ key, KvTokenStore.generateKey (token_ids a) = Ok key.
Proof. symmetry. apply KvTokenStore.generateKey_ok_iff. Qed.

(** [m] leaves the props alone. *)
Definition keeps_props {A} (m : M Actor A) : Prop :=
  ∀ a r a', m a = (r, a') → props a' = props a.

Lemma keeps_props_quiet P {A} (m : M Actor A) : quiet P m → keeps_props m.
Proof. intros Hm a r a' Hrun. by apply Hm in Hrun as [[? _] _]. Qed.

Lemma keeps_props_bind {A B} (m : M Actor A) (k : A → M Actor B) :
  keeps_props m → (∀ x, keeps_props (k x)) → keeps_props (bind m k).
Proof.
  intros Hm Hk a r a'. unfold bind.
  destruct (m a) as [[x|e] a1] eqn:Hrun.
  - intros Hrun'. apply Hm in Hrun. apply Hk in Hrun'. congruence.
  - intros [= <- <-]. by apply Hm in Hrun.
Qed.

Lemma keeps_props_modify (f : Actor → Actor) :
  (∀ a, props (f a) = props a) → keeps_props (modify f).
Proof. intros Hf a r a' [= <- <-]. apply Hf. Qed.

Lemma keeps_props_if {A} (b : bool) (m1 m2 : M Actor A) :
  keeps_props m1 → keeps_props m2 → keeps_props (if b then m1 else m2).
Proof. by destruct b. Qed.

Definition any_event (e : event) : Prop := True.

Lemma sys_quiet_any {A} (m : M Sys A) :
  (∀ s r s', m s = (r, s') → ∃ evs, trace s' = trace s ++ evs) →
  sys_quiet any_event m.
Proof.
  intros Hm s r s' Hrun. apply Hm in Hrun as [evs ?]. exists evs.
  split; [done|]. by apply Forall_forall.
Qed.

Lemma quiet_lift_ext {A} ev (f : list event → result A) :
  quiet any_event (lift (ext ev f)).
Proof.
  apply quiet_lift. intros s r s' [= <- <-]. by apply extends_by_emit.
Qed.

Lemma quiet_lift_log lvl msg : quiet any_event (lift (log lvl msg)).
Proof. by apply quiet_lift, sys_quiet_log. Qed.

Lemma quiet_lift_migrateIfNeeded E fromIds toIds :
  quiet any_event (lift (KvTokenStore.migrateIfNeeded E fromIds toIds)).
Proof.
  apply quiet_lift, sys_quiet_any. intros s r s'.
  unfold KvTokenStore.migrateIfNeeded, KvTokenStore.migrate. run_monad.
  destruct (KvTokenStore.sdk_migrate _ _ _ _ _) as [[[]|e] kv']; cbn.
  - intros [= <- <-]. eauto.
  - destruct (KvTokenStore.sdk_generateKey E fromIds); [|intros [= <- <-]; eauto].
    destruct (KvTokenStore.sdk_generateKey E toIds); intros [= <- <-]; cbn.
    + norm_trace. eauto.
    + eauto.
  - intros [= <- <-]. eauto.
Qed.

Lemma quiet_any_await {A} E (m : M Actor A) :
  quiet any_event m → quiet any_event (await E m).
Proof. by apply quiet_await. Qed.

(** The first part of [init]: up to the evaluation of
    [kvToken.kvKey(getTokenIds())], lines 54-103. *)
Definition init_check (E : Env) : M Actor () :=
  lift (ext (EvServerTool TOOL_NAMES_STATUS)
            (λ h, server_tool E h TOOL_NAMES_STATUS)) >>>
  let* config := lift (ext EvGetConfig (getConfig E)) in
  modify (with_validatedConfig (Some config)) >>>
  backfillClientId config >>>
  let* ids := getTokenIds in
  let* _expectedKeyPrefix := of_result (KvTokenStore.kvKey ids) in
  ret ().

(** The second part: lines 133-219. *)
Definition init_build (E : Env) : M Actor () :=
  let* a := get in
  (if negb (to_boolean (tokenManager a)) then createTokenManager E
   else ret ()) >>>
  initialize_detached E >>>
  let* a := get in
  (if to_boolean (schwabUserId (props a)) && to_boolean (clientId (props a))
   then
     await E
       (lift (KvTokenStore.migrateIfNeeded (store E)
                (SchwabApi.byClientId (default "" (clientId (props a))))
                (SchwabApi.byUserId (default "" (schwabUserId (props a))))))
   else ret ()) >>>
  lift (ext EvCreateApiClient (createApiClient E)) >>>
  modify (λ a, with_client (Some (ObjectRef (length (trace (sys a))))) a) >>>
  lift (ext EvRegisterTools (registerTools E)).

Lemma init_body_split E a :
  init_body E a = (init_check E >>> init_build E) a.
Proof.
  unfold init_body, init_check. symmetry.
  rewrite bind_assoc. apply bind_ext; intros [] a1.
  rewrite bind_assoc. apply bind_ext; intros config a2.
  rewrite bind_assoc. apply bind_ext; intros [] a3.
  rewrite bind_assoc. apply bind_ext; intros [] a4.
  rewrite bind_assoc. apply bind_ext; intros ids a5.
  rewrite bind_assoc. apply bind_ext; intros key a6.
  by rewrite bind_ret_l.
Qed.

Lemma init_check_spec E a r a1 :
  init_check E a = (r, a1) →
  tokenManager a1 = tokenManager a ∧
  (has_id (props a) → has_id (props a1)) ∧
  (r = Ok () → has_id (props a1)).
Proof.
  unfold init_check. intros H.
  assert (Hfail : ∀ b : Actor,
            tokenManager b = tokenManager a → props b = props a →
            ∀ e, tokenManager b = tokenManager a ∧
                 (has_id (props a) → has_id (props b)) ∧
                 (Throw (A := ()) e = Ok () → has_id (props b))).
  { intros b ? Hb e. rewrite Hb. by repeat split. }
  unfold bind at 1 in H.
  destruct (lift _ a) as [[[]|e] a2] eqn:H1.
  2:{ injection H as <- <-. apply quiet_lift_ext in H1 as [(?&?&_) _]. eauto. }
  apply quiet_lift_ext in H1 as [(Hp1 & Ht1 & _) _].
  unfold bind at 1 in H.
  destruct (lift _ a2) as [[config|e] a3] eqn:H2.
  2:{ injection H as <- <-. apply quiet_lift_ext in H2 as [(?&?&_) _].
      apply Hfail; congruence. }
  apply quiet_lift_ext in H2 as [(Hp2 & Ht2 & _) _].
  cbv [bind modify backfillClientId getTokenIds of_result ret] in H.
  cbn [props tokenManager with_validatedConfig] in H.
  set (b := if negb (to_boolean (clientId (props a3))) then _ else _) in H.
  assert (Hb : tokenManager b = tokenManager a ∧
               (has_id (props a) → has_id (props b))).
  { subst b. destruct (to_boolean (clientId (props a3))) eqn:Hc; cbn.
    - split; [congruence|]. by rewrite Hp2, Hp1.
    - split; [congruence|]. rewrite <- Hp1, <- Hp2.
      intros [Hu|Hc']; [by left | congruence]. }
  destruct Hb as [Htb Hmono].
  destruct (KvTokenStore.kvKey _) as [key|e] eqn:Hkey; injection H as <- <-.
  - split; [done|]. split; [done|]. intros _.
    apply has_id_generateKey. by exists key.
  - by repeat split.
Qed.

Lemma keeps_props_createTokenManager E : keeps_props (createTokenManager E).
Proof.
  unfold createTokenManager. apply keeps_props_bind; [|intros ?].
  - eapply keeps_props_quiet, quiet_lift_ext.
  - by apply keeps_props_modify.
Qed.

Lemma keeps_props_init_build E : keeps_props (init_build E).
Proof.
  unfold init_build.
  repeat first
    [ apply keeps_props_bind; [|intros ?]
    | apply keeps_props_if
    | apply keeps_props_createTokenManager
    | apply keeps_props_modify; done
    | eapply keeps_props_quiet, quiet_lift_ext
    | eapply keeps_props_quiet, quiet_any_await, quiet_lift_migrateIfNeeded
    | eapply keeps_props_quiet, (quiet_ret any_event)
    | by intros ? ? ? [= <- <-] ].
Qed.

(** [m] maintains [I], whether it returns or throws. *)
Definition preserves (I : Actor → Prop) {A} (m : M Actor A) : Prop :=
  ∀ a r a', I a → m a = (r, a') → I a'.

Lemma preserves_bind I {A B} (m : M Actor A) (k : A → M Actor B) :
  preserves I m → (∀ x, preserves I (k x)) → preserves I (bind m k).
Proof.
  intros Hm Hk a r a' Ha. unfold bind.
  destruct (m a) as [[x|e] a1] eqn:Hrun.
  - intros Hrun'. eapply Hk; [|exact Hrun']. eauto.
  - intros [= <- <-]. eauto.
Qed.

Lemma preserves_try_catch I {A} (m : M Actor A) (h : exn → M Actor A) :
  preserves I m → (∀ e, preserves I (h e)) → preserves I (try_catch m h).
Proof.
  intros Hm Hh a r a' Ha. unfold try_catch.
  destruct (m a) as [[x|e] a1] eqn:Hrun.
  - intros [= <- <-]. eauto.
  - intros Hrun'. eapply Hh; [|exact Hrun']. eauto.
Qed.

Lemma preserves_if I {A} (b : bool) (m1 m2 : M Actor A) :
  preserves I m1 → preserves I m2 → preserves I (if b then m1 else m2).
Proof. by destruct b. Qed.

Lemma preserves_identified_quiet P {A} (m : M Actor A) :
  quiet P m → preserves identified m.
Proof.
  intros Hm a r a' Ha Hrun. apply Hm in Hrun as [(Hp & Ht & _) _].
  unfold identified. by rewrite Hp, Ht.
Qed.

Lemma preserves_identified_await {A} E (m : M Actor A) :
  preserves identified m → preserves identified (await E m).
Proof.
  intros Hm a r a' Ha. unfold await.
  destruct (m a) as [r1 a1] eqn:Hrun.
  destruct (settle E a1) as [r2 a2] eqn:Hsettle. intros [= <- <-].
  assert (Hq : quiet any_event (settle E)) by (by apply quiet_settle).
  exact (preserves_identified_quiet _ _ Hq a1 r2 a2 (Hm _ _ _ Ha Hrun) Hsettle).
Qed.

Lemma preserves_identified_init E : preserves identified (init E).
Proof.
  unfold init. apply preserves_try_catch.
  - intros a r a' Ha. rewrite init_body_split. unfold bind.
    destruct (init_check E a) as [[[]|e] a1] eqn:Hcheck.
    + intros Hbuild. apply init_check_spec in Hcheck as (_ & _ & Hid).
      apply keeps_props_init_build in Hbuild.
      intros _. rewrite Hbuild. by apply Hid.
    + intros [= <- <-]. apply init_check_spec in Hcheck as (Ht & Hmono & _).
      unfold identified. rewrite Ht. eauto.
  - intros e. apply preserves_bind; [|intros ?].
    + eapply preserves_identified_quiet, quiet_lift_log.
    + eapply preserves_identified_quiet, (quiet_throw any_event).
Qed.

Lemma quiet_initialize_awaited E : quiet any_event (initialize_awaited E).
Proof.
  unfold initialize_awaited. apply quiet_any_await.
  intros a r a'.
  destruct (run_tm _ _ _ _) as [r1 a1] eqn:Hrun. intros [= <- <-].
  apply (quiet_run_tm any_event) in Hrun as [Hr He];
    [|by apply quiet_loadTokenForETM
     |by intros; apply quiet_saveTokenForETM].
  split.
  - eapply same_refs_trans; [|apply same_refs_with_sys].
    eapply same_refs_trans; [apply same_refs_with_sys | exact Hr].
  - cbn [sys with_sys].
    eapply extends_by_trans; [|by apply extends_by_emit].
    eapply extends_by_trans; [|exact He]. by apply extends_by_emit.
Qed.

Ltac preserves_identified :=
  repeat first
    [ apply preserves_identified_init
    | eapply preserves_identified_quiet, quiet_lift_log
    | eapply preserves_identified_quiet, quiet_lift_ext
    | eapply preserves_identified_quiet, quiet_getAccessToken
    | eapply preserves_identified_quiet, quiet_initialize_awaited
    | eapply preserves_identified_quiet, (quiet_ret any_event)
    | by intros ? ? ? ? [= <- <-]
    | apply preserves_if
    | apply preserves_identified_await
    | apply preserves_bind; [|intros ?]
    | apply preserves_try_catch; [|intros ?] ].

Lemma preserves_identified_onReconnect E : preserves identified (onReconnect E).
Proof.
  unfold onReconnect, recover, emergency, probe, reload.
  preserves_identified.
Qed.

Lemma preserves_identified_onSSE E : preserves identified (onSSE E).
Proof.
  unfold onSSE.
  apply preserves_bind; [preserves_identified | intros ?].
  apply preserves_bind; [|intros ?; preserves_identified].
  apply preserves_identified_await, preserves_identified_onReconnect.
Qed.

(** The states in which the actor can find itself when the token manager
    calls one of its closures (a superset of them).  The actor is created by
    the hosting framework with some props and no token manager, and driven
    by [init], [onReconnect] and [onSSE]; the world (the namespace, the
    history) may be changed by others at any time.  Inside an operation, the
    actor passes through the end of the first part of [init], through the
    construction of the token manager, which [init] reaches only after it
    has derived the key (line 101), and through any number of steps that
    keep its references and only add to the history: log lines, a
    conversation of the token manager with the closures, the probe, the
    reload, the settling of promises. *)
Inductive reachable (E : Env) : Actor → Prop :=
| reach_fresh s p : reachable E (fresh s p)
| reach_init a r a' :
    reachable E a → init E a = (r, a') → reachable E a'
| reach_onReconnect a r a' :
    reachable E a → onReconnect E a = (r, a') → reachable E a'
| reach_onSSE a r a' :
    reachable E a → onSSE E a = (r, a') → reachable E a'
| reach_world a s :
    reachable E a → reachable E (with_sys s a)
| reach_init_check a r a' :
    reachable E a → init_check E a = (r, a') → reachable E a'
| reach_createTokenManager a key r a' :
    reachable E a → KvTokenStore.kvKey (token_ids a) = Ok key →
    createTokenManager E a = (r, a') → reachable E a'
| reach_quiet a A (m : M Actor A) r a' :
    reachable E a → quiet any_event m → m a = (r, a') → reachable E a'.

Lemma reachable_identified E a : reachable E a → identified a.
Proof.
  induction 1 as [s p|a r a' _ IH Hrun|a r a' _ IH Hrun|a r a' _ IH Hrun
                  |a s _ IH|a r a' _ IH Hrun|a key r a' _ IH Hkey Hrun
                  |a A m r a' _ IH Hm Hrun].
  - intros Htm. discriminate Htm.
  - eapply preserves_identified_init; eauto.
  - eapply preserves_identified_onReconnect; eauto.
  - eapply preserves_identified_onSSE; eauto.
  - exact IH.
  - apply init_check_spec in Hrun as (Ht & Hmono & _).
    unfold identified. rewrite Ht. eauto.
  - apply keeps_props_createTokenManager in Hrun. intros _. rewrite Hrun.
    apply has_id_generateKey. by exists key.
  - exact (preserves_identified_quiet _ _ Hm a r a' IH Hrun).
Qed.

(** With a non-empty client id in the configuration, the backfill alone
    already leaves an identifier in the props. *)
Lemma backfillClientId_has_id config a r a' :
  SCHWAB_CLIENT_ID config ≠ "" →
  backfillClientId config a = (r, a') → has_id (props a').
Proof.
  intros Hne. unfold backfillClientId, modify. intros [= <- <-].
  destruct (to_boolean (clientId (props a))) eqn:Hc; cbn.
  - by right.
  - right. cbn. by apply to_boolean_string_true.
Qed.

(** Once the key can be derived, the closures are a read and a write of the
    namespace at that key. *)
Lemma loadTokenForETM_keyed E a key :
  KvTokenStore.generateKey (token_ids a) = Ok key →
  loadTokenForETM E a = lift (KvTokenStore.kv_get (store E) key) a.
Proof.
  intros Hkey. unfold loadTokenForETM, KvTokenStore.load, KvTokenStore.kvKey.
  cbv [bind getTokenIds of_result ret lift]. fold (token_ids a).
  rewrite Hkey.
  by destruct (KvTokenStore.kv_get (store E) key (sys a)) as [[?|?] ?].
Qed.

Lemma saveTokenForETM_keyed E a key tokenSet :
  KvTokenStore.generateKey (token_ids a) = Ok key →
  saveTokenForETM E tokenSet a
  = lift (KvTokenStore.kv_put (store E) key tokenSet) a.
Proof.
  intros Hkey. unfold saveTokenForETM, KvTokenStore.save, KvTokenStore.kvKey.
  cbv [bind getTokenIds of_result ret lift]. fold (token_ids a).
  rewrite Hkey.
  destruct (KvTokenStore.kv_put (store E) key tokenSet (sys a))
    as [[[]|?] ?]; [|done].
  cbn [props with_sys]. fold (token_ids a). by rewrite Hkey.
Qed.

Lemma token_ids_lift {A} (m : M Sys A) a : token_ids (lift m a).2 = token_ids a.
Proof. unfold lift. by destruct (m (sys a)). Qed.

(** And so is every load and save of a whole conversation. *)
Lemma run_tm_keyed E key {A} (p : tm_prog A) a :
  KvTokenStore.generateKey (token_ids a) = Ok key →
  run_tm (loadTokenForETM E) (saveTokenForETM E) p a
  = run_tm (lift (KvTokenStore.kv_get (store E) key))
      (λ tokenSet, lift (KvTokenStore.kv_put (store E) key tokenSet)) p a.
Proof.
  revert a. induction p as [r|k IH|d k IH]; intros a Hkey; cbn [run_tm].
  - reflexivity.
  - rewrite (loadTokenForETM_keyed E a key Hkey).
    pose proof (token_ids_lift (KvTokenStore.kv_get (store E) key) a) as Hids.
    destruct (lift _ a) as [r a1]. apply IH. cbn in Hids. by rewrite Hids.
  - rewrite (saveTokenForETM_keyed E a key d Hkey).
    pose proof (token_ids_lift (KvTokenStore.kv_put (store E) key d) a) as Hids.
    destruct (lift _ a) as [r a1]. apply IH. cbn in Hids. by rewrite Hids.
Qed.

(** C10.  In every state the actor can be in while it holds a token manager
    (the manager is only built by [init], after the client id has been
    backfilled from the configuration and the key has been derived once),
    the identity that the load and save closures pass to the store contains
    at least one identifier, key derivation succeeds on it, and the closures
    are exactly a read and a write of the namespace at that key, also
    throughout any conversation the token manager holds with them: the
    "No identifier provided" branch is never taken. *)
Theorem initialized_actor_derives_key (E : Env) (a : Actor) :
  reachable E a →
  to_boolean (tokenManager a) = true →
  has_id (props a) ∧
  ∃ key,
    KvTokenStore.generateKey (token_ids a) = Ok key ∧
    loadTokenForETM E a = lift (KvTokenStore.kv_get (store E) key) a ∧
    (∀ tokenSet,
       saveTokenForETM E tokenSet a
       = lift (KvTokenStore.kv_put (store E) key tokenSet) a) ∧
    ∀ A (p : tm_prog A),
      run_tm (loadTokenForETM E) (saveTokenForETM E) p a
      = run_tm (lift (KvTokenStore.kv_get (store E) key))
          (λ tokenSet, lift (KvTokenStore.kv_put (store E) key tokenSet)) p a.
Proof.
  intros Hreach Htm.
  pose proof (reachable_identified E a Hreach Htm) as Hid.
  split; [done|].
  destruct (proj1 (has_id_generateKey a) Hid) as [key Hkey].
  exists key. split; [done|]. split; [by apply loadTokenForETM_keyed|].
  split; [by intros; apply saveTokenForETM_keyed|].
  intros A p. by apply run_tm_keyed.
Qed.

Lemma initialized_actor_derives_key_witness :
  let a := (init steady_env (fresh KvTokenStore.empty_sys client_only)).2 in
  reachable steady_env a ∧
  to_boolean (tokenManager a) = true ∧
  has_id (props a) ∧
  ∃ key,
    KvTokenStore.generateKey (token_ids a) = Ok key ∧
    loadTokenForETM steady_env a
      = lift (KvTokenStore.kv_get (store steady_env) key) a ∧
    (∀ tokenSet,
       saveTokenForETM steady_env tokenSet a
       = lift (KvTokenStore.kv_put (store steady_env) key tokenSet) a) ∧
    ∀ A (p : tm_prog A),
      run_tm (loadTokenForETM steady_env) (saveTokenForETM steady_env) p a
      = run_tm (lift (KvTokenStore.kv_get (store steady_env) key))
          (λ tokenSet,
             lift (KvTokenStore.kv_put (store steady_env) key tokenSet)) p a.
Proof.
  intros a.
  assert (H1 : reachable steady_env a).
  { eapply reach_init; [apply (reach_fresh _ KvTokenStore.empty_sys client_only)|].
    apply surjective_pairing. }
  assert (H2 : to_boolean (tokenManager a) = true) by (vm_compute; reflexivity).
  split; [assumption|]. split; [assumption|].
  exact (initialized_actor_derives_key steady_env a H1 H2).
Defined.

(** *** Relating the actor before and after an operation *)

Section Guarded.
(** [R] relates the actor before and after a step; it is a preorder, and
    steps related by [R] keep the precondition [I]. *)
Variable I : Actor → Prop.
Variable R : Actor → Actor → Prop.
Hypothesis R_refl : ∀ a, R a a.
Hypothesis R_trans : ∀ a b c, R a b → R b c → R a c.
Hypothesis I_R : ∀ a b, I a → R a b → I b.

(** From a state in [I], whatever [m] does, returning or throwing, is
    within [R]. *)
Definition guarded {A} (m : M Actor A) : Prop :=
  ∀ a r a', I a → m a = (r, a') → R a a'.

Lemma guarded_ret {A} (x : A) : guarded (ret x).
Proof using R_refl. intros a r a' _ [= <- <-]. apply R_refl. Qed.

Lemma guarded_throw {A} e : guarded (throw (A := A) e).
Proof using R_refl. intros a r a' _ [= <- <-]. apply R_refl. Qed.

Lemma guarded_of_result {A} (x : result A) : guarded (of_result x).
Proof using R_refl. intros a r a' _ [= <- <-]. apply R_refl. Qed.

Lemma guarded_getTokenIds : guarded getTokenIds.
Proof using R_refl. intros a r a' _ [= <- <-]. apply R_refl. Qed.

Lemma guarded_bind {A B} (m : M Actor A) (k : A → M Actor B) :
  guarded m → (∀ x, guarded (k x)) → guarded (bind m k).
Proof using R_trans I_R.
  intros Hm Hk a r a' Ha. unfold bind.
  destruct (m a) as [[x|e] a1] eqn:Hrun.
  - intros Hrun'. eapply R_trans; [by eapply Hm|].
    eapply Hk; [|exact Hrun']. eapply I_R; [exact Ha | by eapply Hm].
  - intros [= <- <-]. by eapply Hm.
Qed.

(** [let* a := get in k a]: the continuation may use that [a] is the
    current state. *)
Lemma guarded_bind_get {B} (k : Actor → M Actor B) :
  (∀ a r a', I a → k a a = (r, a') → R a a') → guarded (bind get k).
Proof using Type. intros Hk a r a' Ha. unfold bind, get. by apply Hk. Qed.

Lemma guarded_try_catch {A} (m : M Actor A) (h : exn → M Actor A) :
  guarded m → (∀ e, guarded (h e)) → guarded (try_catch m h).
Proof using R_trans I_R.
  intros Hm Hh a r a' Ha. unfold try_catch.
  destruct (m a) as [[x|e] a1] eqn:Hrun.
  - intros [= <- <-]. by eapply Hm.
  - intros Hrun'. eapply R_trans; [by eapply Hm|].
    eapply Hh; [|exact Hrun']. eapply I_R; [exact Ha | by eapply Hm].
Qed.

Lemma guarded_if {A} (b : bool) (m1 m2 : M Actor A) :
  guarded m1 → guarded m2 → guarded (if b then m1 else m2).
Proof using Type. by destruct b. Qed.

Lemma guarded_modify (f : Actor → Actor) :
  (∀ a, R a (f a)) → guarded (modify f).
Proof using Type. intros Hf a r a' _ [= <- <-]. apply Hf. Qed.

Lemma guarded_quiet P {A} (m : M Actor A) :
  (∀ a a', same_refs a a' → extends_by P (sys a) (sys a') → R a a') →
  quiet P m → guarded m.
Proof using Type.
  intros HR Hm a r a' _ Hrun. apply Hm in Hrun as [? ?]. by apply HR.
Qed.
End Guarded.

Lemma sys_quiet_ext (P : event → Prop) {A} ev (f : list event → result A) :
  P ev → sys_quiet P (ext ev f).
Proof. intros HP s r s' [= <- <-]. by apply extends_by_emit. Qed.

Lemma sys_quiet_migrateIfNeeded (P : event → Prop) E fromIds toIds :
  P (EvSdkMigrate fromIds toIds) →
  P (EvLog LWarn KvTokenStore.migration_warning) →
  sys_quiet P (KvTokenStore.migrateIfNeeded E fromIds toIds).
Proof.
  intros Hm Hw s r s'.
  unfold KvTokenStore.migrateIfNeeded, KvTokenStore.migrate. run_monad.
  destruct (KvTokenStore.sdk_migrate _ _ _ _ _) as [[[]|e] kv']; cbn.
  - intros [= <- <-]. exists [EvSdkMigrate fromIds toIds].
    split; [done | by constructor].
  - destruct (KvTokenStore.sdk_generateKey E fromIds);
      [|intros [= <- <-]; exists [EvSdkMigrate fromIds toIds];
        split; [done | by constructor]].
    destruct (KvTokenStore.sdk_generateKey E toIds); intros [= <- <-]; cbn.
    + exists [EvSdkMigrate fromIds toIds;
              EvLog LWarn KvTokenStore.migration_warning].
      split; [by norm_trace | by repeat constructor].
    + exists [EvSdkMigrate fromIds toIds]. split; [done | by constructor].
  - intros [= <- <-]. exists [EvSdkMigrate fromIds toIds].
    split; [done | by constructor].
Qed.

Lemma quiet_initialize_detached (P : event → Prop) E :
  (∀ promise, P (EvTmInitializeCalled promise)) →
  quiet P (initialize_detached E).
Proof.
  intros HP a r a' [= <- <-]. split.
  - by repeat split.
  - cbn. by apply extends_by_emit.
Qed.

(** Events of the store, of the logger and of promises that settle: what
    any [await] may add to the history. *)
Definition await_ok (P : event → Prop) : Prop :=
  (∀ key, P (EvKvGet key)) ∧ (∀ key value, P (EvKvPut key value)) ∧
  (∀ promise, P (EvTmInitializeSettled promise)).

Lemma quiet_await' (P : event → Prop) {A} E (m : M Actor A) :
  await_ok P → quiet P m → quiet P (await E m).
Proof. intros (? & ? & ?). by apply quiet_await. Qed.

Lemma quiet_tm_call (P : event → Prop) {A} E ev
    (prog : list event → tm_prog A) :
  await_ok P → P ev →
  quiet P (λ a, run_tm (loadTokenForETM E) (saveTokenForETM E)
                  (prog (trace (sys a))) (with_sys (emit ev (sys a)) a)).
Proof.
  intros (Hget & Hput & Hset) Hev a r a' Hrun.
  apply (quiet_run_tm P) in Hrun as [Hr He];
    [|by apply quiet_loadTokenForETM
     |by intros; apply quiet_saveTokenForETM].
  split.
  - eapply same_refs_trans; [apply same_refs_with_sys | exact Hr].
  - eapply extends_by_trans; [|exact He]. by apply extends_by_emit.
Qed.

(** *** [init] and the token manager it finds *)

(** Anything but the construction of a token manager. *)
Definition not_manager_construction (e : event) : Prop :=
  e ≠ EvInitializeSchwabAuthClient.

Definition keeps_manager (a a' : Actor) : Prop :=
  tokenManager a' = tokenManager a ∧
  extends_by not_manager_construction (sys a) (sys a').

Lemma keeps_manager_refl a : keeps_manager a a.
Proof. split; [done | apply extends_by_refl]. Qed.

Lemma keeps_manager_trans a b c :
  keeps_manager a b → keeps_manager b c → keeps_manager a c.
Proof.
  intros [? ?] [? ?]. split; [congruence | by eapply extends_by_trans].
Qed.

Lemma keeps_manager_has a b :
  to_boolean (tokenManager a) = true → keeps_manager a b →
  to_boolean (tokenManager b) = true.
Proof. intros Ha [Hb _]. by rewrite Hb. Qed.

Lemma keeps_manager_quiet a a' :
  same_refs a a' → extends_by not_manager_construction (sys a) (sys a') →
  keeps_manager a a'.
Proof. intros (_ & ? & _) ?. by split. Qed.

Lemma await_ok_not_manager_construction : await_ok not_manager_construction.
Proof. by repeat split. Qed.

Ltac keeps_manager_step :=
  first
    [ apply guarded_ret; apply keeps_manager_refl
    | apply guarded_throw; apply keeps_manager_refl
    | apply guarded_of_result; apply keeps_manager_refl
    | apply guarded_getTokenIds; apply keeps_manager_refl
    | apply guarded_bind;
        [apply keeps_manager_trans | apply keeps_manager_has | | intros ?]
    | apply guarded_if
    | apply guarded_modify; intros ?; split;
        [reflexivity | apply extends_by_refl]
    | eapply guarded_quiet;
        [apply keeps_manager_quiet
        |apply quiet_lift, sys_quiet_ext; discriminate]
    | eapply guarded_quiet;
        [apply keeps_manager_quiet
        |apply quiet_lift, sys_quiet_log; discriminate]
    | eapply guarded_quiet;
        [apply keeps_manager_quiet
        |apply quiet_initialize_detached; discriminate]
    | eapply guarded_quiet;
        [apply keeps_manager_quiet
        |apply quiet_await';
           [apply await_ok_not_manager_construction
           |apply quiet_lift, sys_quiet_migrateIfNeeded; discriminate]] ].

Lemma keeps_manager_init_check E :
  guarded (λ a, to_boolean (tokenManager a) = true) keeps_manager
    (init_check E).
Proof.
  unfold init_check. do 4 keeps_manager_step.
  { unfold backfillClientId. apply guarded_modify. intros a.
    destruct (negb _); (split; [reflexivity | apply extends_by_refl]). }
  repeat keeps_manager_step.
Qed.

Lemma keeps_manager_init_build E :
  guarded (λ a, to_boolean (tokenManager a) = true) keeps_manager
    (init_build E).
Proof.
  unfold init_build. apply guarded_bind_get. intros a r a' Htm.
  rewrite Htm. cbn [negb]. rewrite bind_ret_l. intros Hrun.
  eapply (guarded_bind (λ a, to_boolean (tokenManager a) = true)
            keeps_manager keeps_manager_trans keeps_manager_has);
    [| |exact Htm|exact Hrun].
  - keeps_manager_step.
  - intros []. apply guarded_bind_get. clear. intros a r a' Htm.
    eapply (guarded_bind (λ a, to_boolean (tokenManager a) = true)
              keeps_manager keeps_manager_trans keeps_manager_has);
      [| |exact Htm]; [|intros []]; repeat keeps_manager_step.
Qed.

(** X14 (src/index.ts, init): an actor that already holds a token manager
    keeps that very manager through [init], whether [init] returns or
    throws, and [init] does not construct another one: no call of
    [initializeSchwabAuthClient] appears among the events it adds. *)
Theorem init_reuses_token_manager E a r a' :
  to_boolean (tokenManager a) = true →
  init E a = (r, a') →
  tokenManager a' = tokenManager a ∧
  ∃ evs, trace (sys a') = trace (sys a) ++ evs ∧
         EvInitializeSchwabAuthClient ∉ evs.
Proof.
  intros Htm Hrun.
  assert (Hk : keeps_manager a a').
  { revert Hrun. unfold init.
    apply (guarded_try_catch (λ a, to_boolean (tokenManager a) = true)
             keeps_manager keeps_manager_trans keeps_manager_has);
      [| |exact Htm].
    - intros b rb b' Hb. rewrite init_body_split. revert b rb b' Hb.
      apply guarded_bind;
        [apply keeps_manager_trans | apply keeps_manager_has
        |apply keeps_manager_init_check
        |intros []; apply keeps_manager_init_build].
    - intros e. repeat keeps_manager_step. }
  destruct Hk as [Ht (evs & Hevs & Hall)]. split; [done|].
  exists evs. split; [done|]. intros Hin.
  by eapply Forall_forall in Hall; [|exact Hin].
Qed.

Lemma init_reuses_token_manager_witness :
  to_boolean (tokenManager running) = true ∧
  init steady_env running = (Ok (), (init steady_env running).2) ∧
  tokenManager (init steady_env running).2 = tokenManager running ∧
  ∃ evs, trace (sys (init steady_env running).2)
         = trace (sys running) ++ evs ∧
         EvInitializeSchwabAuthClient ∉ evs.
Proof.
  assert (H1 : to_boolean (tokenManager running) = true) by reflexivity.
  assert (H2 : init steady_env running
               = (Ok (), (init steady_env running).2))
    by (vm_compute; reflexivity).
  split; [assumption|]. split; [assumption|].
  exact (init_reuses_token_manager steady_env running _ _ H1 H2).
Defined.

(** *** What [init] does to the props, and what it leaves when it returns *)

Lemma to_boolean_object_ref (r : object_ref) : to_boolean (Some r) = true.
Proof. done. Qed.

(** The first part of [init], run to its end. *)
Lemma init_check_inv_ok E a a1 :
  init_check E a = (Ok (), a1) →
  ∃ config,
    server_tool E (trace (sys a)) TOOL_NAMES_STATUS = Ok () ∧
    getConfig E (trace (sys a) ++ [EvServerTool TOOL_NAMES_STATUS])
      = Ok config ∧
    validatedConfig a1 = Some config ∧
    trace (sys a1)
      = trace (sys a) ++ [EvServerTool TOOL_NAMES_STATUS; EvGetConfig] ∧
    kv (sys a1) = kv (sys a) ∧
    tokenManager a1 = tokenManager a ∧ client a1 = client a ∧
    pending a1 = pending a ∧
    props a1 = (if to_boolean (clientId (props a)) then props a
                else {| schwabUserId := schwabUserId (props a);
                        clientId := Some (SCHWAB_CLIENT_ID config) |}) ∧
    has_id (props a1).
Proof.
  unfold init_check. intros H.
  apply bind_inv_ok in H as ([] & s1 & H1 & H).
  apply lift_ext_inv_ok in H1 as [Htool ->].
  apply bind_inv_ok in H as (config & s2 & H2 & H).
  apply lift_ext_inv_ok in H2 as [Hcfg ->].
  apply bind_inv_ok in H as ([] & s3 & H3 & H). apply modify_inv in H3 as ->.
  apply bind_inv_ok in H as ([] & b & H4 & H).
  unfold backfillClientId in H4. apply modify_inv in H4.
  apply bind_inv_ok in H as (ids & s5 & H5 & H).
  injection H5 as <- <-.
  apply bind_inv_ok in H as (key & s6 & H6 & H).
  apply of_result_inv in H6 as [Hkey ->].
  injection H as <-.
  exists config. cbn [sys with_sys trace emit] in Hcfg.
  split; [done|]. split; [done|].
  assert (Hid : has_id (props b)).
  { apply has_id_generateKey. by exists key. }
  cbn [props with_validatedConfig with_sys] in H4.
  destruct (to_boolean (clientId (props a))); cbn [negb] in H4; subst b;
    cbn; by norm_trace.
Qed.

(** The second part of [init], run to its end. *)
Lemma init_build_inv_ok E a a' :
  init_build E a = (Ok (), a') →
  to_boolean (tokenManager a') = true ∧
  client a' = Some (ObjectRef (length (trace (sys a')) - 1)) ∧
  props a' = props a ∧ validatedConfig a' = validatedConfig a ∧
  ∃ evs, trace (sys a')
         = trace (sys a) ++ evs ++ [EvCreateApiClient; EvRegisterTools].
Proof.
  unfold init_build. intros H.
  apply bind_inv_ok in H as (a0 & s0 & H0 & H).
  apply get_inv in H0 as [-> ->].
  apply bind_inv_ok in H as ([] & b1 & H1 & H).
  assert (Hb1 : to_boolean (tokenManager b1) = true ∧ props b1 = props a ∧
                validatedConfig b1 = validatedConfig a ∧
                ∃ evs, trace (sys b1) = trace (sys a) ++ evs).
  { destruct (to_boolean (tokenManager a)) eqn:Htm; cbn [negb] in H1.
    - injection H1 as <-. repeat split; [done|]. exists []. by rewrite app_nil_r.
    - unfold createTokenManager in H1.
      apply bind_inv_ok in H1 as ([] & s2 & H2 & H1).
      apply lift_ext_inv_ok in H2 as [_ ->]. apply modify_inv in H1 as ->.
      repeat split. by eexists. }
  destruct Hb1 as (Htm1 & Hp1 & Hc1 & evs1 & Ht1).
  apply bind_inv_ok in H as ([] & b2 & H2 & H).
  apply (quiet_initialize_detached any_event) in H2
    as [(Hp2 & Htm2 & _ & Hc2) (evs2 & Ht2 & _)]; [|done].
  apply bind_inv_ok in H as (a0 & s0 & H0 & H).
  apply get_inv in H0 as [-> ->].
  apply bind_inv_ok in H as ([] & b3 & H3 & H).
  assert (Hb3 : same_refs b2 b3 ∧ extends_by any_event (sys b2) (sys b3)).
  { destruct (_ && _).
    - revert H3. apply quiet_any_await, quiet_lift_migrateIfNeeded.
    - injection H3 as <-.
      split; [apply same_refs_refl | apply extends_by_refl]. }
  destruct Hb3 as [(Hp3 & Htm3 & _ & Hc3) (evs3 & Ht3 & _)].
  apply bind_inv_ok in H as ([] & b4 & H4 & H).
  apply lift_ext_inv_ok in H4 as [_ ->].
  apply bind_inv_ok in H as ([] & b5 & H5 & H). apply modify_inv in H5 as ->.
  apply lift_ext_inv_ok in H as [_ ->].
  cbn [sys props tokenManager client validatedConfig with_sys with_client
       emit trace].
  split; [congruence|]. split.
  { do 2 f_equal. rewrite !length_app. cbn [length]. lia. }
  split; [congruence|]. split; [congruence|].
  exists (evs1 ++ evs2 ++ evs3). rewrite Ht3, Ht2, Ht1. by norm_trace.
Qed.

(** X15 (src/index.ts, init): when [init] returns, the actor holds a token
    manager, the API client that this run constructed (the call before
    last in the history), and the configuration that [getConfig] gave this
    run; its props carry an identifier; and the run began by registering
    the status tool and reading the configuration and ended by
    constructing the client and registering the tools. *)
Theorem init_success_state E a a' :
  init E a = (Ok (), a') →
  to_boolean (tokenManager a') = true ∧
  client a' = Some (ObjectRef (length (trace (sys a')) - 1)) ∧
  (∃ config,
     getConfig E (trace (sys a) ++ [EvServerTool TOOL_NAMES_STATUS])
       = Ok config ∧
     validatedConfig a' = Some config) ∧
  has_id (props a') ∧
  ∃ evs, trace (sys a')
         = trace (sys a) ++ [EvServerTool TOOL_NAMES_STATUS; EvGetConfig]
           ++ evs ++ [EvCreateApiClient; EvRegisterTools].
Proof.
  unfold init. intros H. apply try_catch_rethrow_inv_ok in H.
  rewrite init_body_split in H.
  apply bind_inv_ok in H as ([] & a1 & Hcheck & Hbuild).
  apply init_check_inv_ok in Hcheck
    as (config & _ & Hcfg & Hvc & Htr & _ & _ & _ & _ & _ & Hid).
  apply init_build_inv_ok in Hbuild as (Htm & Hcl & Hp & Hc & evs & Hevs).
  split; [done|]. split; [done|].
  split; [exists config; split; [done | congruence]|].
  split; [congruence|].
  exists evs. rewrite Hevs, Htr. by norm_trace.
Qed.

Lemma init_success_state_witness :
  let a' := (init steady_env (fresh KvTokenStore.empty_sys both_ids)).2 in
  init steady_env (fresh KvTokenStore.empty_sys both_ids) = (Ok (), a') ∧
  to_boolean (tokenManager a') = true ∧
  client a' = Some (ObjectRef (length (trace (sys a')) - 1)) ∧
  (∃ config,
     getConfig steady_env
       (trace (sys (fresh KvTokenStore.empty_sys both_ids))
        ++ [EvServerTool TOOL_NAMES_STATUS]) = Ok config ∧
     validatedConfig a' = Some config) ∧
  has_id (props a') ∧
  ∃ evs, trace (sys a')
         = trace (sys (fresh KvTokenStore.empty_sys both_ids))
           ++ [EvServerTool TOOL_NAMES_STATUS; EvGetConfig]
           ++ evs ++ [EvCreateApiClient; EvRegisterTools].
Proof.
  intros a'.
  assert (H : init steady_env (fresh KvTokenStore.empty_sys both_ids)
              = (Ok (), a')) by (vm_compute; reflexivity).
  split; [assumption|].
  exact (init_success_state steady_env _ a' H).
Defined.

Lemma init_check_props E a rc a1 :
  init_check E a = (rc, a1) →
  schwabUserId (props a1) = schwabUserId (props a) ∧
  (clientId (props a1) = clientId (props a) ∨
   to_boolean (clientId (props a)) = false ∧
   ∃ config,
     server_tool E (trace (sys a)) TOOL_NAMES_STATUS = Ok () ∧
     getConfig E (trace (sys a) ++ [EvServerTool TOOL_NAMES_STATUS])
       = Ok config ∧
     clientId (props a1) = Some (SCHWAB_CLIENT_ID config)).
Proof.
  unfold init_check.
  cbv [bind lift ext modify backfillClientId getTokenIds of_result ret].
  cbn [sys props with_sys with_validatedConfig trace emit].
  destruct (server_tool E _ _) as [[]|e] eqn:Htool;
    [|intros [= <- <-]; by split; [|left]].
  destruct (getConfig E _) as [config|e] eqn:Hcfg;
    [|intros [= <- <-]; by split; [|left]].
  destruct (to_boolean (clientId (props a))) eqn:Hc; cbn [negb];
    destruct (KvTokenStore.kvKey _); intros [= <- <-]; cbn;
    (split; [done|]);
    first [by left | right; split; [done|]; by exists config].
Qed.

(** X16 (src/index.ts, init, lines 83-86): whatever [init] does, returning
    or throwing, it never touches the Schwab user id of the props, and the
    client id changes in one case only: it was missing or empty, the status
    tool was registered and the configuration was read, and the client id
    is now the configured [SCHWAB_CLIENT_ID]. *)
Theorem init_changes_props_only_by_backfill E a r a' :
  init E a = (r, a') →
  schwabUserId (props a') = schwabUserId (props a) ∧
  (clientId (props a') = clientId (props a) ∨
   to_boolean (clientId (props a)) = false ∧
   ∃ config,
     server_tool E (trace (sys a)) TOOL_NAMES_STATUS = Ok () ∧
     getConfig E (trace (sys a) ++ [EvServerTool TOOL_NAMES_STATUS])
       = Ok config ∧
     clientId (props a') = Some (SCHWAB_CLIENT_ID config)).
Proof.
  unfold init, try_catch. rewrite init_body_split. unfold bind at 1.
  destruct (init_check E a) as [[[]|e] a1] eqn:Hc;
    apply init_check_props in Hc as [Hu Hcl].
  - destruct (init_build E a1) as [[[]|e] a2] eqn:Hb;
      apply keeps_props_init_build in Hb.
    + intros [= <- <-]. by rewrite Hb.
    + cbv [bind lift log throw]. intros [= <- <-]. cbn [props with_sys].
      by rewrite Hb.
  - cbv [bind lift log throw]. by intros [= <- <-].
Qed.

(** A session that arrives with the Schwab user id only. *)
Definition user_only : MyMCPProps :=
  {| schwabUserId := Some "u1"; clientId := None |}.

Lemma init_changes_props_only_by_backfill_witness :
  let a := fresh KvTokenStore.empty_sys user_only in
  let a' := (init steady_env a).2 in
  init steady_env a = (Ok (), a') ∧
  schwabUserId (props a') = schwabUserId (props a) ∧
  (clientId (props a') = clientId (props a) ∨
   to_boolean (clientId (props a)) = false ∧
   ∃ config,
     server_tool steady_env (trace (sys a)) TOOL_NAMES_STATUS = Ok () ∧
     getConfig steady_env (trace (sys a) ++ [EvServerTool TOOL_NAMES_STATUS])
       = Ok config ∧
     clientId (props a') = Some (SCHWAB_CLIENT_ID config)).
Proof.
  intros a a'.
  assert (H : init steady_env a = (Ok (), a')) by (vm_compute; reflexivity).
  split; [assumption|].
  exact (init_changes_props_only_by_backfill steady_env a _ a' H).
Defined.

(** The backfill at work: the session above ends with both identifiers,
    the client id being the configured one. *)
Example init_backfills_client_id :
  props (init steady_env (fresh KvTokenStore.empty_sys user_only)).2
  = {| schwabUserId := Some "u1";
       clientId := Some (SCHWAB_CLIENT_ID AuthHandler.example_config) |}.
Proof. vm_compute. reflexivity. Qed.


(** *** [init] and a migration that throws *)

Section Doomed.
Variable I : Actor → Prop.
Variable R : Actor → Actor → Prop.
Hypothesis R_trans : ∀ a b c, R a b → R b c → R a c.
Hypothesis I_R : ∀ a b, I a → R a b → I b.

(** From a state in [I], [m] throws, and what it did before is within
    [R]. *)
Definition dooms {A} (m : M Actor A) : Prop :=
  ∀ a r a', I a → m a = (r, a') → (∃ e, r = Throw e) ∧ R a a'.

Lemma dooms_bind_r {A B} (m : M Actor A) (k : A → M Actor B) :
  guarded I R m → (∀ x, dooms (k x)) → dooms (bind m k).
Proof using R_trans I_R.
  intros Hm Hk a r a' Ha. unfold bind.
  destruct (m a) as [[x|e] a1] eqn:Hrun.
  - intros Hrun'. pose proof (Hm _ _ _ Ha Hrun) as H1.
    destruct (Hk x a1 r a' (I_R _ _ Ha H1) Hrun') as [? H2]. eauto.
  - intros [= <- <-]. split; [by eexists | by eapply Hm].
Qed.

Lemma dooms_bind_l {A B} (m : M Actor A) (k : A → M Actor B) a r a' :
  (∀ r1 a1, m a = (r1, a1) → (∃ e, r1 = Throw e) ∧ R a a1) →
  bind m k a = (r, a') → (∃ e, r = Throw e) ∧ R a a'.
Proof using Type.
  intros Hm. unfold bind. destruct (m a) as [r1 a1].
  destruct (Hm r1 a1 eq_refl) as [[e ->] ?]. intros [= <- <-]. eauto.
Qed.

Lemma dooms_try_catch {A} (m : M Actor A) (h : exn → M Actor A) :
  dooms m → (∀ e, dooms (h e)) → dooms (try_catch m h).
Proof using R_trans I_R.
  intros Hm Hh a r a' Ha. unfold try_catch.
  destruct (m a) as [[x|e] a1] eqn:Hrun.
  - by destruct (Hm _ _ _ Ha Hrun) as [[? ?] _].
  - intros Hrun'. destruct (Hm _ _ _ Ha Hrun) as [_ H1].
    destruct (Hh e a1 r a' (I_R _ _ Ha H1) Hrun') as [? H2]. eauto.
Qed.
End Doomed.

Lemma migrateIfNeeded_throws E fromIds toIds s :
  (∀ h m f t, ∃ e m', KvTokenStore.sdk_migrate E h m f t = (Throw e, m')) →
  ∃ e s', KvTokenStore.migrateIfNeeded E fromIds toIds s = (Throw e, s').
Proof.
  intros Hrej.
  unfold KvTokenStore.migrateIfNeeded, KvTokenStore.migrate, bind.
  destruct (Hrej (trace s) (kv s) fromIds toIds) as (e & m' & ->). eauto.
Qed.

(** Anything but the construction of the API client and the registration of
    the tools. *)
Definition before_client (e : event) : Prop :=
  match e with
  | EvCreateApiClient | EvRegisterTools => False
  | _ => True
  end.

Definition both_present (a : Actor) : Prop :=
  to_boolean (schwabUserId (props a)) && to_boolean (clientId (props a))
  = true.

Definition keeps_client (a a' : Actor) : Prop :=
  props a' = props a ∧ client a' = client a ∧
  extends_by before_client (sys a) (sys a').

Lemma keeps_client_refl a : keeps_client a a.
Proof. split; [done|]. split; [done | apply extends_by_refl]. Qed.

Lemma keeps_client_trans a b c :
  keeps_client a b → keeps_client b c → keeps_client a c.
Proof.
  intros (? & ? & ?) (? & ? & ?).
  split; [congruence|]. split; [congruence | by eapply extends_by_trans].
Qed.

Lemma keeps_client_both a b :
  both_present a → keeps_client a b → both_present b.
Proof. unfold both_present. intros Ha (Hb & _). by rewrite Hb. Qed.

Lemma keeps_client_quiet a a' :
  same_refs a a' → extends_by before_client (sys a) (sys a') →
  keeps_client a a'.
Proof. intros (? & _ & ? & _) ?. by repeat split. Qed.

Lemma await_ok_before_client : await_ok before_client.
Proof. by repeat split. Qed.

Ltac keeps_client_step :=
  first
    [ apply guarded_ret; apply keeps_client_refl
    | apply guarded_throw; apply keeps_client_refl
    | apply guarded_of_result; apply keeps_client_refl
    | apply guarded_getTokenIds; apply keeps_client_refl
    | apply guarded_bind;
        [apply keeps_client_trans | apply keeps_client_both | | intros ?]
    | apply guarded_if
    | apply guarded_modify; intros ?; split; [reflexivity|];
        split; [reflexivity | apply extends_by_refl]
    | eapply guarded_quiet;
        [apply keeps_client_quiet
        |apply quiet_lift, sys_quiet_ext; exact Logic.I]
    | eapply guarded_quiet;
        [apply keeps_client_quiet
        |apply quiet_lift, sys_quiet_log; exact Logic.I]
    | eapply guarded_quiet;
        [apply keeps_client_quiet
        |apply quiet_initialize_detached; intros ?; exact Logic.I] ].

Lemma keeps_client_init_check E :
  guarded both_present keeps_client (init_check E).
Proof.
  unfold init_check. do 4 keeps_client_step.
  { intros a r a' Ha. unfold backfillClientId, modify. intros [= <- <-].
    apply andb_prop in Ha as [_ ->]. apply keeps_client_refl. }
  repeat keeps_client_step.
Qed.

Lemma dooms_init_build E :
  (∀ h m f t, ∃ e m',
     KvTokenStore.sdk_migrate (store E) h m f t = (Throw e, m')) →
  dooms both_present keeps_client (init_build E).
Proof.
  intros Hrej. unfold init_build.
  apply dooms_bind_r;
    [apply keeps_client_trans | apply keeps_client_both | |intros a0].
  { intros a r a' _ [= <- <-]. apply keeps_client_refl. }
  apply dooms_bind_r;
    [apply keeps_client_trans | apply keeps_client_both | |intros []].
  { unfold createTokenManager. repeat keeps_client_step. }
  apply dooms_bind_r;
    [apply keeps_client_trans | apply keeps_client_both | |intros []].
  { keeps_client_step. }
  intros a r a' Ha. unfold bind at 1, get. red in Ha. rewrite Ha.
  apply dooms_bind_l. intros r1 a1 Hrun.
  pose proof Hrun as Hq.
  apply (quiet_await' before_client) in Hq as [Hr He];
    [|apply await_ok_before_client
     |by apply quiet_lift, sys_quiet_migrateIfNeeded].
  split; [|by apply keeps_client_quiet].
  revert Hrun. unfold await, lift.
  destruct (migrateIfNeeded_throws (store E)
              (SchwabApi.byClientId (default "" (clientId (props a))))
              (SchwabApi.byUserId (default "" (schwabUserId (props a))))
              (sys a) Hrej) as (e & s' & ->).
  destruct (settle E _). intros [= <- _]. by exists e.
Qed.

(** X17 (src/index.ts, init, lines 172-178, with migrateIfNeeded of
    src/shared/kvTokenStore.ts): for a session whose props carry both
    identifiers, in a world where the SDK's [migrate] throws, [init] cannot
    return: it throws, and it gets no further than the migration, so the
    actor keeps the API client it had (none, the first time) and neither
    [createApiClient] nor the registration of the tools is reached. *)
Theorem init_fails_when_migration_throws E a r a' :
  (∀ h m f t, ∃ e m',
     KvTokenStore.sdk_migrate (store E) h m f t = (Throw e, m')) →
  to_boolean (schwabUserId (props a)) = true →
  to_boolean (clientId (props a)) = true →
  init E a = (r, a') →
  (∃ e, r = Throw e) ∧ client a' = client a ∧
  ∃ evs, trace (sys a') = trace (sys a) ++ evs ∧
         (EvCreateApiClient ∉ evs) ∧ (EvRegisterTools ∉ evs).
Proof.
  intros Hrej Hu Hc Hrun.
  assert (Ha : both_present a) by (red; by rewrite Hu, Hc).
  assert (Hd : dooms both_present keeps_client (init E)).
  { unfold init.
    apply dooms_try_catch;
      [apply keeps_client_trans | apply keeps_client_both | |intros e].
    - intros b rb b' Hb. rewrite init_body_split. revert b rb b' Hb.
      apply dooms_bind_r;
        [apply keeps_client_trans | apply keeps_client_both
        |apply keeps_client_init_check
        |intros []; by apply dooms_init_build].
    - apply dooms_bind_r;
        [apply keeps_client_trans | apply keeps_client_both
        |keeps_client_step|intros []].
      intros b rb b' _ [= <- <-]. split; [by eexists|].
      apply keeps_client_refl. }
  destruct (Hd a r a' Ha Hrun) as [Hthrow (_ & Hcl & evs & Hevs & Hall)].
  split; [done|]. split; [done|]. exists evs. split; [done|].
  split; intros Hin; by eapply Forall_forall in Hall; [|exact Hin].
Qed.

(** A world for the premise of the statement above, and for nothing else:
    it is like [steady_env], except that the [migrate] of its SDK store
    throws.  The SDK is not among the sources; whether its [migrate] can
    throw is not settled here. *)
Definition throwing_migrate_env : Env :=
  {| store :=
       {| KvTokenStore.kv_fault := KvTokenStore.reliable_kv;
          KvTokenStore.sdk_migrate :=
            λ _ m _ _, (Throw (JsError "migrate failed"), m);
          KvTokenStore.sdk_generateKey := KvTokenStore.generateKey |};
     getConfig := getConfig steady_env;
     server_tool := server_tool steady_env;
     initializeSchwabAuthClient := initializeSchwabAuthClient steady_env;
     tm_initialize := tm_initialize steady_env;
     tm_getAccessToken := tm_getAccessToken steady_env;
     createApiClient := createApiClient steady_env;
     registerTools := registerTools steady_env;
     super_onSSE := super_onSSE steady_env;
     settles := settles steady_env |}.

Lemma init_fails_when_migration_throws_witness :
  let a := fresh KvTokenStore.empty_sys both_ids in
  let a' := (init throwing_migrate_env a).2 in
  (∀ h m f t, ∃ e m',
     KvTokenStore.sdk_migrate (store throwing_migrate_env) h m f t
     = (Throw e, m')) ∧
  to_boolean (schwabUserId (props a)) = true ∧
  to_boolean (clientId (props a)) = true ∧
  init throwing_migrate_env a = (Throw (JsError "migrate failed"), a') ∧
  (∃ e, Throw (A := ()) (JsError "migrate failed") = Throw e) ∧
  client a' = client a ∧
  ∃ evs, trace (sys a') = trace (sys a) ++ evs ∧
         (EvCreateApiClient ∉ evs) ∧ (EvRegisterTools ∉ evs).
Proof.
  intros a a'.
  assert (H0 : ∀ h m f t, ∃ e m',
            KvTokenStore.sdk_migrate (store throwing_migrate_env) h m f t
            = (Throw e, m')) by (intros; cbn; eauto).
  assert (H1 : to_boolean (schwabUserId (props a)) = true) by reflexivity.
  assert (H2 : to_boolean (clientId (props a)) = true) by reflexivity.
  assert (H3 : init throwing_migrate_env a
               = (Throw (JsError "migrate failed"), a'))
    by (vm_compute; reflexivity).
  split; [assumption|]. split; [assumption|]. split; [assumption|].
  split; [assumption|].
  exact (init_fails_when_migration_throws throwing_migrate_env a _ a'
           H0 H1 H2 H3).
Defined.

(** What that session's history looks like: the un-awaited [initialize()]
    was started, the migration threw, the failure was logged. *)
Example init_throwing_migration_trace :
  trace (sys (init throwing_migrate_env
                (fresh KvTokenStore.empty_sys both_ids)).2)
  = [EvServerTool TOOL_NAMES_STATUS; EvGetConfig;
     EvInitializeSchwabAuthClient; EvTmInitializeCalled 3;
     EvSdkMigrate (SchwabApi.byClientId "c1") (SchwabApi.byUserId "u1");
     EvLog LError "[MyMCP.init] FINAL CATCH: UNHANDLED EXCEPTION in init()"].
Proof. vm_compute. reflexivity. Qed.


(** *** Recovery by the soft reload, and recovery without a manager *)

(** What tiers 1 and 2 can add to the history: log lines, the probe, the
    call of [initialize()] and its settling, and accesses to the store. *)
Definition is_reload_event (e : event) : Prop :=
  match e with
  | EvLog _ _ | EvKvGet _ | EvKvPut _ _ | EvTmGetAccessToken
  | EvTmInitializeCalled _ | EvTmInitializeSettled _ => True
  | _ => False
  end.

Lemma await_ok_is_reload_event : await_ok is_reload_event.
Proof. by repeat split. Qed.

Lemma quiet_probe E : quiet is_reload_event (probe E).
Proof.
  unfold probe. apply quiet_try_catch; [|intros e].
  - apply quiet_bind; [by apply quiet_lift, sys_quiet_log|intros []].
    apply quiet_bind; [|intros token].
    + unfold getAccessToken.
      apply quiet_await'; [apply await_ok_is_reload_event|].
      apply (quiet_tm_call is_reload_event E EvTmGetAccessToken
               (tm_getAccessToken E));
        [apply await_ok_is_reload_event | done].
    + destruct (to_boolean token); [|apply quiet_ret].
      apply quiet_bind; [by apply quiet_lift, sys_quiet_log|intros []].
      apply quiet_ret.
  - apply quiet_bind; [by apply quiet_lift, sys_quiet_log|intros []].
    apply quiet_ret.
Qed.

Lemma quiet_reload E : quiet is_reload_event (reload E).
Proof.
  unfold reload. apply quiet_try_catch; [|intros e].
  - apply quiet_bind; [by apply quiet_lift, sys_quiet_log|intros []].
    apply quiet_bind; [|intros initResult].
    + unfold initialize_awaited.
      apply quiet_await'; [apply await_ok_is_reload_event|].
      intros a r a'.
      destruct (run_tm _ _ _ _) as [r1 a1] eqn:Hrun. intros [= <- <-].
      apply (quiet_tm_call is_reload_event E
               (EvTmInitializeCalled (length (trace (sys a))))
               (tm_initialize E)) in Hrun as [Hr He];
        [|apply await_ok_is_reload_event | done].
      split.
      * eapply same_refs_trans; [exact Hr | apply same_refs_with_sys].
      * cbn [sys with_sys].
        eapply extends_by_trans; [exact He | by apply extends_by_emit].
    + apply quiet_bind; [by apply quiet_lift, sys_quiet_log|intros []].
      apply quiet_ret.
  - apply quiet_bind; [by apply quiet_lift, sys_quiet_log|intros []].
    apply quiet_ret.
Qed.

(** X18 (src/index.ts, onReconnect, tiers 1 and 2): if a token manager
    exists, the liveness probe fails (it yields no token, or throws and is
    caught) and the awaited [initialize()] of tier 2 answers [true], then
    [onReconnect] returns [true] without a full reinitialization: the token
    manager, the API client, the props and the configuration are the same
    as before, and the history grows only by log lines, the probe, the
    call of [initialize()] and accesses to the store. *)
Theorem onReconnect_reload_success E a a1 a2 :
  to_boolean (tokenManager a) = true →
  probe E (at_tier1 a) = (Ok false, a1) →
  reload E a1 = (Ok true, a2) →
  onReconnect E a = (Ok true, a2) ∧
  same_refs a a2 ∧
  extends_by is_reload_event (sys a) (sys a2).
Proof.
  intros Htm Hprobe Hreload. split.
  - unfold onReconnect, recover.
    cbv [bind try_catch lift log get ret]. cbn [sys tokenManager with_sys].
    rewrite Htm. cbn [negb].
    rewrite !sys_with_sys, !with_sys_idem.
    unfold at_tier1 in Hprobe. by rewrite Hprobe, Hreload.
  - apply quiet_probe in Hprobe as [Hr1 He1].
    apply quiet_reload in Hreload as [Hr2 He2]. split.
    + eapply same_refs_trans; [|exact Hr2].
      eapply same_refs_trans; [|exact Hr1].
      unfold at_tier1. apply same_refs_with_sys.
    + eapply extends_by_trans; [|exact He2].
      eapply extends_by_trans; [|exact He1].
      unfold at_tier1. cbn [sys with_sys].
      repeat (eapply extends_by_trans; [|by apply extends_by_emit]).
      apply extends_by_refl.
Qed.

(** A world whose token manager has lost its access token and recovers it
    when [initialize()] is called again. *)
Definition reloadable_env : Env :=
  {| store := store steady_env;
     getConfig := getConfig steady_env;
     server_tool := server_tool steady_env;
     initializeSchwabAuthClient := initializeSchwabAuthClient steady_env;
     tm_initialize := λ _, TmLoad (λ _, TmRet (Ok true));
     tm_getAccessToken := λ _, TmRet (Ok None);
     createApiClient := createApiClient steady_env;
     registerTools := registerTools steady_env;
     super_onSSE := super_onSSE steady_env;
     settles := settles steady_env |}.

Lemma onReconnect_reload_success_witness :
  let a1 := (probe reloadable_env (at_tier1 running)).2 in
  let a2 := (reload reloadable_env a1).2 in
  to_boolean (tokenManager running) = true ∧
  probe reloadable_env (at_tier1 running) = (Ok false, a1) ∧
  reload reloadable_env a1 = (Ok true, a2) ∧
  onReconnect reloadable_env running = (Ok true, a2) ∧
  same_refs running a2 ∧
  extends_by is_reload_event (sys running) (sys a2).
Proof.
  intros a1 a2.
  assert (H1 : to_boolean (tokenManager running) = true) by reflexivity.
  assert (H2 : probe reloadable_env (at_tier1 running) = (Ok false, a1))
    by (vm_compute; reflexivity).
  assert (H3 : reload reloadable_env a1 = (Ok true, a2))
    by (vm_compute; reflexivity).
  split; [assumption|]. split; [assumption|]. split; [assumption|].
  exact (onReconnect_reload_success reloadable_env running a1 a2 H1 H2 H3).
Defined.

(** The history of that recovery. *)
Example onReconnect_reload_trace :
  trace (sys (onReconnect reloadable_env running).2)
  = [EvLog LInfo "Handling reconnection in MyMCP instance";
     EvLog LInfo "Attempting reconnection via token manager";
     EvLog LInfo "Attempting to fetch access token as recovery test";
     EvTmGetAccessToken;
     EvLog LInfo "Attempting proactive reinitialization of token manager";
     EvTmInitializeCalled 5; EvKvGet "token:c1"; EvTmInitializeSettled 5;
     EvLog LInfo "Token manager reinitialization succeeded"].
Proof. vm_compute. reflexivity. Qed.

(** What an [await] adds to the operation it waits for: promises started
    earlier may settle, which touches the store and nothing the actor
    holds. *)
Lemma await_inv {A} E (m : M Actor A) a r a2 :
  await E m a = (r, a2) →
  ∃ a1, m a = (r, a1) ∧ same_refs a1 a2 ∧
        extends_by is_reload_event (sys a1) (sys a2).
Proof.
  unfold await. destruct (m a) as [r1 a1].
  destruct (settle E a1) as [r2 a2'] eqn:Hs. intros [= <- <-].
  exists a1. split; [done|].
  by apply (quiet_settle is_reload_event) in Hs.
Qed.

(** The actor as it stands when [init] starts in the branch of
    [onReconnect] that finds no token manager. *)
Definition at_tier0 (a : Actor) : Actor :=
  with_sys
    (emit (EvLog LWarn
             "Token manager not initialized, attempting full initialization")
       (emit (EvLog LInfo "Handling reconnection in MyMCP instance") (sys a)))
    a.

(** X19 (src/index.ts, onReconnect, lines 236-241): an actor without a
    token manager is recovered by a full [init], with no probe and no
    reload before it: when that [init] returns, [onReconnect] returns
    [true], and the actor now holds a token manager and an API client and
    its props carry an identifier. *)
Theorem onReconnect_without_manager E a a1 :
  to_boolean (tokenManager a) = false →
  await E (init E) (at_tier0 a) = (Ok (), a1) →
  onReconnect E a = (Ok true, a1) ∧
  to_boolean (tokenManager a1) = true ∧
  to_boolean (client a1) = true ∧
  has_id (props a1).
Proof.
  intros Htm Hinit. split.
  - unfold onReconnect, recover.
    cbv [bind try_catch lift log get ret]. cbn [sys tokenManager with_sys].
    rewrite Htm. cbn [negb].
    rewrite !sys_with_sys, !with_sys_idem.
    unfold at_tier0 in Hinit. by rewrite Hinit.
  - apply await_inv in Hinit as (a0 & Hinit & (Hp & Ht & Hc & _) & He).
    unfold init in Hinit. apply try_catch_rethrow_inv_ok in Hinit.
    rewrite init_body_split in Hinit.
    apply bind_inv_ok in Hinit as ([] & b & Hcheck & Hbuild).
    apply init_check_inv_ok in Hcheck
      as (config & _ & _ & _ & Htr & _ & _ & _ & _ & _ & Hid).
    apply init_build_inv_ok in Hbuild as (Htm' & Hcl & Hp' & _ & evs & Hevs).
    split; [congruence|]. split; [by rewrite Hc, Hcl|]. congruence.
Qed.

Lemma onReconnect_without_manager_witness :
  let a := fresh KvTokenStore.empty_sys client_only in
  let a1 := (await steady_env (init steady_env) (at_tier0 a)).2 in
  to_boolean (tokenManager a) = false ∧
  await steady_env (init steady_env) (at_tier0 a) = (Ok (), a1) ∧
  onReconnect steady_env a = (Ok true, a1) ∧
  to_boolean (tokenManager a1) = true ∧
  to_boolean (client a1) = true ∧
  has_id (props a1).
Proof.
  intros a a1.
  assert (H1 : to_boolean (tokenManager a) = false) by reflexivity.
  assert (H2 : await steady_env (init steady_env) (at_tier0 a) = (Ok (), a1))
    by (vm_compute; reflexivity).
  split; [assumption|]. split; [assumption|].
  exact (onReconnect_without_manager steady_env a a1 H1 H2).
Defined.

(** *** [onSSE] *)

Lemma onReconnect_returns E a : ∃ b a', onReconnect E a = (Ok b, a').
Proof.
  unfold onReconnect. unfold bind at 1, try_catch at 1.
  destruct (lift _ a) as [[[]|e0] a0] eqn:Hlog; [|by cbv in Hlog].
  destruct (recover E a0) as [[b|e] a1]; [eauto|].
  apply emergency_returns.
Qed.

(** The actor as it stands when [onSSE] calls [onReconnect]. *)
Definition at_onSSE (a : Actor) : Actor :=
  with_sys
    (emit (EvLog LInfo "SSE connection established or reconnected") (sys a)) a.

(** X20 (src/index.ts, onSSE, lines 325-329): [onSSE] always hands the
    event to [super.onSSE], exactly once and after the recovery, whatever
    the recovery answered; its outcome is the outcome of [super.onSSE], so
    it throws only when [super.onSSE] does; and after the recovery it
    changes nothing the actor holds. *)
Theorem onSSE_delegates_after_recovery E a :
  let a1 := (await E (onReconnect E) (at_onSSE a)).2 in
  ∃ a' evs,
    onSSE E a = (super_onSSE E (trace (sys a1)), a') ∧
    same_refs a1 a' ∧
    trace (sys a') = trace (sys a1) ++ EvSuperOnSSE :: evs ∧
    EvSuperOnSSE ∉ evs.
Proof.
  intros a1. subst a1. unfold onSSE. unfold bind at 1.
  replace (lift (log LInfo "SSE connection established or reconnected") a)
    with (Ok (), at_onSSE a) by reflexivity.
  unfold bind at 1.
  destruct (await E (onReconnect E) (at_onSSE a)) as [r1 a1] eqn:Hrec.
  cbn [snd].
  assert (Hok : ∃ b, r1 = Ok b).
  { apply await_inv in Hrec as (a0 & Hrec & _).
    destruct (onReconnect_returns E (at_onSSE a)) as (b & a0' & Hb).
    rewrite Hb in Hrec. injection Hrec as <- _. by exists b. }
  destruct Hok as [b ->].
  destruct (await E (lift (ext EvSuperOnSSE (super_onSSE E))) a1)
    as [r a'] eqn:Hsuper.
  apply await_inv in Hsuper as (a2 & Hsuper & Hr & evs & Hevs & Hall).
  unfold lift, ext in Hsuper. injection Hsuper as <- <-.
  exists a', evs. split; [done|]. split.
  { eapply same_refs_trans; [apply same_refs_with_sys | exact Hr]. }
  split.
  { rewrite Hevs. cbn [sys with_sys emit trace]. by norm_trace. }
  intros Hin. by eapply Forall_forall in Hall; [|exact Hin].
Qed.

(** [super.onSSE] is reached even when every tier of the recovery and the
    emergency reinitialization have failed. *)
Example onSSE_after_failed_recovery :
  (onReconnect dead_env (at_onSSE running)).1 = Ok false ∧
  (onSSE dead_env running).1 = Ok () ∧
  last (trace (sys (onSSE dead_env running).2)) = Some EvSuperOnSSE.
Proof. repeat split; vm_compute; reflexivity. Qed.

(** *** From the callback to the session *)

(** X21 (the write of src/unnamed/part_000, lines 299-329, read back
    through [loadTokenForETM] of src/index.ts, lines 114-127): after the
    callback has written a credential record under both keys, a session
    finds it through its load closure whichever identification its props
    carry: the Schwab user id (alone or next to any client id), or the
    client id alone. *)
Theorem session_finds_persisted_record (EA : AuthHandler.Env) (E : Env)
    (c u : string) (s : Sys) (data : json) (a : Actor) :
  c ≠ "" → u ≠ "" →
  (∀ h, KvTokenStore.kv_fault (AuthHandler.store EA) h = None) →
  (∀ h, KvTokenStore.kv_fault (store E) h = None) →
  kv s !! (KvTokenStore.TOKEN_KEY_PREFIX +:+ c) = Some data →
  to_boolean data = true →
  kv (sys a) = kv (AuthHandler.persistDualKey EA c u s).2 →
  schwabUserId (props a) = Some u ∨
  to_boolean (schwabUserId (props a)) = false ∧ clientId (props a) = Some c →
  (loadTokenForETM E a).1 = Ok (Some data).
Proof.
  intros Hc Hu HrelA Hrel Hrec Hdata Hkv Hprops.
  pose proof (KvTokenStore.generateKey_byClientId c Hc) as Hkc.
  pose proof (KvTokenStore.generateKey_byUserId u Hu) as Hku.
  assert (Hstep : ∃ h,
            AuthHandler.persistDualKey EA c u s
            = (Ok (),
               {| kv := <[KvTokenStore.TOKEN_KEY_PREFIX +:+ c := data]>
                          (<[KvTokenStore.TOKEN_KEY_PREFIX +:+ u := data]>
                             (kv s));
                  trace := h |})).
  { eexists. unfold AuthHandler.persistDualKey, KvTokenStore.kvKey.
    erewrite try_catch_ok; [reflexivity|].
    erewrite bind_ok by (by apply KvTokenStore.load_reliable).
    cbn [emit kv trace]. rewrite Hrec, Hdata.
    erewrite bind_ok by (by apply KvTokenStore.save_reliable).
    erewrite bind_ok by (by apply KvTokenStore.save_reliable).
    rewrite Hkc, Hku. run_monad. reflexivity. }
  destruct Hstep as [h Hstep]. rewrite Hstep in Hkv. cbn [snd kv] in Hkv.
  assert (Hkey : ∃ key,
            KvTokenStore.generateKey (token_ids a) = Ok key ∧
            (key = KvTokenStore.TOKEN_KEY_PREFIX +:+ u ∨
             key = KvTokenStore.TOKEN_KEY_PREFIX +:+ c)).
  { destruct Hprops as [Hpu|[Hpu Hpc]].
    - exists (KvTokenStore.TOKEN_KEY_PREFIX +:+ u). split; [|by left].
      by apply KvTokenStore.generateKey_user.
    - exists (KvTokenStore.TOKEN_KEY_PREFIX +:+ c). split; [|by right].
      unfold KvTokenStore.generateKey, token_ids. cbn.
      apply to_boolean_string_true in Hc.
      rewrite Hpc. destruct (schwabUserId (props a)) as [u'|]; cbn in *.
      + by rewrite Hpu, Hc.
      + by rewrite Hc. }
  destruct Hkey as (key & Hkey & Hcases).
  rewrite (loadTokenForETM_keyed E a key Hkey).
  unfold lift, KvTokenStore.kv_get. rewrite Hrel. cbn [fst]. f_equal.
  rewrite Hkv. destruct Hcases as [-> | ->].
  - destruct (decide (KvTokenStore.TOKEN_KEY_PREFIX +:+ c
                      = KvTokenStore.TOKEN_KEY_PREFIX +:+ u)) as [->|Hne].
    + by rewrite lookup_insert_eq.
    + by rewrite lookup_insert_ne, lookup_insert_eq.
  - by rewrite lookup_insert_eq.
Qed.

Lemma session_finds_persisted_record_witness :
  let s' := (AuthHandler.persistDualKey AuthHandler.example_env "c1" "u1"
               AuthHandler.pending_sys).2 in
  "c1" ≠ "" ∧ "u1" ≠ "" ∧
  (∀ h, KvTokenStore.kv_fault (AuthHandler.store AuthHandler.example_env) h
        = None) ∧
  (∀ h, KvTokenStore.kv_fault (store steady_env) h = None) ∧
  kv AuthHandler.pending_sys !! (KvTokenStore.TOKEN_KEY_PREFIX +:+ "c1")
  = Some AuthHandler.example_token ∧
  to_boolean AuthHandler.example_token = true ∧
  (loadTokenForETM steady_env (fresh s' user_only)).1
  = Ok (Some AuthHandler.example_token).
Proof.
  intros s'.
  assert (H1 : "c1" ≠ "") by discriminate.
  assert (H2 : "u1" ≠ "") by discriminate.
  assert (H3 : ∀ h, KvTokenStore.kv_fault
                      (AuthHandler.store AuthHandler.example_env) h = None)
    by reflexivity.
  assert (H4 : ∀ h, KvTokenStore.kv_fault (store steady_env) h = None)
    by reflexivity.
  assert (H5 : kv AuthHandler.pending_sys
                 !! (KvTokenStore.TOKEN_KEY_PREFIX +:+ "c1")
               = Some AuthHandler.example_token) by reflexivity.
  assert (H6 : to_boolean AuthHandler.example_token = true) by reflexivity.
  split; [assumption|]. split; [assumption|]. split; [assumption|].
  split; [assumption|]. split; [assumption|]. split; [assumption|].
  exact (session_finds_persisted_record AuthHandler.example_env steady_env
           "c1" "u1" AuthHandler.pending_sys AuthHandler.example_token
           (fresh s' user_only) H1 H2 H3 H4 H5 H6 eq_refl
           (or_introl eq_refl)).
Defined.

(** *** When [onReconnect] answers [false] *)

Lemma recover_ok_true E a b a' : recover E a = (Ok b, a') → b = true.
Proof.
  unfold recover. cbv [bind get lift log ret].
  destruct (negb (to_boolean (tokenManager a))).
  - destruct (await E (init E) _) as [[[]|e] a1]; by intros [= <- _].
  - destruct (probe E _) as [[[]|e] a1]; [by intros [= <- _]| |done].
    destruct (reload E a1) as [[[]|e] a2]; [by intros [= <- _]| |done].
    destruct (await E (init E) _) as [[[]|e] a3]; by intros [= <- _].
Qed.

(** The actor as it stands when the [try] block of [onReconnect] starts. *)
Definition at_recover (a : Actor) : Actor :=
  with_sys
    (emit (EvLog LInfo "Handling reconnection in MyMCP instance") (sys a)) a.

(** X22 (src/index.ts, onReconnect, lines 301-322): [onReconnect] answers
    [false] in one situation only: its [try] block threw, and the [init]
    that the [catch] block runs threw as well; the last thing it did was to
    log that the emergency reinitialization failed. *)
Theorem onReconnect_false_only_after_emergency E a a' :
  onReconnect E a = (Ok false, a') →
  ∃ e a3 e' a4,
    recover E (at_recover a) = (Throw e, a3) ∧
    await E (init E) (at_emergency a3) = (Throw e', a4) ∧
    a' = with_sys
           (emit (EvLog LError "Emergency reinitialization also failed")
              (sys a4)) a4.
Proof.
  unfold onReconnect. unfold bind at 1.
  replace (lift (log LInfo "Handling reconnection in MyMCP instance") a)
    with (Ok (), at_recover a) by reflexivity.
  unfold try_catch.
  destruct (recover E (at_recover a)) as [[b|e] a3] eqn:Hrec.
  - apply recover_ok_true in Hrec as ->. discriminate.
  - unfold emergency. cbv [bind try_catch lift log ret].
    rewrite ?sys_with_sys, ?with_sys_idem.
    fold (at_emergency a3).
    destruct (await E (init E) (at_emergency a3)) as [[[]|e'] a4] eqn:Hinit;
      [discriminate|].
    intros [= <-]. by exists e, a3, e', a4.
Qed.

Lemma onReconnect_false_only_after_emergency_witness :
  let a' := (onReconnect dead_env running).2 in
  onReconnect dead_env running = (Ok false, a') ∧
  ∃ e a3 e' a4,
    recover dead_env (at_recover running) = (Throw e, a3) ∧
    await dead_env (init dead_env) (at_emergency a3) = (Throw e', a4) ∧
    a' = with_sys
           (emit (EvLog LError "Emergency reinitialization also failed")
              (sys a4)) a4.
Proof.
  intros a'.
  assert (H : onReconnect dead_env running = (Ok false, a'))
    by (vm_compute; reflexivity).
  split; [assumption|].
  exact (onReconnect_false_only_after_emergency dead_env running a' H).
Defined.


(** *** Recovery on a server that refuses a second registration *)

(** [this.server.tool(name, ...)] belongs to the MCP SDK, which is not among
    the sources.  Its server keeps the registered tools by name and refuses
    a name that it already holds ("Tool status is already registered").  In
    terms of the history, [name] is held when a registration of it has
    returned before. *)
Definition registered (E : Env) (h : list event) (name : string) : Prop :=
  ∃ h1 h2, h = h1 ++ EvServerTool name :: h2 ∧ server_tool E h1 name = Ok ().

Definition rejects_duplicates (E : Env) : Prop :=
  ∀ h name, registered E h name → ∃ e, server_tool E h name = Throw e.

Lemma registered_app E h evs name :
  registered E h name → registered E (h ++ evs) name.
Proof.
  intros (h1 & h2 & -> & Hok). exists h1, (h2 ++ evs).
  split; [|done]. by rewrite <- app_assoc.
Qed.

Lemma registered_extends P E a a' name :
  extends_by P (sys a) (sys a') →
  registered E (trace (sys a)) name → registered E (trace (sys a')) name.
Proof. intros (evs & -> & _). apply registered_app. Qed.

(** The history only grows. *)
Definition grows (a a' : Actor) : Prop :=
  extends_by any_event (sys a) (sys a').

Lemma grows_refl a : grows a a.
Proof. apply extends_by_refl. Qed.

Lemma grows_trans a b c : grows a b → grows b c → grows a c.
Proof. apply extends_by_trans. Qed.

Lemma grows_quiet a a' :
  same_refs a a' → extends_by any_event (sys a) (sys a') → grows a a'.
Proof. by intros _ ?. Qed.

Ltac grows_step :=
  first
    [ apply guarded_ret; apply grows_refl
    | apply guarded_throw; apply grows_refl
    | apply guarded_of_result; apply grows_refl
    | apply guarded_getTokenIds; apply grows_refl
    | apply guarded_bind; [apply grows_trans | done | | intros ?]
    | apply guarded_try_catch; [apply grows_trans | done | | intros ?]
    | apply guarded_if
    | apply guarded_modify; intros ?; exact (extends_by_refl _ _)
    | by intros ? ? ? _ [= <- <-]; apply grows_refl
    | eapply guarded_quiet; [apply grows_quiet | apply quiet_lift_ext]
    | eapply guarded_quiet; [apply grows_quiet | apply quiet_lift_log]
    | eapply guarded_quiet;
        [apply grows_quiet | by apply quiet_initialize_detached]
    | eapply guarded_quiet;
        [apply grows_quiet
        |apply quiet_any_await, quiet_lift_migrateIfNeeded] ].

Lemma grows_init E : guarded (λ _, True) grows (init E).
Proof.
  unfold init, init_body, createTokenManager. repeat grows_step.
  unfold backfillClientId. apply guarded_modify. intros a.
  destruct (negb _); exact (extends_by_refl _ _).
Qed.

Lemma grows_init_build E : guarded (λ _, True) grows (init_build E).
Proof. unfold init_build, createTokenManager. repeat grows_step. Qed.

(** An [init] that leaves a token manager where there was none has
    registered the status tool: the manager is built (line 139) after the
    registration (line 55) has returned. *)
Lemma init_registers_before_manager E a r a' :
  init E a = (r, a') →
  to_boolean (tokenManager a) = false →
  to_boolean (tokenManager a') = true →
  registered E (trace (sys a')) TOOL_NAMES_STATUS.
Proof.
  unfold init, try_catch. rewrite init_body_split. unfold bind at 1.
  destruct (init_check E a) as [[[]|e] a1] eqn:Hcheck.
  - apply init_check_inv_ok in Hcheck
      as (config & Htool & _ & _ & Htr & _).
    assert (Hreg : registered E (trace (sys a1)) TOOL_NAMES_STATUS).
    { exists (trace (sys a)), [EvGetConfig]. by split. }
    destruct (init_build E a1) as [[[]|e] a2] eqn:Hbuild;
      apply (grows_init_build E a1 _ a2 Logic.I) in Hbuild.
    + intros [= <- <-] _ _. by eapply registered_extends.
    + cbv [bind lift log throw]. intros [= <- <-] _ _.
      cbn [sys with_sys emit trace]. apply registered_app.
      by eapply registered_extends.
  - apply init_check_spec in Hcheck as (Htm & _).
    cbv [bind lift log throw]. intros [= <- <-] Hnone Hyes.
    cbn [tokenManager with_sys] in Hyes. congruence.
Qed.

(** An actor that holds a token manager has its status tool registered. *)
Definition manager_after_registration (E : Env) (a : Actor) : Prop :=
  to_boolean (tokenManager a) = true →
  registered E (trace (sys a)) TOOL_NAMES_STATUS.

Lemma preserves_registration_quiet E P {A} (m : M Actor A) :
  quiet P m → preserves (manager_after_registration E) m.
Proof.
  intros Hm a r a' Ha Hrun. apply Hm in Hrun as [(_ & Ht & _) He].
  intros Htm. rewrite Ht in Htm. eapply registered_extends; eauto.
Qed.

Lemma preserves_registration_await E {A} (m : M Actor A) :
  preserves (manager_after_registration E) m →
  preserves (manager_after_registration E) (await E m).
Proof.
  intros Hm a r a' Ha. unfold await.
  destruct (m a) as [r1 a1] eqn:Hrun.
  destruct (settle E a1) as [r2 a2] eqn:Hsettle. intros [= <- <-].
  assert (Hq : quiet any_event (settle E)) by (by apply quiet_settle).
  exact (preserves_registration_quiet E _ _ Hq a1 r2 a2
           (Hm _ _ _ Ha Hrun) Hsettle).
Qed.

Lemma preserves_registration_init E :
  preserves (manager_after_registration E) (init E).
Proof.
  intros a r a' Ha Hrun Htm'.
  destruct (to_boolean (tokenManager a)) eqn:Htm.
  - pose proof (grows_init E a r a' Logic.I Hrun) as Hg.
    eapply registered_extends; [exact Hg | by apply Ha].
  - by eapply init_registers_before_manager.
Qed.

Ltac preserves_registration :=
  repeat first
    [ apply preserves_registration_init
    | eapply preserves_registration_quiet, quiet_lift_log
    | eapply preserves_registration_quiet, quiet_lift_ext
    | eapply preserves_registration_quiet, quiet_getAccessToken
    | eapply preserves_registration_quiet, quiet_initialize_awaited
    | eapply preserves_registration_quiet, (quiet_ret any_event)
    | by intros ? ? ? ? [= <- <-]
    | apply preserves_if
    | apply preserves_registration_await
    | apply preserves_bind; [|intros ?]
    | apply preserves_try_catch; [|intros ?] ].

Lemma preserves_registration_onReconnect E :
  preserves (manager_after_registration E) (onReconnect E).
Proof.
  unfold onReconnect, recover, emergency, probe, reload.
  preserves_registration.
Qed.

Lemma preserves_registration_onSSE E :
  preserves (manager_after_registration E) (onSSE E).
Proof.
  unfold onSSE.
  apply preserves_bind; [preserves_registration | intros ?].
  apply preserves_bind; [|intros ?; preserves_registration].
  apply preserves_registration_await, preserves_registration_onReconnect.
Qed.

(** The life of a session actor: the hosting framework creates it with
    some props, no token manager and no API client, and drives it through
    [init], [onReconnect] and [onSSE]; in between, others may write to the
    namespace and add to the history. *)
Inductive served (E : Env) : Actor → Prop :=
| served_fresh s p : served E (fresh s p)
| served_init a r a' :
    served E a → init E a = (r, a') → served E a'
| served_onReconnect a r a' :
    served E a → onReconnect E a = (r, a') → served E a'
| served_onSSE a r a' :
    served E a → onSSE E a = (r, a') → served E a'
| served_world a s evs :
    served E a → trace s = trace (sys a) ++ evs → served E (with_sys s a).

Lemma served_registered E a :
  served E a → manager_after_registration E a.
Proof.
  induction 1 as [s p|a r a' _ IH Hrun|a r a' _ IH Hrun|a r a' _ IH Hrun
                  |a s evs _ IH Hs].
  - intros Htm. discriminate Htm.
  - eapply preserves_registration_init; eauto.
  - eapply preserves_registration_onReconnect; eauto.
  - eapply preserves_registration_onSSE; eauto.
  - intros Htm. cbn [sys with_sys]. rewrite Hs. apply registered_app.
    by apply IH.
Qed.

(** On such a server, an [init] of an actor whose status tool is
    registered stops at line 55. *)
Lemma init_throws_when_registered E a :
  rejects_duplicates E →
  registered E (trace (sys a)) TOOL_NAMES_STATUS →
  ∃ e,
    init E a
    = (Throw e,
       with_sys
         (emit (EvLog LError
                  "[MyMCP.init] FINAL CATCH: UNHANDLED EXCEPTION in init()")
            (emit (EvServerTool TOOL_NAMES_STATUS) (sys a))) a).
Proof.
  intros Hdup Hreg. destruct (Hdup _ _ Hreg) as [e He]. exists e.
  unfold init, init_body, try_catch. unfold bind at 1.
  unfold lift at 1, ext at 1. rewrite He.
  cbv [bind lift log throw]. by rewrite !sys_with_sys, !with_sys_idem.
Qed.

Lemma await_init_throws_when_registered E a :
  rejects_duplicates E →
  registered E (trace (sys a)) TOOL_NAMES_STATUS →
  ∃ e a', await E (init E) a = (Throw e, a') ∧
          same_refs a a' ∧ grows a a'.
Proof.
  intros Hdup Hreg.
  destruct (init_throws_when_registered E a Hdup Hreg) as [e Hinit].
  destruct (await E (init E) a) as [r a'] eqn:Hrun.
  pose proof Hrun as Hrun'.
  apply await_inv in Hrun' as (a1 & Hrun1 & Hr & (evs & Hevs & _)).
  rewrite Hinit in Hrun1. injection Hrun1 as <- <-.
  exists e, a'. split; [done|]. split.
  - eapply same_refs_trans; [apply same_refs_with_sys | exact Hr].
  - exists ([EvServerTool TOOL_NAMES_STATUS;
             EvLog LError
               "[MyMCP.init] FINAL CATCH: UNHANDLED EXCEPTION in init()"]
            ++ evs).
    split; [|by apply Forall_forall].
    rewrite Hevs. cbn [sys with_sys emit trace]. by norm_trace.
Qed.

(** C5.  [onReconnect] raises nothing: in every execution it returns a
    boolean.  And when all recovery tiers fail, it returns [false]: for a
    session actor that holds a token manager, on a server that refuses to
    register a tool name twice, if the liveness probe fails and the soft
    reload fails (a tier that throws counts as failed: the exception is
    caught inside the tier), then the full reinitialization fails as well,
    because its first step registers the status tool again; the [init] that
    the [catch] block then runs fails for the same reason, and
    [onReconnect] returns [false], its last act being the log of that
    failure. *)
Theorem onReconnect_never_throws (E : Env) (a : Actor) :
  (∃ b a', onReconnect E a = (Ok b, a')) ∧
  (∀ a1 a2,
     rejects_duplicates E →
     served E a →
     to_boolean (tokenManager a) = true →
     probe E (at_tier1 a) = (Ok false, a1) →
     reload E a1 = (Ok false, a2) →
     ∃ e a3 e' a4,
       await E (init E) (at_tier3 a2) = (Throw e, a3) ∧
       await E (init E) (at_emergency a3) = (Throw e', a4) ∧
       onReconnect E a
       = (Ok false,
          with_sys
            (emit (EvLog LError "Emergency reinitialization also failed")
               (sys a4)) a4)).
Proof.
  split; [apply onReconnect_returns|].
  intros a1 a2 Hdup Hserved Htm Hprobe Hreload.
  pose proof (served_registered E a Hserved Htm) as Hreg.
  assert (Hreg2 : registered E (trace (sys (at_tier3 a2))) TOOL_NAMES_STATUS).
  { pose proof (quiet_probe E _ _ _ Hprobe) as [_ He1].
    pose proof (quiet_reload E _ _ _ Hreload) as [_ He2].
    unfold at_tier3. cbn [sys with_sys emit trace].
    rewrite <- app_assoc. apply registered_app.
    eapply registered_extends; [exact He2|].
    eapply registered_extends; [exact He1|].
    unfold at_tier1. cbn [sys with_sys emit trace].
    rewrite <- app_assoc. by apply registered_app. }
  destruct (await_init_throws_when_registered E _ Hdup Hreg2)
    as (e & a3 & Hinit & _ & Hg).
  assert (Hreg3 : registered E (trace (sys (at_emergency a3)))
                    TOOL_NAMES_STATUS).
  { unfold at_emergency. cbn [sys with_sys emit trace].
    rewrite <- app_assoc. apply registered_app.
    eapply registered_extends; [exact Hg | exact Hreg2]. }
  destruct (await_init_throws_when_registered E _ Hdup Hreg3)
    as (e' & a4 & Hagain & _).
  exists e, a3, e', a4. split; [done|]. split; [done|].
  by eapply onReconnect_exhausts.
Qed.

(** Whether a registration of [name] was issued in [h]. *)
Definition tool_issued (name : string) (h : list event) : bool :=
  existsb (λ ev, match ev with
                 | EvServerTool n => String.eqb n name
                 | _ => false
                 end) h.

(** A world whose server refuses a name it has been given before, and
    whose token manager, once the session is set up, is beyond recovery:
    the probe rejects and [initialize()] answers [false]. *)
Definition worn_out_env : Env :=
  {| store := store steady_env;
     getConfig := getConfig steady_env;
     server_tool :=
       λ h name,
         if tool_issued name h
         then Throw (JsError ("Tool " +:+ name +:+ " is already registered"))
         else Ok ();
     initializeSchwabAuthClient := initializeSchwabAuthClient steady_env;
     tm_initialize := λ _, TmRet (Ok false);
     tm_getAccessToken :=
       λ _, TmRet (Throw (SchwabAuthError "TOKEN_EXPIRED"
                            "refresh token expired" 401));
     createApiClient := createApiClient steady_env;
     registerTools := registerTools steady_env;
     super_onSSE := super_onSSE steady_env;
     settles := settles steady_env |}.

Lemma worn_out_env_rejects_duplicates : rejects_duplicates worn_out_env.
Proof.
  intros h name (h1 & h2 & -> & _). cbn.
  assert (tool_issued name (h1 ++ EvServerTool name :: h2) = true) as ->.
  { unfold tool_issued. rewrite existsb_app. cbn.
    by rewrite String.eqb_refl, orb_true_r. }
  by eexists.
Qed.

(** The session of client ["c1"], set up by a first [init] that
    succeeded. *)
Definition set_up : Actor :=
  (init worn_out_env (fresh KvTokenStore.empty_sys client_only)).2.

Lemma onReconnect_never_throws_witness :
  let a1 := (probe worn_out_env (at_tier1 set_up)).2 in
  let a2 := (reload worn_out_env a1).2 in
  rejects_duplicates worn_out_env ∧
  served worn_out_env set_up ∧
  to_boolean (tokenManager set_up) = true ∧
  probe worn_out_env (at_tier1 set_up) = (Ok false, a1) ∧
  reload worn_out_env a1 = (Ok false, a2) ∧
  ∃ e a3 e' a4,
    await worn_out_env (init worn_out_env) (at_tier3 a2) = (Throw e, a3) ∧
    await worn_out_env (init worn_out_env) (at_emergency a3)
    = (Throw e', a4) ∧
    onReconnect worn_out_env set_up
    = (Ok false,
       with_sys
         (emit (EvLog LError "Emergency reinitialization also failed")
            (sys a4)) a4).
Proof.
  intros a1 a2.
  assert (H0 : rejects_duplicates worn_out_env)
    by exact worn_out_env_rejects_duplicates.
  assert (H1 : served worn_out_env set_up).
  { eapply served_init; [apply served_fresh|]. apply surjective_pairing. }
  assert (H2 : to_boolean (tokenManager set_up) = true)
    by (vm_compute; reflexivity).
  assert (H3 : probe worn_out_env (at_tier1 set_up) = (Ok false, a1))
    by (vm_compute; reflexivity).
  assert (H4 : reload worn_out_env a1 = (Ok false, a2))
    by (vm_compute; reflexivity).
  split; [assumption|]. split; [assumption|]. split; [assumption|].
  split; [assumption|]. split; [assumption|].
  exact (proj2 (onReconnect_never_throws worn_out_env set_up)
           a1 a2 H0 H1 H2 H3 H4).
Defined.

(** The history of that session: the set-up, then the recovery, in which
    both reinitializations stop at the registration of the status tool. *)
Example onReconnect_worn_out_trace :
  (onReconnect worn_out_env set_up).1 = Ok false ∧
  trace (sys (onReconnect worn_out_env set_up).2)
  = [EvServerTool TOOL_NAMES_STATUS; EvGetConfig;
     EvInitializeSchwabAuthClient; EvTmInitializeCalled 3;
     EvCreateApiClient; EvRegisterTools;
     EvLog LInfo "Handling reconnection in MyMCP instance";
     EvLog LInfo "Attempting reconnection via token manager";
     EvLog LInfo "Attempting to fetch access token as recovery test";
     EvTmGetAccessToken;
     EvLog LWarn "Failed to get access token during reconnection";
     EvLog LInfo "Attempting proactive reinitialization of token manager";
     EvTmInitializeCalled 12; EvTmInitializeSettled 12;
     EvLog LInfo "Token manager reinitialization failed";
     EvLog LInfo "Token manager state during reconnection";
     EvLog LWarn
       "Reconnection recovery attempts failed, performing full reinitialization";
     EvServerTool TOOL_NAMES_STATUS;
     EvLog LError "[MyMCP.init] FINAL CATCH: UNHANDLED EXCEPTION in init()";
     EvLog LError "Critical error during reconnection handling";
     EvLog LWarn
       "Attempting emergency reinitialization after reconnection failure";
     EvServerTool TOOL_NAMES_STATUS;
     EvLog LError "[MyMCP.init] FINAL CATCH: UNHANDLED EXCEPTION in init()";
     EvLog LError "Emergency reinitialization also failed"].
Proof. split; vm_compute; reflexivity. Qed.

End MyMCP.
